(** * F1X caching and rate-limiting layer: a shallow embedding

  The development follows the repository's modules:
  - [JS]         the fragment of JavaScript values the backend manipulates;
  - [Config]     functions/src/config.js;
  - [Retry], [Limiter], [Upstream]
                 functions/src/upstream.js (fetchWithRetry, DualRateLimiter,
                 the OpenF1 and Jolpica calls);
  - [Firestore]  the cache collection shared by the scheduler and the read layer;
  - [Scheduled]  functions/src/scheduled.js (the four refresh jobs);
  - [Middleware] functions/src/middleware.js (CORS and IP rate limiting);
  - [Index]      functions/src/index.js (the cache-only HTTP endpoints);
  - [Api]        js/api.js (the client cache with stale-while-revalidate).

  Asynchronous code is embedded by its synchronous segments: a function runs
  until its first [await] on the outside world, and what the outside world
  answers (HTTP responses, clock readings, timer expiry, store failures) is
  an explicit argument.  Console output is not modelled. *)

From Stdlib Require Import ZArith List Lia Bool Ascii.
From stdpp Require Import gmap strings list pretty.

Open Scope Z_scope.

(* ------------------------------------------------------------------------- *)
(** ** JavaScript values *)
(* ------------------------------------------------------------------------- *)

Module JS.

(** Parsed JSON, plus [undefined].  Numbers are the integers (every number
    the modelled code computes with is a count or a millisecond timestamp).
    An object keeps its fields in a list; a lookup takes the first binding. *)
#[warnings="-register-all"] Inductive value :=
| Undefined
| Null
| Boolean (b : bool)
| Number (n : Z)
| Str (s : string)
| Arr (elems : list value)
| Obj (fields : list (string * value)).

(** ToBoolean: what [if (v)], [!v], [a && b], [a || b] test. *)
Definition truthy (v : value) : bool :=
  match v with
  | Undefined | Null => false
  | Boolean b => b
  | Number n => negb (n =? 0)
  | Str s => negb (String.eqb s "")
  | Arr _ | Obj _ => true
  end.

(** [v === null || v === undefined]: reading a property of such a value
    throws a TypeError. *)
Definition nullish (v : value) : bool :=
  match v with Undefined | Null => true | _ => false end.

Fixpoint assoc (p : string) (fields : list (string * value)) : value :=
  match fields with
  | [] => Undefined
  | (k, v) :: rest => if String.eqb k p then v else assoc p rest
  end.

(** [v.p] for the named properties the code reads ([date_start],
    [session_key], [length], ...) on a receiver that is not nullish. *)
Definition prop (v : value) (p : string) : value :=
  match v with
  | Obj fields => assoc p fields
  | Arr elems => if String.eqb p "length" then Number (Z.of_nat (length elems)) else Undefined
  | Str s => if String.eqb p "length" then Number (Z.of_nat (String.length s)) else Undefined
  | _ => Undefined
  end.

(** [v[0]] on a receiver that is not nullish. *)
Definition elem0 (v : value) : value :=
  match v with
  | Arr elems => match elems with x :: _ => x | [] => Undefined end
  | Str s => match s with String c _ => Str (String c EmptyString) | EmptyString => Undefined end
  | Obj fields => assoc "0" fields
  | _ => Undefined
  end.

Definition join (sep : string) (parts : list string) : string :=
  match parts with
  | [] => ""
  | p :: ps => fold_left (fun acc q => acc +:+ sep +:+ q) ps p
  end.

(** ToString, as applied by a template literal [`${v}`]. *)
Fixpoint ToString (v : value) : string :=
  match v with
  | Undefined => "undefined"
  | Null => "null"
  | Boolean true => "true"
  | Boolean false => "false"
  | Number n => pretty n
  | Str s => s
  | Arr elems =>
      join "," (map (fun e => if nullish e then "" else ToString e) elems)
  | Obj _ => "[object Object]"
  end.

(** How a statement (or an awaited promise) ends. *)
Inductive completion (A : Type) :=
| Returned (v : A)
| Threw (message : string).
Arguments Returned {A} v.
Arguments Threw {A} message.

End JS.

(* ------------------------------------------------------------------------- *)
(** ** functions/src/config.js *)
(* ------------------------------------------------------------------------- *)

Module Config.

Definition OPENF1_BASE : string := "https://api.openf1.org/v1".
Definition JOLPICA_BASE : string := "https://api.jolpi.ca/ergast/f1".

Record rate_limit := { perSecond : Z; perMinute : Z }.

Definition OPENF1_RATE_LIMIT : rate_limit := {| perSecond := 3; perMinute := 30 |}.
Definition JOLPICA_RATE_LIMIT : rate_limit := {| perSecond := 4; perMinute := 60 |}.

Module IP_RATE_LIMIT.
Definition maxRequests : Z := 60.
Definition windowMs : Z := 60 * 1000.
End IP_RATE_LIMIT.

Module SESSION_GRACE_PERIOD.
Definition beforeStart : Z := 30 * 60 * 1000.
Definition afterEnd : Z := 60 * 60 * 1000.
End SESSION_GRACE_PERIOD.

End Config.

(* ------------------------------------------------------------------------- *)
(** ** functions/src/upstream.js: fetch helpers with retry *)
(* ------------------------------------------------------------------------- *)

Module Retry.
Import JS.

Definition MAX_RETRIES : nat := 3.
Definition RETRY_BACKOFF_MS : list Z := [1000; 3000; 8000].

(** [RETRY_BACKOFF_MS[attempt] || fallback] *)
Definition backoff_or (attempt : nat) (fallback : Z) : Z :=
  match RETRY_BACKOFF_MS !! attempt with
  | Some ms => if ms =? 0 then fallback else ms
  | None => fallback
  end.

(** What one [fetch(url)] yields: the promise rejects (transport failure),
    or it resolves to a response whose [json()] either rejects or parses. *)
Inductive fetched :=
| Rejected (message : string)
| Response (status : Z) (statusText : string) (json : completion value).

(** [response.ok] *)
Definition ok (status : Z) : bool := (200 <=? status) && (status <=? 299).

(** The interactions of one call with the outside, in order. [Acquire] is a
    completed [await limiter.acquire()], [Sleep ms] a completed
    [setTimeout(r, ms)]. *)
Inductive effect :=
| Acquire
| Fetch (url : string)
| Sleep (ms : Z).

Definition after (es : list effect) (rest : option (list effect * completion value))
  : option (list effect * completion value) :=
  match rest with
  | Some (es', c) => Some (es ++ es', c)
  | None => None
  end.

Definition status_error (status : Z) (statusText : string) : string :=
  "Upstream API error " +:+ pretty status +:+ ": " +:+ statusText.

(** The [for] loop of [fetchWithRetry], entered with the given [attempt];
    [net n] is the outcome of the fetch of attempt [n].  [fuel] bounds the
    number of iterations; [None] means it ran out. *)
Fixpoint attempts (fuel : nat) (url : string) (net : nat -> fetched) (attempt : nat)
  : option (list effect * completion value) :=
  match fuel with
  | O => None
  | S fuel' =>
      if (attempt <=? MAX_RETRIES)%nat then
        (* the [catch] block *)
        let catch message :=
          if (attempt =? MAX_RETRIES)%nat
          then Some ([Acquire; Fetch url], Threw message)
          else after [Acquire; Fetch url; Sleep (backoff_or attempt 2000)]
                     (attempts fuel' url net (S attempt)) in
        match net attempt with
        | Rejected message => catch message
        | Response status statusText json =>
            if ok status then
              match json with
              | Returned v => Some ([Acquire; Fetch url], Returned v)
              | Threw message => catch message
              end
            else if status =? 429 then
              (* sleep, then [continue] *)
              after [Acquire; Fetch url; Sleep (backoff_or attempt 8000)]
                    (attempts fuel' url net (S attempt))
            else catch (status_error status statusText)
        end
      else
        (* the loop is left without a [return]: the result is [undefined] *)
        Some ([], Returned Undefined)
  end.

Definition fetchWithRetry (url : string) (net : nat -> fetched)
  : option (list effect * completion value) :=
  attempts (MAX_RETRIES + 2) url net 0.

Definition fetches (es : list effect) : list string :=
  omap (fun e => match e with Fetch u => Some u | _ => None end) es.

Definition sleeps (es : list effect) : list Z :=
  omap (fun e => match e with Sleep ms => Some ms | _ => None end) es.

(** The call fails at once: one attempt, no sleep, and an error to the caller. *)
Definition fails_immediately (url : string) (net : nat -> fetched) : Prop :=
  exists message, fetchWithRetry url net = Some ([Acquire; Fetch url], Threw message).

(** An upstream that answers 429 every time. *)
Definition always_429 (n : nat) : fetched :=
  Response 429 "Too Many Requests" (Returned Null).

(** An upstream that answers 500 once and 200 with an empty array after that. *)
Definition once_500 (n : nat) : fetched :=
  match n with
  | O => Response 500 "Internal Server Error" (Returned Null)
  | S _ => Response 200 "OK" (Returned (Arr []))
  end.

(** An upstream that answers 404 every time. *)
Definition always_404 (n : nat) : fetched :=
  Response 404 "Not Found" (Returned Null).

(** Number of completed [limiter.acquire()] calls in a trace. *)
Definition acquired (es : list effect) : nat :=
  length (omap (fun e => match e with Acquire => Some tt | _ => None end) es).

(** A trace made of attempts only: each is a completed [acquire()] followed
    at once by the fetch of [url], and between two attempts, or after the
    last one, there is at most one sleep. *)
Inductive paced (url : string) : list effect -> Prop :=
| paced_nil : paced url []
| paced_last : paced url [Acquire; Fetch url]
| paced_next ms rest :
    paced url rest -> paced url (Acquire :: Fetch url :: Sleep ms :: rest).

(** The body an attempt hands back: the response is [ok] and its JSON parses. *)
Definition succeeded (o : fetched) : option value :=
  match o with
  | Response status _ (Returned v) => if ok status then Some v else None
  | _ => None
  end.

(** An upstream that fails twice (a transport error, then a 429) before it
    answers. *)
Definition third_time_lucky (n : nat) : fetched :=
  match n with
  | 0%nat => Rejected "ECONNRESET"
  | 1%nat => Response 429 "Too Many Requests" (Returned Null)
  | _ => Response 200 "OK" (Returned (Arr [Number 1]))
  end.

(** An upstream that cannot be reached. *)
Definition unreachable (n : nat) : fetched := Rejected "ENOTFOUND".

End Retry.

(* ------------------------------------------------------------------------- *)
(** ** functions/src/upstream.js: the dual token bucket rate limiter *)
(* ------------------------------------------------------------------------- *)

Module Limiter.

(** A queued waiter: the [resolve] function of the promise that one
    [acquire()] call returned, named by a number. *)
Definition resolver := nat.

(** The fields of [class DualRateLimiter]. *)
Record DualRateLimiter := {
  perSecond : Z;
  perMinute : Z;
  secondTokens : Z;
  minuteTokens : Z;
  lastSecondRefill : Z;
  lastMinuteRefill : Z;
  queue : list resolver;
  processing : bool
}.

(** The limiter in its process: the object, how many times [Date.now()] has
    been read, the [resolve()] calls made so far (oldest first, each with the
    clock reading of the loop iteration that made it), and the delay of the
    [setTimeout] the worker loop is suspended on, if it is. *)
Record world := {
  this : DualRateLimiter;
  clock : nat;
  resolved : list (resolver * Z);
  timer : option Z
}.

Section Clock.
(** [Date_now n] is what the [n]-th call of [Date.now()] returns. *)
Variable Date_now : nat -> Z.

(** [constructor({ perSecond, perMinute })] *)
Definition new_limiter (cfg : Config.rate_limit) (clock0 : nat) : world :=
  {| this := {| perSecond := Config.perSecond cfg;
                perMinute := Config.perMinute cfg;
                secondTokens := Config.perSecond cfg;
                minuteTokens := Config.perMinute cfg;
                lastSecondRefill := Date_now clock0;
                lastMinuteRefill := Date_now (S clock0);
                queue := [];
                processing := false |};
     clock := S (S clock0);
     resolved := [];
     timer := None |}.

(** [_refill()].  The clock counts whole milliseconds, so
    [secElapsed >= 1] is [now - lastSecondRefill >= 1000] and
    [Math.floor(secElapsed)] is the quotient by 1000; likewise for minutes. *)
Definition _refill_at (now : Z) (l : DualRateLimiter) : DualRateLimiter :=
  let l1 :=
    if 1000 <=? now - lastSecondRefill l then
      {| perSecond := perSecond l; perMinute := perMinute l;
         secondTokens :=
           Z.min (perSecond l)
                 (secondTokens l + (now - lastSecondRefill l) / 1000 * perSecond l);
         minuteTokens := minuteTokens l;
         lastSecondRefill := now;
         lastMinuteRefill := lastMinuteRefill l;
         queue := queue l; processing := processing l |}
    else l in
  if 60000 <=? now - lastMinuteRefill l1 then
    {| perSecond := perSecond l1; perMinute := perMinute l1;
       secondTokens := secondTokens l1;
       minuteTokens :=
         Z.min (perMinute l1)
               (minuteTokens l1 + (now - lastMinuteRefill l1) / 60000 * perMinute l1);
       lastSecondRefill := lastSecondRefill l1;
       lastMinuteRefill := now;
       queue := queue l1; processing := processing l1 |}
  else l1.

Definition _refill (w : world) : world :=
  {| this := _refill_at (Date_now (clock w)) (this w);
     clock := S (clock w);
     resolved := resolved w;
     timer := timer w |}.

(** [this.secondTokens--; this.minuteTokens--; this.queue.shift()] *)
Definition take (rest : list resolver) (l : DualRateLimiter) : DualRateLimiter :=
  {| perSecond := perSecond l; perMinute := perMinute l;
     secondTokens := secondTokens l - 1;
     minuteTokens := minuteTokens l - 1;
     lastSecondRefill := lastSecondRefill l;
     lastMinuteRefill := lastMinuteRefill l;
     queue := rest; processing := processing l |}.

Definition set_processing (b : bool) (l : DualRateLimiter) : DualRateLimiter :=
  {| perSecond := perSecond l; perMinute := perMinute l;
     secondTokens := secondTokens l; minuteTokens := minuteTokens l;
     lastSecondRefill := lastSecondRefill l;
     lastMinuteRefill := lastMinuteRefill l;
     queue := queue l; processing := b |}.

Definition push (r : resolver) (l : DualRateLimiter) : DualRateLimiter :=
  {| perSecond := perSecond l; perMinute := perMinute l;
     secondTokens := secondTokens l; minuteTokens := minuteTokens l;
     lastSecondRefill := lastSecondRefill l;
     lastMinuteRefill := lastMinuteRefill l;
     queue := queue l ++ [r]; processing := processing l |}.

(** The [while (this.queue.length > 0)] loop of [_processQueue], from its
    test, with [q] the queue at that point.  It runs until the queue is
    empty or until it suspends on the [setTimeout]; it recurses only
    after a [shift()]. *)
Fixpoint worker (q : list resolver) (w : world) : world :=
  match q with
  | [] =>
      {| this := set_processing false (this w);
         clock := clock w; resolved := resolved w; timer := timer w |}
  | resolve :: rest =>
      let now := Date_now (clock w) in
      let w1 := _refill w in
      if (0 <? secondTokens (this w1)) && (0 <? minuteTokens (this w1)) then
        worker rest
          {| this := take rest (this w1);
             clock := clock w1;
             resolved := resolved w1 ++ [(resolve, now)];
             timer := timer w1 |}
      else
        let waitMs := if secondTokens (this w1) <=? 0 then 1000 else 2000 in
        {| this := this w1; clock := clock w1; resolved := resolved w1;
           timer := Some waitMs |}
  end.

(** [_processQueue()], called from [acquire]. *)
Definition _processQueue (w : world) : world :=
  if processing (this w) then w
  else worker (queue (this w))
         {| this := set_processing true (this w);
            clock := clock w; resolved := resolved w; timer := timer w |}.

(** [acquire()]: the promise executor pushes [resolve] and calls
    [_processQueue()], which runs synchronously up to its first [await]. *)
Definition acquire (resolve : resolver) (w : world) : world :=
  _processQueue
    {| this := push resolve (this w);
       clock := clock w; resolved := resolved w; timer := timer w |}.

(** The pending [setTimeout] expires and the loop goes back to its test.
    Without a pending timer there is nothing to resume. *)
Definition timer_fired (w : world) : world :=
  match timer w with
  | Some _ =>
      worker (queue (this w))
        {| this := this w; clock := clock w; resolved := resolved w;
           timer := None |}
  | None => w
  end.

(** What the event loop runs on the limiter, one task after the other. *)
Inductive event :=
| Acquire (resolve : resolver)
| TimerFired.

Definition step (w : world) (e : event) : world :=
  match e with
  | Acquire resolve => acquire resolve w
  | TimerFired => timer_fired w
  end.

Definition run (events : list event) (w : world) : world :=
  fold_left step events w.

End Clock.

(** The [acquire()] calls of a history, in arrival order. *)
Definition arrivals (events : list event) : list resolver :=
  omap (fun e => match e with Acquire r => Some r | TimerFired => None end) events.

(** Number of log entries whose time satisfies [f]. *)
Definition count (f : Z -> bool) (log : list (resolver * Z)) : nat :=
  length (List.filter (fun g => f (snd g)) log).

(** Number of grants whose time lies in the window [[t, t + len)]. *)
Definition granted_in (t len : Z) (log : list (resolver * Z)) : nat :=
  count (fun g => (t <=? g) && (g <? t + len)) log.

(** Number of grants made at time [t] or later. *)
Definition granted_since (t : Z) (log : list (resolver * Z)) : nat :=
  count (Z.leb t) log.

Definition monotone (Date_now : nat -> Z) : Prop :=
  forall i j : nat, (i <= j)%nat -> Date_now i <= Date_now j.

(** One token bucket with capacity [cap] and window [W], seen together with
    the grants it has let through: the grants since the anchor have used up
    the tokens missing from the bucket, no grant lies a window or more after
    the anchor, and no window ever held more than [2 * cap] grants. *)
Record bucket_inv (cap W tokens anchor : Z) (log : list (resolver * Z)) : Prop := {
  tokens_range : 0 <= tokens <= cap;
  since_anchor : Z.of_nat (granted_since anchor log) + tokens <= cap;
  before_next : forall r g, In (r, g) log -> g < anchor + W;
  near_anchor : Z.of_nat (count (Z.ltb (anchor - W)) log) + tokens <= 2 * cap;
  rolling : forall t, Z.of_nat (granted_in t W log) <= 2 * cap
}.

Section Invariants.
Variable Date_now : nat -> Z.

(** Grant times never decrease along the log, and none lies after a clock
    reading still to come. *)
Definition timed (w : world) : Prop :=
  (forall i j x y, (i <= j)%nat ->
     resolved w !! i = Some x -> resolved w !! j = Some y -> snd x <= snd y) /\
  (forall n x, (clock w <= n)%nat -> x ∈ resolved w -> snd x <= Date_now n).

(** Both buckets of a limiter built from [cfg], with the anchors never ahead
    of the clock. *)
Record winv (cfg : Config.rate_limit) (w : world) : Prop := {
  caps : perSecond (this w) = Config.perSecond cfg /\
         perMinute (this w) = Config.perMinute cfg;
  second_bucket :
    bucket_inv (Config.perSecond cfg) 1000
               (secondTokens (this w)) (lastSecondRefill (this w)) (resolved w);
  minute_bucket :
    bucket_inv (Config.perMinute cfg) 60000
               (minuteTokens (this w)) (lastMinuteRefill (this w)) (resolved w);
  anchors_past : forall n, (clock w <= n)%nat ->
    lastSecondRefill (this w) <= Date_now n /\
    lastMinuteRefill (this w) <= Date_now n
}.

End Invariants.

(** *** Two histories on the OpenF1 limiter *)

(** A clock on which the per-second bucket is emptied one millisecond
    before its anchor advances: the constructor reads 0 twice, the next
    three readings are 999 and the later ones 1000. *)
Definition burst_clock (n : nat) : Z :=
  if (n <? 2)%nat then 0 else if (n <? 5)%nat then 999 else 1000.

(** A clock on which the per-minute bucket is emptied in the ten seconds
    before the first minute ends: readings 334 ms apart from 50 s on, and
    from 60.1 s on after the thirtieth. *)
Definition minute_clock (n : nat) : Z :=
  let k := Z.of_nat n in
  if k <? 2 then 0
  else if k <? 32 then 50000 + 334 * (k - 2)
  else 60100 + 334 * (k - 32).

Definition acquires (n : nat) : list event := map Acquire (seq 0 n).

(** A clock that reads 0 up to its sixth reading and 1000 from then on: a
    limiter and four [acquire()] calls at time 0, then a second later. *)
Definition tick_clock (n : nat) : Z := if (n <? 6)%nat then 0 else 1000.

(** The limiter between two tasks of the event loop: either nobody waits and
    the worker loop is off, or somebody waits and the loop is on, suspended
    on a timer of 1000 ms when the per-second bucket is empty and of 2000 ms
    when only the per-minute bucket is. *)
Definition settled (w : world) : Prop :=
  (queue (this w) = [] /\ processing (this w) = false /\ timer w = None) \/
  (queue (this w) <> [] /\ processing (this w) = true /\
   ((timer w = Some 1000 /\ secondTokens (this w) <= 0) \/
    (timer w = Some 2000 /\ 0 < secondTokens (this w) /\ minuteTokens (this w) <= 0))).

End Limiter.

(* ------------------------------------------------------------------------- *)
(** ** The Firestore cache collection *)
(* ------------------------------------------------------------------------- *)

Module Firestore.
Import JS.

(** A document of the collection [f1_cache], as [cacheWrite] shapes it. *)
Record doc := { data : value; updatedAt : Z }.

(** What the Firestore service does with a request is for the service to
    decide: [commits docId data] is the outcome of
    [doc(docId).set({ data, updatedAt: serverTimestamp() })], either the
    timestamp the server stamps or a rejection; [reads docId] tells whether
    [doc(docId).get()] goes through. *)
Record service := {
  commits : string -> value -> completion Z;
  reads : string -> completion unit
}.

End Firestore.

(* ------------------------------------------------------------------------- *)
(** ** functions/src/scheduled.js *)
(* ------------------------------------------------------------------------- *)

Module Scheduled.
Import JS Firestore.

(** The functions exported by upstream.js, as the jobs see them: each call
    either returns what [fetchWithRetry] returned or throws.  Within one run
    of a job the outcome of a call is a function of its arguments. *)
Record upstream := {
  fetchMeetings : Z -> completion value;
  fetchSessions : value -> completion value;
  fetchDrivers : value -> completion value;
  fetchPositions : value -> completion value;
  fetchIntervals : value -> completion value;
  fetchLaps : value -> completion value;
  fetchWeather : value -> completion value;
  fetchRaceControl : value -> completion value;
  fetchStints : value -> completion value;
  fetchDriverStandings : Z -> completion value;
  fetchConstructorStandings : Z -> completion value
}.

(** A job step: it transforms the collection and returns or throws. *)
Definition job (A : Type) : Type :=
  gmap string doc -> gmap string doc * completion A.

Definition ret {A} (x : A) : job A := fun db => (db, Returned x).

Definition throw {A} (message : string) : job A := fun db => (db, Threw message).

Definition bind {A B} (c : job A) (k : A -> job B) : job B :=
  fun db =>
    match c db with
    | (db', Returned x) => k x db'
    | (db', Threw message) => (db', Threw message)
    end.

(** [try { body } catch (e) { handler }] *)
Definition try_catch {A} (body : job A) (handler : string -> job A) : job A :=
  fun db =>
    match body db with
    | (db', Returned x) => (db', Returned x)
    | (db', Threw message) => handler message db'
    end.

(** [await p] for a promise whose outcome is known. *)
Definition await {A} (p : completion A) : job A := fun db => (db, p).

Notation "x <- c ;; k" := (bind c (fun x => k))
  (at level 100, c at next level, right associativity).
Notation "c ;;; k" := (bind c (fun _ : unit => k))
  (at level 100, right associativity).

Section Jobs.
(** The platform: [Date_getTime v] is [new Date(v).getTime()], [None] for
    NaN; [StringToNumber s] is the number a string converts to, [None] for
    NaN. *)
Variable Date_getTime : value -> option Z.
Variable StringToNumber : string -> option Z.
Variable firestore : service.
Variable up : upstream.

(** [cacheWrite(docId, data)] *)
Definition cacheWrite (docId : string) (data : value) : job unit :=
  fun db =>
    match commits firestore docId data with
    | Returned ts => (<[docId := {| data := data; updatedAt := ts |}]> db, Returned tt)
    | Threw message => (db, Threw message)
    end.

(** [await Promise.all(writes)]: every write of the list has been started
    and runs to its own end; the whole rejects when one of them does. *)
Fixpoint Promise_all (writes : list (string * value)) : job unit :=
  match writes with
  | [] => ret tt
  | (docId, data) :: rest =>
      fun db =>
        match cacheWrite docId data db with
        | (db', Returned _) => Promise_all rest db'
        | (db', Threw message) => (fst (Promise_all rest db'), Threw message)
        end
  end.

(** [isSessionInLiveWindow(session)], with [now] the value of [Date.now()].
    A comparison with NaN is false. *)
Definition isSessionInLiveWindow (now : Z) (session : value) : bool :=
  if negb (truthy session)
     || negb (truthy (prop session "date_start"))
     || negb (truthy (prop session "date_end"))
  then false
  else
    let start := Date_getTime (prop session "date_start") in
    let end_ := Date_getTime (prop session "date_end") in
    let windowStart :=
      option_map (fun t => t - Config.SESSION_GRACE_PERIOD.beforeStart) start in
    let windowEnd :=
      option_map (fun t => t + Config.SESSION_GRACE_PERIOD.afterEnd) end_ in
    match windowStart, windowEnd with
    | Some ws, Some we => (ws <=? now) && (now <=? we)
    | _, _ => false
    end.

(** ToNumber, and [v > 0]. *)
Definition ToNumber (v : value) : option Z :=
  match v with
  | Undefined => None
  | Null => Some 0
  | Boolean b => Some (if b then 1 else 0)
  | Number n => Some n
  | Str s => StringToNumber s
  | Arr _ => StringToNumber (ToString v)
  | Obj _ => None
  end.

Definition gt0 (v : value) : bool :=
  match ToNumber v with Some n => 0 <? n | None => false end.

(** [sessions && sessions.length > 0 ? sessions[0] : null] *)
Definition latest_of (sessions : value) : value :=
  if truthy sessions && gt0 (prop sessions "length") then elem0 sessions else Null.

(** [for (const x of data)]: the elements of an array, the characters of a
    string (one byte each); anything else is not iterable. *)
Definition iterate (data : value) : option (list value) :=
  match data with
  | Arr elems => Some elems
  | Str s => Some (map (fun c => Str (String c EmptyString)) (String.list_ascii_of_string s))
  | _ => None
  end.

(** The body of the loop of [refreshMeetings] over the meetings still to
    visit.  A meeting that is [null] makes the inner [catch] itself throw
    (it reads [meeting.meeting_key] for its message), which ends the loop. *)
Fixpoint each_meeting (meetings : list value) : job unit :=
  match meetings with
  | [] => ret tt
  | meeting :: rest =>
      if nullish meeting then throw "Cannot read properties of null"
      else
        let meeting_key := prop meeting "meeting_key" in
        try_catch
          (sessions <- await (fetchSessions up (Obj [("meeting_key", meeting_key)])) ;;
           cacheWrite ("sessions_" +:+ ToString meeting_key) sessions)
          (fun _ => ret tt) ;;;
        each_meeting rest
  end.

(** [refreshMeetings], run in the year [year]. *)
Definition refreshMeetings (year : Z) : job unit :=
  try_catch
    (data <- await (fetchMeetings up year) ;;
     cacheWrite ("meetings_" +:+ pretty year) data ;;;
     if nullish data then throw "Cannot read properties of undefined (reading 'length')"
     else
       match iterate data with
       | Some meetings => each_meeting meetings
       | None => throw "data is not iterable"
       end)
    (fun _ => ret tt).

(** [refreshStandings], run in the year [year]. *)
Definition refreshStandings (year : Z) : job unit :=
  try_catch
    (match fetchDriverStandings up year, fetchConstructorStandings up year with
     | Returned driverStandings, Returned constructorStandings =>
         Promise_all [("driver_standings_" +:+ pretty year, driverStandings);
                      ("constructor_standings_" +:+ pretty year, constructorStandings)] ;;;
         if nullish driverStandings || nullish constructorStandings
         then throw "Cannot read properties of undefined (reading 'length')"
         else ret tt
     | Threw message, _ => throw message
     | _, Threw message => throw message
     end)
    (fun _ => ret tt).

(** [p.catch((e) => { ...; return null; })] *)
Definition or_null (p : completion value) : value :=
  match p with Returned v => v | Threw _ => Null end.

(** [if (v) writes.push(cacheWrite(docId, v))] *)
Definition push_if (v : value) (docIds : list string) : list (string * value) :=
  if truthy v then map (fun docId => (docId, v)) docIds else [].

(** The seven live resources of [refreshLiveData]: the promise of each fetch
    and the documents its result is written to. *)
Definition live_resources (sessionKey : value) : list (completion value * list string) :=
  let sk := ToString sessionKey in
  [ (fetchPositions up sessionKey, ["positions_" +:+ sk]);
    (fetchIntervals up sessionKey, ["intervals_" +:+ sk]);
    (fetchStints up sessionKey, ["stints_" +:+ sk]);
    (fetchWeather up sessionKey, ["weather_" +:+ sk]);
    (fetchRaceControl up sessionKey, ["race_control_" +:+ sk]);
    (fetchDrivers up sessionKey, ["drivers_" +:+ sk; "drivers_latest"]);
    (fetchLaps up sessionKey, ["laps_" +:+ sk +:+ "_all"]) ].

(** The array [writes] of [refreshLiveData], once every fetch of the
    [Promise.all] has settled. *)
Definition live_writes (sessionKey : value) : list (string * value) :=
  let sk := ToString sessionKey in
  let positions := or_null (fetchPositions up sessionKey) in
  let intervals := or_null (fetchIntervals up sessionKey) in
  let stints := or_null (fetchStints up sessionKey) in
  let weather := or_null (fetchWeather up sessionKey) in
  let raceControl := or_null (fetchRaceControl up sessionKey) in
  let drivers := or_null (fetchDrivers up sessionKey) in
  let laps := or_null (fetchLaps up sessionKey) in
  push_if positions ["positions_" +:+ sk]
  ++ push_if intervals ["intervals_" +:+ sk]
  ++ push_if stints ["stints_" +:+ sk]
  ++ push_if weather ["weather_" +:+ sk]
  ++ push_if raceControl ["race_control_" +:+ sk]
  ++ push_if drivers ["drivers_" +:+ sk; "drivers_latest"]
  ++ push_if laps ["laps_" +:+ sk +:+ "_all"].

(** [refreshLiveData], run at time [now]. *)
Definition refreshLiveData (now : Z) : job unit :=
  try_catch
    (sessions <- await (fetchSessions up (Obj [("session_key", Str "latest")])) ;;
     let latestSession := latest_of sessions in
     cacheWrite "latest_session" latestSession ;;;
     if negb (truthy latestSession) then ret tt
     else if negb (isSessionInLiveWindow now latestSession) then ret tt
     else
       let sessionKey := prop latestSession "session_key" in
       Promise_all (live_writes sessionKey))
    (fun _ => ret tt).

(** [refreshBaseData] *)
Definition refreshBaseData : job unit :=
  try_catch
    (sessions <- await (fetchSessions up (Obj [("session_key", Str "latest")])) ;;
     let latestSession := latest_of sessions in
     cacheWrite "latest_session" latestSession ;;;
     if negb (truthy latestSession) then ret tt
     else
       let sessionKey := prop latestSession "session_key" in
       try_catch
         (drivers <- await (fetchDrivers up sessionKey) ;;
          if truthy drivers then
            cacheWrite ("drivers_" +:+ ToString sessionKey) drivers ;;;
            cacheWrite "drivers_latest" drivers
          else ret tt)
         (fun _ => ret tt))
    (fun _ => ret tt).

End Jobs.

(** One invocation of a scheduled job: which one, with the year or time it
    runs at. *)
Inductive invocation :=
| RunMeetings (year : Z)
| RunStandings (year : Z)
| RunLiveData (now : Z)
| RunBaseData.

(** The collection after one invocation, with the service and the upstream as
    they behave during it. *)
Definition invoke (Date_getTime : value -> option Z) (StringToNumber : string -> option Z)
    (run : service * upstream * invocation) (db : gmap string doc) : gmap string doc :=
  let '(firestore, up, which) := run in
  match which with
  | RunMeetings year => fst (refreshMeetings firestore up year db)
  | RunStandings year => fst (refreshStandings firestore up year db)
  | RunLiveData now => fst (refreshLiveData Date_getTime StringToNumber firestore up now db)
  | RunBaseData => fst (refreshBaseData StringToNumber firestore up db)
  end.

(** The collection after a history of invocations, oldest first. *)
Definition invoke_all (Date_getTime : value -> option Z)
    (StringToNumber : string -> option Z)
    (runs : list (service * upstream * invocation)) (db : gmap string doc)
  : gmap string doc :=
  fold_left (fun d run => invoke Date_getTime StringToNumber run d) runs db.

(** [data?.MRData?.StandingsTable?.StandingsLists?.[0]?.<field> || []], the
    result of [fetchDriverStandings] and [fetchConstructorStandings] once
    [jolpica(...)] has returned [data]. *)
Definition opt_prop (v : value) (p : string) : value :=
  if nullish v then Undefined else prop v p.

Definition opt_elem0 (v : value) : value :=
  if nullish v then Undefined else elem0 v.

Definition standings_of (field : string) (data : value) : value :=
  let lists := opt_prop (opt_prop (opt_prop data "MRData") "StandingsTable") "StandingsLists" in
  let found := opt_prop (opt_elem0 lists) field in
  if truthy found then found else Arr [].

(** [fetchDriverStandings] and [fetchConstructorStandings] once the
    [jolpica(...)] request has settled. *)
Definition fetchStandings (field : string) (jolpica : completion value)
  : completion value :=
  match jolpica with
  | Returned data => Returned (standings_of field data)
  | Threw message => Threw message
  end.

(** A Jolpica answer with one standings list. *)
Definition a_standings_response : value :=
  Obj [("MRData",
        Obj [("series", Str "f1");
             ("StandingsTable",
              Obj [("season", Str "2026");
                   ("StandingsLists",
                    Arr [Obj [("round", Str "3");
                              ("DriverStandings",
                               Arr [Obj [("position", Str "1")]])]])])])].

(** An upstream with a session on and a calendar of two meetings, the second
    of which cannot be fetched. *)
Definition race_week : upstream :=
  {| fetchMeetings := fun _ =>
       Returned (Arr [Obj [("meeting_key", Number 1229)];
                      Obj [("meeting_key", Number 1230)]]);
     fetchSessions := fun params =>
       match prop params "meeting_key" with
       | Number 1229 => Returned (Arr [Obj [("session_key", Number 9158)]])
       | Number 1230 => Threw "Upstream API error 500: Internal Server Error"
       | _ => Returned (Arr [Obj [("session_key", Number 9158);
                                  ("date_start", Number 43200000);
                                  ("date_end", Number 46800000)]])
       end;
     fetchDrivers := fun _ => Returned (Arr [Obj [("driver_number", Number 1)]]);
     fetchPositions := fun _ => Returned (Arr [Obj [("position", Number 1)]]);
     fetchIntervals := fun _ => Threw "Upstream API error 500: Internal Server Error";
     fetchLaps := fun _ => Returned (Arr []);
     fetchWeather := fun _ => Returned (Arr []);
     fetchRaceControl := fun _ => Returned (Arr []);
     fetchStints := fun _ => Returned (Arr []);
     fetchDriverStandings := fun _ => Returned (Arr []);
     fetchConstructorStandings := fun _ => Returned (Arr []) |}.

(** An upstream whose two Jolpica requests settle as given. *)
Definition with_jolpica (drivers constructors : completion value) : upstream :=
  {| fetchMeetings := fun _ => Returned (Arr []);
     fetchSessions := fun _ => Returned (Arr []);
     fetchDrivers := fun _ => Returned (Arr []);
     fetchPositions := fun _ => Returned (Arr []);
     fetchIntervals := fun _ => Returned (Arr []);
     fetchLaps := fun _ => Returned (Arr []);
     fetchWeather := fun _ => Returned (Arr []);
     fetchRaceControl := fun _ => Returned (Arr []);
     fetchStints := fun _ => Returned (Arr []);
     fetchDriverStandings := fun _ => fetchStandings "DriverStandings" drivers;
     fetchConstructorStandings := fun _ =>
       fetchStandings "ConstructorStandings" constructors |}.

(** The refresh of a resource failed: its fetch threw, or it produced
    nothing usable (a falsy value). *)
Definition failed (p : completion value) : Prop := truthy (or_null p) = false.

(** [{ session_key: "latest" }] *)
Definition latest_query : value := Obj [("session_key", Str "latest")].

(** *** A run with no session upstream *)

(** A service that commits every write at time 2 and serves every read. *)
Definition steady : service :=
  {| commits := fun _ _ => Returned 2; reads := fun _ => Returned tt |}.

(** An upstream with nothing to report: every list is empty. *)
Definition quiet : upstream :=
  {| fetchMeetings := fun _ => Returned (Arr []);
     fetchSessions := fun _ => Returned (Arr []);
     fetchDrivers := fun _ => Returned (Arr []);
     fetchPositions := fun _ => Returned (Arr []);
     fetchIntervals := fun _ => Returned (Arr []);
     fetchLaps := fun _ => Returned (Arr []);
     fetchWeather := fun _ => Returned (Arr []);
     fetchRaceControl := fun _ => Returned (Arr []);
     fetchStints := fun _ => Returned (Arr []);
     fetchDriverStandings := fun _ => Returned (Arr []);
     fetchConstructorStandings := fun _ => Returned (Arr []) |}.

(** An upstream whose every answer is the JSON value [null]. *)
Definition hollow : upstream :=
  {| fetchMeetings := fun _ => Returned Null;
     fetchSessions := fun _ => Returned Null;
     fetchDrivers := fun _ => Returned Null;
     fetchPositions := fun _ => Returned Null;
     fetchIntervals := fun _ => Returned Null;
     fetchLaps := fun _ => Returned Null;
     fetchWeather := fun _ => Returned Null;
     fetchRaceControl := fun _ => Returned Null;
     fetchStints := fun _ => Returned Null;
     fetchDriverStandings := fun _ => Returned Null;
     fetchConstructorStandings := fun _ => Returned Null |}.

(** An upstream that is down: every call throws. *)
Definition down : upstream :=
  {| fetchMeetings := fun _ => Threw "fetch failed";
     fetchSessions := fun _ => Threw "fetch failed";
     fetchDrivers := fun _ => Threw "fetch failed";
     fetchPositions := fun _ => Threw "fetch failed";
     fetchIntervals := fun _ => Threw "fetch failed";
     fetchLaps := fun _ => Threw "fetch failed";
     fetchWeather := fun _ => Threw "fetch failed";
     fetchRaceControl := fun _ => Threw "fetch failed";
     fetchStints := fun _ => Threw "fetch failed";
     fetchDriverStandings := fun _ => Threw "fetch failed";
     fetchConstructorStandings := fun _ => Threw "fetch failed" |}.

(** An upstream with a session on, whose positions request fails. *)
Definition patchy : upstream :=
  {| fetchMeetings := fun _ => Returned (Arr []);
     fetchSessions := fun _ =>
       Returned (Arr [Obj [("session_key", Number 9158);
                           ("date_start", Number 43200000);
                           ("date_end", Number 46800000)]]);
     fetchDrivers := fun _ => Returned (Arr [Obj [("driver_number", Number 1)]]);
     fetchPositions := fun _ => Threw "Upstream API error 500: Internal Server Error";
     fetchIntervals := fun _ => Returned (Arr [Obj [("interval", Number 0)]]);
     fetchLaps := fun _ => Returned (Arr []);
     fetchWeather := fun _ => Returned (Arr []);
     fetchRaceControl := fun _ => Returned (Arr []);
     fetchStints := fun _ => Returned (Arr []);
     fetchDriverStandings := fun _ => Returned (Arr []);
     fetchConstructorStandings := fun _ => Returned (Arr []) |}.

(** [new Date(v).getTime()] on numbers: the number itself. *)
Definition epoch_ms (v : value) : option Z :=
  match v with Number n => Some n | _ => None end.

Definition no_numeric_strings (s : string) : option Z := None.

(** A session from 12:00:00 to 13:00:00 (in ms since some midnight). *)
Definition a_session : value :=
  Obj [("session_key", Number 9158);
       ("date_start", Number 43200000);
       ("date_end", Number 46800000)].

(** The store refuses every write to the document [k]. *)
Definition rejects (firestore : service) (k : string) : Prop :=
  forall data, exists message, commits firestore k data = Threw message.

(** A service that commits every write at time 2, except that it refuses
    [undefined] as a value. *)
Definition strict : service :=
  {| commits := fun _ data =>
       match data with
       | Undefined => Threw "Cannot use undefined as a Firestore value"
       | _ => Returned 2
       end;
     reads := fun _ => Returned tt |}.

(** A service that is down: it refuses every write. *)
Definition unavailable : service :=
  {| commits := fun _ _ => Threw "UNAVAILABLE"; reads := fun _ => Returned tt |}.

(** An upstream with one meeting on its calendar, whose sessions request is
    answered with the JSON value [null]. *)
Definition blank_sessions : upstream :=
  {| fetchMeetings := fun _ => Returned (Arr [Obj [("meeting_key", Number 1229)]]);
     fetchSessions := fun _ => Returned Null;
     fetchDrivers := fun _ => Returned (Arr []);
     fetchPositions := fun _ => Returned (Arr []);
     fetchIntervals := fun _ => Returned (Arr []);
     fetchLaps := fun _ => Returned (Arr []);
     fetchWeather := fun _ => Returned (Arr []);
     fetchRaceControl := fun _ => Returned (Arr []);
     fetchStints := fun _ => Returned (Arr []);
     fetchDriverStandings := fun _ => Returned (Arr []);
     fetchConstructorStandings := fun _ => Returned (Arr []) |}.

(** A collection in mid-season, every document written at time 1. *)
Definition season : gmap string doc :=
  {[ "meetings_2026" :=
       {| data := Arr [Obj [("meeting_key", Number 1229)]]; updatedAt := 1 |};
     "sessions_1229" :=
       {| data := Arr [Obj [("session_key", Number 9158)]]; updatedAt := 1 |};
     "driver_standings_2026" :=
       {| data := Arr [Obj [("position", Str "1")]]; updatedAt := 1 |};
     "constructor_standings_2026" :=
       {| data := Arr [Obj [("position", Str "1")]]; updatedAt := 1 |};
     "latest_session" := {| data := a_session; updatedAt := 1 |} ]}.

(** A collection that holds a latest session, written at time 1. *)
Definition remembered : gmap string doc :=
  {[ "latest_session" := {| data := a_session; updatedAt := 1 |} ]}.

(** A collection that also holds positions for that session. *)
Definition tracked : gmap string doc :=
  <[ "positions_9158" := {| data := Arr [Obj [("position", Number 1)]]; updatedAt := 1 |} ]>
    remembered.

End Scheduled.

(* ------------------------------------------------------------------------- *)
(** ** functions/src/upstream.js: the OpenF1 and Jolpica calls *)
(* ------------------------------------------------------------------------- *)

Module Upstream.
Import JS.

(** The serialisation of a [URLSearchParams] entry, byte by byte: letters,
    digits and [*-._] stay, a space becomes [+], any other byte [%XX]. *)
Definition hex_digit (n : N) : ascii :=
  Ascii.ascii_of_N (if (n <? 10)%N then 48 + n else 55 + n).

Definition unreserved (c : ascii) : bool :=
  let n := Ascii.N_of_ascii c in
  (((48 <=? n) && (n <=? 57)) || ((65 <=? n) && (n <=? 90))
   || ((97 <=? n) && (n <=? 122))
   || (n =? 42) || (n =? 45) || (n =? 46) || (n =? 95))%N.

Definition form_byte (c : ascii) : string :=
  let n := Ascii.N_of_ascii c in
  if unreserved c then String c EmptyString
  else if (n =? 32)%N then "+"
  else String "%" (String (hex_digit (n / 16))
                     (String (hex_digit (n mod 16)) EmptyString)).

Fixpoint form_urlencode (s : string) : string :=
  match s with
  | EmptyString => EmptyString
  | String c rest => form_byte c +:+ form_urlencode rest
  end.

(** [Object.entries(params)], for the object literals the callers pass. *)
Definition entries (params : value) : list (string * value) :=
  match params with
  | Obj fields => fields
  | _ => []
  end.

(** [url.toString()] once the entries that are neither [undefined] nor
    [null] have been appended to the search parameters of [new URL(base)]. *)
Definition href (base : string) (params : list (string * value)) : string :=
  let kept := List.filter (fun kv => negb (nullish (snd kv))) params in
  match kept with
  | [] => base
  | _ =>
      base +:+ "?" +:+
      join "&" (map (fun kv => form_urlencode (fst kv) +:+ "=" +:+
                               form_urlencode (ToString (snd kv))) kept)
  end.

(** What [await fetchWithRetry(...)] hands its caller; the loop always ends,
    so the second case does not arise. *)
Definition settle (run : option (list Retry.effect * completion value))
  : completion value :=
  match run with
  | Some (_, c) => c
  | None => Returned Undefined
  end.

Section Network.
(** [net url n] is what the fetch of attempt [n] of a call for [url]
    settles to. *)
Variable net : string -> nat -> Retry.fetched.

Definition call (url : string) : completion value :=
  settle (Retry.fetchWithRetry url (net url)).

(** [openf1(endpoint, params)] *)
Definition openf1 (endpoint : string) (params : list (string * value))
  : completion value :=
  call (href (Config.OPENF1_BASE +:+ endpoint) params).

Definition fetchMeetings (year : Z) : completion value :=
  openf1 "/meetings" [("year", Number year)].

Definition fetchSessions (params : value) : completion value :=
  openf1 "/sessions" (entries params).

Definition fetchDrivers (sessionKey : value) : completion value :=
  openf1 "/drivers" [("session_key", sessionKey)].

Definition fetchPositions (sessionKey : value) : completion value :=
  openf1 "/position" [("session_key", sessionKey)].

Definition fetchIntervals (sessionKey : value) : completion value :=
  openf1 "/intervals" [("session_key", sessionKey)].

Definition fetchSessionResult (sessionKey : value) : completion value :=
  openf1 "/session_result" [("session_key", sessionKey)].

(** [fetchLaps(sessionKey, driverNumber = null)] *)
Definition fetchLaps (sessionKey driverNumber : value) : completion value :=
  openf1 "/laps"
    (("session_key", sessionKey) ::
     if truthy driverNumber then [("driver_number", driverNumber)] else []).

Definition fetchWeather (sessionKey : value) : completion value :=
  openf1 "/weather" [("session_key", sessionKey)].

Definition fetchRaceControl (sessionKey : value) : completion value :=
  openf1 "/race_control" [("session_key", sessionKey)].

Definition fetchStints (sessionKey : value) : completion value :=
  openf1 "/stints" [("session_key", sessionKey)].

(** [jolpica(endpoint)] *)
Definition jolpica (endpoint : string) : completion value :=
  call (Config.JOLPICA_BASE +:+ endpoint).

Definition fetchDriverStandings (year : Z) : completion value :=
  Scheduled.fetchStandings "DriverStandings"
    (jolpica ("/" +:+ pretty year +:+ "/driverstandings.json")).

Definition fetchConstructorStandings (year : Z) : completion value :=
  Scheduled.fetchStandings "ConstructorStandings"
    (jolpica ("/" +:+ pretty year +:+ "/constructorstandings.json")).

(** [module.exports], as the scheduled jobs call it: [fetchLaps] with the
    session key only. *)
Definition exports : Scheduled.upstream :=
  {| Scheduled.fetchMeetings := fetchMeetings;
     Scheduled.fetchSessions := fetchSessions;
     Scheduled.fetchDrivers := fetchDrivers;
     Scheduled.fetchPositions := fetchPositions;
     Scheduled.fetchIntervals := fetchIntervals;
     Scheduled.fetchLaps := fun sessionKey => fetchLaps sessionKey Null;
     Scheduled.fetchWeather := fetchWeather;
     Scheduled.fetchRaceControl := fetchRaceControl;
     Scheduled.fetchStints := fetchStints;
     Scheduled.fetchDriverStandings := fetchDriverStandings;
     Scheduled.fetchConstructorStandings := fetchConstructorStandings |}.

End Network.

(** The upstream module while both providers answer every request with 429. *)
Definition throttled : Scheduled.upstream := exports (fun _ => Retry.always_429).

End Upstream.

(* ------------------------------------------------------------------------- *)
(** ** functions/src/middleware.js and the Express request/response pair *)
(* ------------------------------------------------------------------------- *)

Module Middleware.
Import JS.

(** What the handlers read of [req]: the method, the [x-forwarded-for]
    header and [req.ip] (either may be missing), and [req.query], where a
    missing parameter reads as [undefined]. *)
Record request := {
  method : string;
  x_forwarded_for : option string;
  ip : option string;
  query : string -> value
}.

Inductive payload :=
| Json (v : value)
| Text (s : string).

(** What the handlers build in [res]: the status (200 unless set), the
    headers set so far, and the body once it has been sent. *)
Record response := {
  status : Z;
  headers : list (string * string);
  body : option payload
}.

Definition fresh_response : response :=
  {| status := 200; headers := []; body := None |}.

(** Header names are compared without regard to case, as Node compares
    them: the letters A to Z are lowered. *)
Definition lower_ascii (c : ascii) : ascii :=
  let n := Ascii.N_of_ascii c in
  if ((65 <=? n) && (n <=? 90))%N then Ascii.ascii_of_N (n + 32) else c.

Fixpoint lower (s : string) : string :=
  match s with
  | EmptyString => EmptyString
  | String c rest => String (lower_ascii c) (lower rest)
  end.

Definition same_header (a b : string) : bool := String.eqb (lower a) (lower b).

(** [res.set(name, v)]: the header takes the value, in place of any value
    it had. *)
Definition set_header (name v : string) (res : response) : response :=
  {| status := status res;
     headers := List.filter (fun h => negb (same_header (fst h) name)) (headers res)
                ++ [(name, v)];
     body := body res |}.

(** [res.get(name)] *)
Definition get_header (name : string) (res : response) : option string :=
  match List.filter (fun h => same_header (fst h) name) (headers res) with
  | h :: _ => Some (snd h)
  | [] => None
  end.

(** [res.status(code).json(v)] and [res.status(code).send(text)] *)
Definition send (code : Z) (p : payload) (res : response) : response :=
  {| status := code; headers := headers res; body := Some p |}.

(** [s.split(",")[0]] *)
Fixpoint before_comma (s : string) : string :=
  match s with
  | EmptyString => EmptyString
  | String c rest => if Ascii.eqb c ","%char then EmptyString else String c (before_comma rest)
  end.

(** White space and line terminators among the one-byte characters. *)
Definition is_space (c : ascii) : bool :=
  match Ascii.N_of_ascii c with
  | 9 | 10 | 11 | 12 | 13 | 32 | 160 => true
  | _ => false
  end%N.

Fixpoint trim_start (s : string) : string :=
  match s with
  | EmptyString => EmptyString
  | String c rest => if is_space c then trim_start rest else s
  end.

Definition reverse_string (s : string) : string :=
  String.string_of_list_ascii (rev (String.list_ascii_of_string s)).

(** [s.trim()] *)
Definition trim (s : string) : string :=
  reverse_string (trim_start (reverse_string (trim_start s))).

(** [a || b] on strings that may be missing: the empty string is falsy. *)
Definition or_else (a : option string) (b : option string) : option string :=
  match a with
  | Some s => if String.eqb s "" then b else Some s
  | None => b
  end.

(** [req.headers["x-forwarded-for"]?.split(",")[0]?.trim() || req.ip || "unknown"] *)
Definition client_ip (req : request) : string :=
  let forwarded := option_map (fun h => trim (before_comma h)) (x_forwarded_for req) in
  match or_else (or_else forwarded (ip req)) (Some "unknown") with
  | Some s => s
  | None => "unknown"
  end.

(** An entry of the [ipHits] map. *)
Record hit := { count : Z; windowStart : Z }.

(** [checkRateLimit(req, res)] at time [now].  The entry that is counted up
    is the object held by the map. *)
Definition checkRateLimit (now : Z) (req : request) (res : response)
    (ipHits : gmap string hit) : bool * response * gmap string hit :=
  let ip := client_ip req in
  let entry :=
    match ipHits !! ip with
    | Some e =>
        if Config.IP_RATE_LIMIT.windowMs <? now - windowStart e
        then {| count := 0; windowStart := now |}
        else e
    | None => {| count := 0; windowStart := now |}
    end in
  let entry' := {| count := count entry + 1; windowStart := windowStart entry |} in
  let ipHits' := <[ip := entry']> ipHits in
  if Config.IP_RATE_LIMIT.maxRequests <? count entry' then
    (false,
     send 429
       (Json (Obj [("error", Str "Too many requests");
                   ("retryAfterMs",
                    Number (Config.IP_RATE_LIMIT.windowMs - (now - windowStart entry')))]))
       res,
     ipHits')
  else (true, res, ipHits').

(** The callback of [setInterval], run at time [now]: the entries whose
    window began more than two windows ago are deleted. *)
Definition cleanup (now : Z) (ipHits : gmap string hit) : gmap string hit :=
  filter (fun kv => ~ Config.IP_RATE_LIMIT.windowMs * 2 < now - windowStart (snd kv))
         ipHits.

(** [checkRateLimit] on requests that arrive one after the other, each at
    its own time and with a response of its own: what each is told, and the
    map they leave. *)
Fixpoint checkRateLimit_each (arrivals : list (Z * request))
    (ipHits : gmap string hit) : list (bool * response) * gmap string hit :=
  match arrivals with
  | [] => ([], ipHits)
  | (now, req) :: rest =>
      let '(allowed, res, ipHits1) := checkRateLimit now req fresh_response ipHits in
      let '(told, ipHits2) := checkRateLimit_each rest ipHits1 in
      ((allowed, res) :: told, ipHits2)
  end.

(** The maps agree but for entries that only [hits2] holds and that were
    due for deletion at [now]. *)
Definition swept (now : Z) (hits1 hits2 : gmap string hit) : Prop :=
  forall ip,
    hits1 !! ip = hits2 !! ip \/
    (hits1 !! ip = None /\
     exists e, hits2 !! ip = Some e /\
               Config.IP_RATE_LIMIT.windowMs * 2 < now - windowStart e).

(** [setCors(req, res)] *)
Definition setCors (req : request) (res : response) : bool * response :=
  let res1 := set_header "Access-Control-Allow-Origin" "*" res in
  let res2 := set_header "Access-Control-Allow-Methods" "GET, OPTIONS" res1 in
  let res3 := set_header "Access-Control-Allow-Headers" "Content-Type" res2 in
  let res4 := set_header "Access-Control-Max-Age" "3600" res3 in
  if String.eqb (method req) "OPTIONS" then (false, send 204 (Text "") res4)
  else (true, res4).

(** [applyMiddleware(req, res)] *)
Definition applyMiddleware (now : Z) (req : request) (res : response)
    (ipHits : gmap string hit) : bool * response * gmap string hit :=
  match setCors req res with
  | (false, res') => (false, res', ipHits)
  | (true, res') => checkRateLimit now req res' ipHits
  end.

End Middleware.

(* ------------------------------------------------------------------------- *)
(** ** functions/src/index.js: the read layer *)
(* ------------------------------------------------------------------------- *)

Module Index.
Import JS Firestore Middleware.

(** [readCache(docId)] *)
Definition readCache (firestore : service) (db : gmap string doc) (docId : string)
  : completion value :=
  match reads firestore docId with
  | Threw message => Threw message
  | Returned _ =>
      match db !! docId with
      | None => Returned Null
      | Some d => Returned (data d)
      end
  end.

(** What one invocation of a handler leaves behind: the response, the
    [ipHits] map, and the documents it tried to read. *)
Record handled := {
  res : response;
  ipHits : gmap string hit;
  store_reads : list string
}.

(** The handler that [createEndpoint(docIdFn)] passes to [onRequest], run at
    time [now] on the response [res0] it is given.  [docIdFn] returns the
    document id, or [None] for [null]. *)
Definition handler (docIdFn : request -> option string)
    (firestore : service) (now : Z) (req : request) (res0 : response)
    (hits : gmap string hit) (db : gmap string doc) : handled :=
  match applyMiddleware now req res0 hits with
  | (false, res1, hits') => {| res := res1; ipHits := hits'; store_reads := [] |}
  | (true, res1, hits') =>
      match or_else (docIdFn req) None with
      | None =>
          {| res := send 400 (Json (Obj [("error", Str "Missing required query parameters")])) res1;
             ipHits := hits'; store_reads := [] |}
      | Some docId =>
          match readCache firestore db docId with
          | Returned cached =>
              {| res := match cached with
                        | Null => send (status res1) (Json (Arr [])) res1
                        | _ => send (status res1) (Json cached) res1
                        end;
                 ipHits := hits'; store_reads := [docId] |}
          | Threw _ =>
              {| res := send 500 (Json (Obj [("error", Str "Internal server error")])) res1;
                 ipHits := hits'; store_reads := [docId] |}
          end
      end
  end.

(** [onRequest({ cors: true, ... }, handler)] on one request.  With
    [cors: true] the platform puts its CORS layer in front of the handler;
    that layer is not code of this repository, and [cors] stands for the
    headers it sets on the response to the request at hand.  It answers a
    preflight itself, with 204 and an empty body, and the handler is not
    run; every other request goes on to the handler with those headers
    set. *)
Definition onRequest (cors : list (string * string))
    (run : request -> response -> gmap string hit -> handled)
    (req : request) (hits : gmap string hit) : handled :=
  if String.eqb (method req) "OPTIONS" then
    {| res := {| status := 204; headers := cors; body := Some (Text "") |};
       ipHits := hits; store_reads := [] |}
  else run req {| status := 200; headers := cors; body := None |} hits.

(** The function [createEndpoint(docIdFn)] exports, on one request at time
    [now].  No endpoint passes [options], so [cors] stays [true]. *)
Definition createEndpoint (cors : list (string * string))
    (docIdFn : request -> option string)
    (firestore : service) (now : Z) (req : request)
    (hits : gmap string hit) (db : gmap string doc) : handled :=
  onRequest cors
    (fun req res0 hits => handler docIdFn firestore now req res0 hits db) req hits.

Section Endpoints.
(** [new Date().getFullYear()] *)
Variable currentYear : Z.

(** [req.query.year || new Date().getFullYear()] *)
Definition year_of (req : request) : value :=
  if truthy (query req "year") then query req "year" else Number currentYear.

(** [sessionKey ? `prefix${sessionKey}` : null] *)
Definition keyed (prefix : string) (param : string) (req : request) : option string :=
  if truthy (query req param) then Some (prefix +:+ ToString (query req param)) else None.

Definition getMeetings (req : request) : option string :=
  Some ("meetings_" +:+ ToString (year_of req)).

Definition getSessions : request -> option string := keyed "sessions_" "meeting_key".

Definition getSessionsByYear (req : request) : option string :=
  Some ("sessions_year_" +:+ ToString (year_of req)).

Definition getDrivers : request -> option string := keyed "drivers_" "session_key".

Definition getLatestDrivers (_req : request) : option string := Some "drivers_latest".

Definition getPositions : request -> option string := keyed "positions_" "session_key".

Definition getIntervals : request -> option string := keyed "intervals_" "session_key".

Definition getSessionResult : request -> option string := keyed "result_" "session_key".

Definition getLaps (req : request) : option string :=
  let sessionKey := query req "session_key" in
  let driverNumber :=
    if truthy (query req "driver_number") then query req "driver_number" else Str "all" in
  if truthy sessionKey
  then Some ("laps_" +:+ ToString sessionKey +:+ "_" +:+ ToString driverNumber)
  else None.

Definition getWeather : request -> option string := keyed "weather_" "session_key".

Definition getRaceControl : request -> option string := keyed "race_control_" "session_key".

Definition getStints : request -> option string := keyed "stints_" "session_key".

Definition getLatestSession (_req : request) : option string := Some "latest_session".

Definition getDriverStandings (req : request) : option string :=
  Some ("driver_standings_" +:+ ToString (year_of req)).

Definition getConstructorStandings (req : request) : option string :=
  Some ("constructor_standings_" +:+ ToString (year_of req)).

(** The endpoints that need an identifying parameter, each with the name of
    that parameter. *)
Definition keyed_endpoints : list ((request -> option string) * string) :=
  [ (getSessions, "meeting_key"); (getDrivers, "session_key");
    (getPositions, "session_key"); (getIntervals, "session_key");
    (getSessionResult, "session_key"); (getLaps, "session_key");
    (getWeather, "session_key"); (getRaceControl, "session_key");
    (getStints, "session_key") ].

(** All the HTTP endpoints of the read layer. *)
Definition endpoints : list (request -> option string) :=
  [ getMeetings; getSessions; getSessionsByYear; getDrivers; getLatestDrivers;
    getPositions; getIntervals; getSessionResult; getLaps; getWeather;
    getRaceControl; getStints; getLatestSession; getDriverStandings;
    getConstructorStandings ].

End Endpoints.

(** Headers set by the CORS layer, for the examples. *)
Definition vary_origin : list (string * string) := [("Vary", "Origin")].

(** The headers [setCors] puts on a response. *)
Definition cors_headers : list (string * string) :=
  [("Access-Control-Allow-Origin", "*");
   ("Access-Control-Allow-Methods", "GET, OPTIONS");
   ("Access-Control-Allow-Headers", "Content-Type");
   ("Access-Control-Max-Age", "3600")].

(** The request lets the handler through the middleware. *)
Definition admitted (now : Z) (req : request) (hits : gmap string hit) : Prop :=
  fst (fst (applyMiddleware now req fresh_response hits)) = true.

(** *** Some requests *)

Definition no_query (param : string) : value := Undefined.

(** [GET] with no query string, from 203.0.113.7. *)
Definition bare_get : request :=
  {| method := "GET"; x_forwarded_for := Some "203.0.113.7, 10.0.0.1";
     ip := None; query := no_query |}.

(** The preflight of the same request. *)
Definition preflight : request :=
  {| method := "OPTIONS"; x_forwarded_for := Some "203.0.113.7, 10.0.0.1";
     ip := None; query := no_query |}.

(** [GET ?year=2026] from the same address. *)
Definition get_2026 : request :=
  {| method := "GET"; x_forwarded_for := Some "203.0.113.7, 10.0.0.1"; ip := None;
     query := fun param => if String.eqb param "year" then Str "2026" else Undefined |}.

(** [GET ?session_key=9158] from the same address. *)
Definition get_session_9158 : request :=
  {| method := "GET"; x_forwarded_for := Some "203.0.113.7, 10.0.0.1"; ip := None;
     query := fun param => if String.eqb param "session_key" then Str "9158" else Undefined |}.

(** The address has used up its 60 requests of the window that began at 0. *)
Definition exhausted : gmap string hit :=
  {[ "203.0.113.7" := {| count := 60; windowStart := 0 |} ]}.

End Index.

(* ------------------------------------------------------------------------- *)
(** ** js/api.js: the client cache *)
(* ------------------------------------------------------------------------- *)

Module Api.
Import JS.

Module CACHE_DURATION.
Definition meetings : Z := 24 * 60 * 60 * 1000.
Definition sessions : Z := 24 * 60 * 60 * 1000.
Definition drivers : Z := 3 * 60 * 60 * 1000.
Definition standings : Z := 2 * 60 * 60 * 1000.
Definition positions : Z := 60 * 1000.
Definition intervals : Z := 60 * 1000.
(** [Math.max(...Object.values(CACHE_DURATION))] *)
Definition longest : Z :=
  Z.max meetings (Z.max sessions (Z.max drivers (Z.max standings (Z.max positions intervals)))).
End CACHE_DURATION.

Definition CACHE_PREFIX : string := "f1x_cache_".

(** A cache entry [{ data, timestamp }], as [cacheSet] receives it. *)
Record entry := { data : value; timestamp : Z }.

(** A string held by [localStorage], by what reading it gives: the empty
    string, a string [JSON.parse] rejects, or the JSON text of an entry. *)
Inductive item :=
| Blank
| Garbled
| Stored (e : entry).

(** The module-level state of api.js together with what the page has done to
    the outside: the [fetch] calls issued and the events dispatched on
    [document], oldest first.  [pendingRefreshes] maps a cache key to its
    in-flight promise, named by the position of its [fetch] in [network]. *)
Record client := {
  cache : gmap string entry;
  localStorage : gmap string item;
  pendingRefreshes : gmap string nat;
  activeRefreshCount : Z;
  network : list string;
  dispatched : list string
}.

Definition with_cache (c : gmap string entry) (st : client) : client :=
  {| cache := c; localStorage := localStorage st;
     pendingRefreshes := pendingRefreshes st;
     activeRefreshCount := activeRefreshCount st;
     network := network st; dispatched := dispatched st |}.

Definition with_localStorage (ls : gmap string item) (st : client) : client :=
  {| cache := cache st; localStorage := ls;
     pendingRefreshes := pendingRefreshes st;
     activeRefreshCount := activeRefreshCount st;
     network := network st; dispatched := dispatched st |}.

(** [cacheGet(key)] *)
Definition cacheGet (key : string) (st : client) : option entry * client :=
  match cache st !! key with
  | Some e => (Some e, st)
  | None =>
      match localStorage st !! (CACHE_PREFIX +:+ key) with
      | Some (Stored e) => (Some e, with_cache (<[key := e]> (cache st)) st)
      | Some Garbled =>
          (None, with_localStorage (delete (CACHE_PREFIX +:+ key) (localStorage st)) st)
      | Some Blank | None => (None, st)
      end
  end.

(** [bgRefreshStart()] *)
Definition bgRefreshStart (st : client) : client :=
  let n := activeRefreshCount st + 1 in
  {| cache := cache st; localStorage := localStorage st;
     pendingRefreshes := pendingRefreshes st;
     activeRefreshCount := n;
     network := network st;
     dispatched := if n =? 1 then dispatched st ++ ["f1x:bg-refresh-start"]
                   else dispatched st |}.

(** [bgRefreshEnd()] *)
Definition bgRefreshEnd (st : client) : client :=
  let n := Z.max 0 (activeRefreshCount st - 1) in
  {| cache := cache st; localStorage := localStorage st;
     pendingRefreshes := pendingRefreshes st;
     activeRefreshCount := n;
     network := network st;
     dispatched := if n =? 0 then dispatched st ++ ["f1x:bg-refresh-end"]
                   else dispatched st |}.

(** [fetch(url)] is called: the request leaves. *)
Definition issue (url : string) (st : client) : client :=
  {| cache := cache st; localStorage := localStorage st;
     pendingRefreshes := pendingRefreshes st;
     activeRefreshCount := activeRefreshCount st;
     network := network st ++ [url]; dispatched := dispatched st |}.

(** [backgroundRefresh(url, fullCacheKey)], up to the point where the promise
    chain is stored. *)
Definition backgroundRefresh (url fullCacheKey : string) (st : client) : client :=
  match pendingRefreshes st !! fullCacheKey with
  | Some _ => st
  | None =>
      let st1 := issue url (bgRefreshStart st) in
      {| cache := cache st1; localStorage := localStorage st1;
         pendingRefreshes :=
           <[fullCacheKey := length (network st)]> (pendingRefreshes st1);
         activeRefreshCount := activeRefreshCount st1;
         network := network st1; dispatched := dispatched st1 |}
  end.

(** What a call of the async [fetchBackend] has come to when it first yields:
    it has returned a value, or it is waiting for its own [fetch]. *)
Inductive answer :=
| Resolved (v : value)
| Awaiting.

(** [cacheKey || url.toString()] *)
Definition fullCacheKey (url : string) (cacheKey : option string) : string :=
  match Middleware.or_else cacheKey (Some url) with
  | Some k => k
  | None => url
  end.

(** [fetchBackend(endpoint, params, cacheKey, cacheDuration)] at time [now],
    up to its first [await]; [url] is the text of the URL built from
    [endpoint] and [params]. *)
Definition fetchBackend (url : string) (cacheKey : option string) (cacheDuration : Z)
    (now : Z) (st : client) : answer * client :=
  let key := fullCacheKey url cacheKey in
  match cacheGet key st with
  | (Some cached, st1) =>
      if now - timestamp cached <? cacheDuration then (Resolved (data cached), st1)
      else (Resolved (data cached), backgroundRefresh url key st1)
  | (None, st1) => (Awaiting, issue url (bgRefreshStart st1))
  end.

Section Storage.
(** Whether [localStorage.setItem(k, ...)] fits in the quota, given what the
    storage holds. *)
Variable fits : gmap string item -> string -> bool.

(** [clearExpiredCache()] at time [now]: of the keys with the prefix, those
    that do not parse or are older than the longest TTL go. *)
Definition expired (now : Z) (k : string) (it : item) : bool :=
  String.prefix CACHE_PREFIX k &&
  match it with
  | Stored e => CACHE_DURATION.longest <? now - timestamp e
  | Blank | Garbled => true
  end.

Definition clearExpiredCache (now : Z) (st : client) : client :=
  with_localStorage
    (filter (fun kv => expired now (fst kv) (snd kv) = false) (localStorage st)) st.

Definition setItem (k : string) (e : entry) (st : client) : option client :=
  if fits (localStorage st) k
  then Some (with_localStorage (<[k := Stored e]> (localStorage st)) st)
  else None.

(** [cacheSet(key, entry)]; [now] is the clock reading of the clean-up pass,
    should there be one. *)
Definition cacheSet (now : Z) (key : string) (e : entry) (st : client) : client :=
  let st1 := with_cache (<[key := e]> (cache st)) st in
  match setItem (CACHE_PREFIX +:+ key) e st1 with
  | Some st2 => st2
  | None =>
      let st2 := clearExpiredCache now st1 in
      match setItem (CACHE_PREFIX +:+ key) e st2 with
      | Some st3 => st3
      | None => st2
      end
  end.

(** The promise chain of [backgroundRefresh] once its [fetch] has settled
    with [outcome]: [then], [catch], [finally].  [now] is the reading of
    [Date.now()] that stamps the entry, [later] the one of the clean-up pass. *)
Definition refresh_settled (fullCacheKey : string) (outcome : Retry.fetched)
    (now later : Z) (st : client) : client :=
  let st1 :=
    match outcome with
    | Retry.Response status _ (Returned v) =>
        if Retry.ok status then
          let st' := cacheSet later fullCacheKey {| data := v; timestamp := now |} st in
          {| cache := cache st'; localStorage := localStorage st';
             pendingRefreshes := pendingRefreshes st';
             activeRefreshCount := activeRefreshCount st';
             network := network st';
             dispatched := dispatched st' ++ ["f1x:cache-updated"] |}
        else st
    | _ => st
    end in
  bgRefreshEnd
    {| cache := cache st1; localStorage := localStorage st1;
       pendingRefreshes := delete fullCacheKey (pendingRefreshes st1);
       activeRefreshCount := activeRefreshCount st1;
       network := network st1; dispatched := dispatched st1 |}.

(** The rest of a [fetchBackend] call that was [Awaiting], once its [fetch]
    has settled: there was no cached entry to fall back on. *)
Definition first_load_settled (fullCacheKey : string) (outcome : Retry.fetched)
    (now later : Z) (st : client) : completion value * client :=
  match outcome with
  | Retry.Response status _ json =>
      if Retry.ok status then
        match json with
        | Returned v =>
            (Returned v,
             bgRefreshEnd (cacheSet later fullCacheKey {| data := v; timestamp := now |} st))
        | Threw message => (Threw message, bgRefreshEnd st)
        end
      else (Threw ("Backend error: " +:+ pretty status), bgRefreshEnd st)
  | Retry.Rejected message => (Threw message, bgRefreshEnd st)
  end.

End Storage.

(** [isSessionLive(session)] at time [now]; [Date_getTime] is
    [new Date(v).getTime()], and a comparison with an invalid date is false. *)
Definition isSessionLive (Date_getTime : value -> option Z) (now : Z) (session : value)
  : bool :=
  if negb (truthy session) then false
  else
    match Date_getTime (prop session "date_start"),
          Date_getTime (prop session "date_end") with
    | Some start, Some end_ => (start <=? now) && (now <=? end_)
    | _, _ => false
    end.

(** The settled [fetch] brought data: the response is [ok] and its body
    parses. *)
Definition usable (outcome : Retry.fetched) : bool :=
  match outcome with
  | Retry.Response status _ (Returned _) => Retry.ok status
  | _ => false
  end.

(** Going by the events dispatched so far, a background refresh is under
    way: the last of the two [f1x:bg-refresh-...] events was the start. *)
Definition refreshing (events : list string) : bool :=
  fold_left (fun on ev =>
               if String.eqb ev "f1x:bg-refresh-start" then true
               else if String.eqb ev "f1x:bg-refresh-end" then false
               else on)
            events false.

(** The events tell the truth about [activeRefreshCount]. *)
Definition in_step (st : client) : Prop :=
  0 <= activeRefreshCount st /\
  refreshing (dispatched st) = (0 <? activeRefreshCount st).

(** One call as the event loop sees it: the URL, the cache key, the TTL, and
    the time at which it runs. *)
Record call := {
  url : string;
  cacheKey : option string;
  cacheDuration : Z;
  at_time : Z
}.

(** Calls made one after the other with nothing settling in between: what
    each has come to, and the state they leave. *)
Fixpoint gets (calls : list call) (st : client) : list answer * client :=
  match calls with
  | [] => ([], st)
  | c :: rest =>
      let '(a, st1) := fetchBackend (url c) (cacheKey c) (cacheDuration c) (at_time c) st in
      let '(answers, st2) := gets rest st1 in
      (a :: answers, st2)
  end.

(** *** A page with a stale list of meetings *)

Definition meetings_2026 : entry :=
  {| data := Arr [Obj [("meeting_key", Number 1229)]]; timestamp := 1000 |}.

(** The entry sits in [localStorage] only (a cold start). *)
Definition cold : client :=
  {| cache := ∅;
     localStorage := {[ "f1x_cache_meetings_2026" := Stored meetings_2026 ]};
     pendingRefreshes := ∅; activeRefreshCount := 0;
     network := []; dispatched := [] |}.

(** A page that has loaded nothing yet. *)
Definition blank : client :=
  {| cache := ∅; localStorage := ∅; pendingRefreshes := ∅; activeRefreshCount := 0;
     network := []; dispatched := [] |}.

Definition get_meetings (now : Z) : call :=
  {| url := "https://us-central1-f1x-backend.cloudfunctions.net/getMeetings?year=2026";
     cacheKey := Some "meetings_2026";
     cacheDuration := CACHE_DURATION.meetings;
     at_time := now |}.

End Api.

(* ========================================================================= *)
(** * Theorems *)
(* ========================================================================= *)

Section RetryFacts.
Import JS Retry.

(** With enough fuel the loop always ends: the fuel is a device of the
    embedding, not a way for the call to hang. *)
Lemma attempts_total url net fuel attempt :
  (0 < fuel)%nat ->
  (MAX_RETRIES + 2 <= fuel + attempt)%nat ->
  exists es c, attempts fuel url net attempt = Some (es, c).
Proof.
  revert attempt. induction fuel as [|fuel IH]; intros attempt Hpos Hfuel; [lia|].
  simpl. destruct (Nat.leb_spec attempt MAX_RETRIES) as [Hle|Hgt]; [|eauto].
  destruct (IH (S attempt)) as (es & c & Hrec); [lia|lia|].
  rewrite Hrec. simpl.
  destruct (net attempt) as [m|st txt [v|m]];
    repeat match goal with |- context [if ?b then _ else _] => destruct b end;
    eauto.
Qed.

(** Every iteration of the loop starts by acquiring a token and fetching. *)
Lemma attempts_head url net fuel attempt es c :
  (attempt <= MAX_RETRIES)%nat ->
  attempts (S fuel) url net attempt = Some (es, c) ->
  exists rest, es = Acquire :: Fetch url :: rest.
Proof.
  intros Hle Hrun. simpl in Hrun.
  apply Nat.leb_le in Hle. rewrite Hle in Hrun.
  destruct (attempts fuel url net (S attempt)) as [[es' c']|];
    destruct (net attempt) as [m|st txt [v|m]];
    repeat match type of Hrun with context [if ?b then _ else _] => destruct b end;
    simpl in Hrun; inversion Hrun; eauto.
Qed.

(** C1.  When every attempt is answered 429 the call makes the first attempt
    and exactly [MAX_RETRIES] = 3 more, sleeping 1000, 3000 and 8000 ms between
    them (each wait at least the previous one) -- and then, instead of raising
    an error, it sleeps 8000 ms once more, leaves the loop and returns
    [undefined] to its caller. *)
Theorem fetchWithRetry_429_exhausted url net :
  (forall n, exists statusText json, net n = Response 429 statusText json) ->
  exists es,
    fetchWithRetry url net = Some (es, Returned Undefined) /\
    fetches es = [url; url; url; url] /\
    length (fetches es) = S MAX_RETRIES /\
    sleeps es = [1000; 3000; 8000; 8000].
Proof.
  intros H429. unfold fetchWithRetry. simpl.
  destruct (H429 0%nat) as (t0 & j0 & ->).
  destruct (H429 1%nat) as (t1 & j1 & ->).
  destruct (H429 2%nat) as (t2 & j2 & ->).
  destruct (H429 3%nat) as (t3 & j3 & ->).
  simpl. eexists. repeat split.
Qed.

Lemma fetchWithRetry_429_exhausted_witness :
  exists es,
    fetchWithRetry "https://api.openf1.org/v1/sessions" always_429
      = Some (es, Returned Undefined) /\
    fetches es = ["https://api.openf1.org/v1/sessions";
                  "https://api.openf1.org/v1/sessions";
                  "https://api.openf1.org/v1/sessions";
                  "https://api.openf1.org/v1/sessions"] /\
    length (fetches es) = S MAX_RETRIES /\
    sleeps es = [1000; 3000; 8000; 8000].
Proof.
  apply (fetchWithRetry_429_exhausted "https://api.openf1.org/v1/sessions" always_429).
  intros n. exists "Too Many Requests", (Returned Null). reflexivity.
Defined.

(** C2, as stated, fails: a 500 on the first attempt is not the end of the
    call.  The error is caught by the loop's own [catch], the call sleeps
    1000 ms, tries again, and here returns the body of the second response. *)
Lemma fetchWithRetry_500_retried :
  once_500 0%nat = Response 500 "Internal Server Error" (Returned Null) /\
  ok 500 = false /\
  fetchWithRetry "u" once_500 =
    Some ([Acquire; Fetch "u"; Sleep 1000; Acquire; Fetch "u"], Returned (Arr [])) /\
  ~ fails_immediately "u" once_500.
Proof.
  repeat split. intros [message Hfail]. vm_compute in Hfail. discriminate.
Qed.

(** C2 (amended).  When the first response has a non-2xx status other than
    429, the call does not fail at once: it sleeps [RETRY_BACKOFF_MS[0]] =
    1000 ms and makes a second attempt.  A status error reaches the caller
    only from the last attempt: when all four attempts are answered with such
    a status, the call makes four attempts with waits 1000, 3000 and 8000 ms
    and then throws the error of the fourth response. *)
Theorem fetchWithRetry_status_error_retried url net status statusText json :
  net 0%nat = Response status statusText json ->
  ok status = false ->
  status <> 429 ->
  (exists rest c,
     fetchWithRetry url net =
       Some (Acquire :: Fetch url :: Sleep 1000 :: Acquire :: Fetch url :: rest, c)) /\
  ~ fails_immediately url net /\
  ((forall n, (n <= MAX_RETRIES)%nat ->
      exists st txt js, net n = Response st txt js /\ ok st = false /\ st <> 429) ->
   exists st txt js,
     net MAX_RETRIES = Response st txt js /\
     fetchWithRetry url net =
       Some ([Acquire; Fetch url; Sleep 1000; Acquire; Fetch url; Sleep 3000;
              Acquire; Fetch url; Sleep 8000; Acquire; Fetch url],
             Threw (status_error st txt))).
Proof.
  intros H0 Hok H429.
  assert (Hne : (status =? 429) = false) by now apply Z.eqb_neq.
  assert (Hfirst : exists rest c,
    fetchWithRetry url net =
      Some (Acquire :: Fetch url :: Sleep 1000 :: Acquire :: Fetch url :: rest, c)).
  { destruct (attempts_total url net 4 1) as (es & c & Hrec);
      [lia|unfold MAX_RETRIES; lia|].
    destruct (attempts_head url net 3 1 es c) as (rest & ->);
      [unfold MAX_RETRIES; lia|exact Hrec|].
    exists rest, c.
    assert (Hstep : fetchWithRetry url net =
                    after [Acquire; Fetch url; Sleep 1000] (attempts 4 url net 1)).
    { unfold fetchWithRetry. simpl. rewrite H0, Hok, Hne. reflexivity. }
    rewrite Hstep, Hrec. reflexivity. }
  split; [exact Hfirst|]. split.
  - intros [message Hfail]. destruct Hfirst as (rest & c & Hrun).
    rewrite Hrun in Hfail. discriminate.
  - intros Hall.
    destruct (Hall 1%nat) as (s1 & t1 & j1 & E1 & Ok1 & N1); [unfold MAX_RETRIES; lia|].
    destruct (Hall 2%nat) as (s2 & t2 & j2 & E2 & Ok2 & N2); [unfold MAX_RETRIES; lia|].
    destruct (Hall 3%nat) as (s3 & t3 & j3 & E3 & Ok3 & N3); [unfold MAX_RETRIES; lia|].
    apply Z.eqb_neq in N1, N2, N3.
    exists s3, t3, j3. split; [exact E3|].
    unfold fetchWithRetry. change (MAX_RETRIES + 2)%nat with 5%nat.
    cbn [attempts]. rewrite H0, Hok, Hne, E1, Ok1, N1, E2, Ok2, N2, E3, Ok3, N3.
    reflexivity.
Qed.

Lemma fetchWithRetry_status_error_retried_witness :
  (exists rest c,
     fetchWithRetry "u" always_404 =
       Some (Acquire :: Fetch "u" :: Sleep 1000 :: Acquire :: Fetch "u" :: rest, c)) /\
  ~ fails_immediately "u" always_404 /\
  ((forall n, (n <= MAX_RETRIES)%nat ->
      exists st txt js, always_404 n = Response st txt js /\ ok st = false /\ st <> 429) ->
   exists st txt js,
     always_404 MAX_RETRIES = Response st txt js /\
     fetchWithRetry "u" always_404 =
       Some ([Acquire; Fetch "u"; Sleep 1000; Acquire; Fetch "u"; Sleep 3000;
              Acquire; Fetch "u"; Sleep 8000; Acquire; Fetch "u"],
             Threw (status_error st txt))).
Proof.
  apply (fetchWithRetry_status_error_retried "u" always_404 404 "Not Found" (Returned Null)).
  - reflexivity.
  - reflexivity.
  - lia.
Defined.

End RetryFacts.

(* ------------------------------------------------------------------------- *)
(** ** The rate limiter: token buckets and grant counts *)
(* ------------------------------------------------------------------------- *)

Section Counting.
Import Limiter.

Lemma count_app f log1 log2 :
  count f (log1 ++ log2) = (count f log1 + count f log2)%nat.
Proof. unfold count. now rewrite List.filter_app, length_app. Qed.

Lemma count_le f f' log :
  (forall g, f g = true -> f' g = true) ->
  (count f log <= count f' log)%nat.
Proof.
  intros Himp. unfold count.
  induction log as [|g log IH]; simpl; [lia|].
  destruct (f (snd g)) eqn:Hf.
  - rewrite (Himp _ Hf). simpl. lia.
  - destruct (f' (snd g)); simpl; lia.
Qed.

Lemma count_none f log :
  (forall r g, In (r, g) log -> f g = false) -> count f log = 0%nat.
Proof.
  intros Hnone. unfold count.
  induction log as [|[r g] log IH]; simpl; [reflexivity|].
  rewrite (Hnone r g) by now left.
  apply IH. intros r' g' Hin. apply (Hnone r'). now right.
Qed.

Lemma granted_in_count t len log :
  granted_in t len log = count (fun g => (t <=? g) && (g <? t + len)) log.
Proof. reflexivity. Qed.


Lemma bucket_inv_init cap W anchor :
  0 <= cap -> bucket_inv cap W cap anchor [].
Proof.
  intros Hcap. split; unfold granted_in, granted_since, count; simpl; intros; lia.
Qed.

(** A refill that finds a whole window elapsed fills the bucket up. *)
Lemma refill_amount cap W tokens elapsed :
  0 < W -> 0 <= tokens <= cap -> W <= elapsed ->
  Z.min cap (tokens + elapsed / W * cap) = cap.
Proof.
  intros HW Htok Hel.
  assert (1 <= elapsed / W) by (apply Z.div_le_lower_bound; lia).
  apply Z.min_l. nia.
Qed.

Lemma bucket_inv_refill cap W tokens anchor log now :
  0 < W -> anchor <= now ->
  bucket_inv cap W tokens anchor log ->
  W <= now - anchor ->
  bucket_inv cap W (Z.min cap (tokens + (now - anchor) / W * cap)) now log.
Proof.
  intros HW Hle [Hrange Hsince Hnext Hnear Hroll] Hel.
  rewrite refill_amount by assumption.
  assert (Hzero : granted_since now log = 0%nat).
  { apply count_none. intros r g Hin. apply Hnext in Hin. lia. }
  unfold granted_since in *.
  split.
  - lia.
  - unfold granted_since. rewrite Hzero. simpl. lia.
  - intros r g Hin. apply Hnext in Hin. lia.
  - assert (count (Z.ltb (now - W)) log <= count (Z.leb anchor) log)%nat.
    { apply count_le. intros g Hg. lia. }
    lia.
  - exact Hroll.
Qed.

Lemma bucket_inv_grant cap W tokens anchor log r now :
  0 < W -> anchor <= now < anchor + W -> 0 < tokens ->
  bucket_inv cap W tokens anchor log ->
  bucket_inv cap W (tokens - 1) anchor (log ++ [(r, now)]).
Proof.
  intros HW Hnow Hpos [Hrange Hsince Hnext Hnear Hroll].
  assert (Hnear' :
    Z.of_nat (count (Z.ltb (anchor - W)) (log ++ [(r, now)])) + (tokens - 1) <= 2 * cap).
  { rewrite count_app. unfold count at 2. simpl.
    destruct (anchor - W <? now) eqn:E; simpl; lia. }
  unfold granted_since in *.
  split.
  - lia.
  - unfold granted_since. rewrite count_app. unfold count at 2. simpl.
    destruct (anchor <=? now) eqn:E; simpl; lia.
  - intros r' g Hin. apply in_app_or in Hin as [Hin|[Heq|[]]].
    + now apply Hnext in Hin.
    + inversion Heq; subst. lia.
  - exact Hnear'.
  - intros t. rewrite granted_in_count.
    destruct ((t <=? now) && (now <? t + W)) eqn:E.
    + pose proof (count_le (fun g => (t <=? g) && (g <? t + W))
                    (Z.ltb (anchor - W)) (log ++ [(r, now)])) as Hle.
      assert (forall g, (t <=? g) && (g <? t + W) = true -> (anchor - W <? g) = true)
        as Himp by (intros g Hg; lia).
      specialize (Hle Himp). lia.
    + rewrite count_app. unfold count at 2. simpl. rewrite E. simpl.
      specialize (Hroll t). rewrite granted_in_count in Hroll. lia.
Qed.

End Counting.

Section LimiterFacts.
Import Limiter.
Variable Date_now : nat -> Z.
Local Abbreviation timed := (Limiter.timed Date_now).
Local Abbreviation winv := (Limiter.winv Date_now).

Lemma _refill_at_frame now l :
  queue (_refill_at now l) = queue l /\
  processing (_refill_at now l) = processing l /\
  perSecond (_refill_at now l) = perSecond l /\
  perMinute (_refill_at now l) = perMinute l.
Proof.
  unfold _refill_at.
  destruct (1000 <=? now - lastSecondRefill l);
    simpl; destruct (60000 <=? now - lastMinuteRefill l); simpl; auto.
Qed.

(** *** Arrival order *)

(** The grants handed out so far, followed by the waiters still queued, are
    the [acquire()] calls in the order they came. *)
Lemma worker_fifo q w :
  queue (this w) = q ->
  map fst (resolved (worker Date_now q w)) ++ queue (this (worker Date_now q w)) =
  map fst (resolved w) ++ q.
Proof.
  revert w. induction q as [|r rest IH]; intros w Hq; simpl.
  - now rewrite Hq.
  - destruct (_ && _).
    + rewrite IH by reflexivity. simpl.
      rewrite map_app. simpl. now rewrite <- app_assoc.
    + simpl. destruct (_refill_at_frame (Date_now (clock w)) (this w)) as [-> _].
      now rewrite Hq.
Qed.

Lemma step_fifo w e :
  map fst (resolved (step Date_now w e)) ++ queue (this (step Date_now w e)) =
  (map fst (resolved w) ++ queue (this w)) ++ arrivals [e].
Proof.
  destruct e as [r|]; simpl.
  - unfold acquire, _processQueue. simpl.
    destruct (processing (this w)); simpl.
    + now rewrite app_assoc.
    + rewrite worker_fifo by reflexivity. simpl. now rewrite app_assoc.
  - rewrite app_nil_r. unfold timer_fired.
    destruct (timer w); [|reflexivity].
    now rewrite worker_fifo by reflexivity.
Qed.

Lemma arrivals_app es1 es2 : arrivals (es1 ++ es2) = arrivals es1 ++ arrivals es2.
Proof. unfold arrivals. apply omap_app. Qed.

Lemma run_fifo events w :
  map fst (resolved (run Date_now events w)) ++ queue (this (run Date_now events w)) =
  (map fst (resolved w) ++ queue (this w)) ++ arrivals events.
Proof.
  revert w. induction events as [|e events IH]; intros w; simpl.
  - now rewrite app_nil_r.
  - unfold run in *. rewrite IH, step_fifo.
    rewrite <- app_assoc. f_equal. now destruct e.
Qed.

(** *** Grant times *)


Hypothesis clock_monotone : monotone Date_now.

Lemma timed_worker q w : timed w -> timed (worker Date_now q w).
Proof.
  revert w. induction q as [|r rest IH]; intros w [Hsorted Hpast]; simpl.
  - split; assumption.
  - destruct (_ && _); simpl.
    + apply IH. split; simpl.
      * intros i j x y Hij Hi Hj.
        apply lookup_app_Some in Hi as [Hi|[Hlen Hi]];
          apply lookup_app_Some in Hj as [Hj|[Hlen' Hj]].
        -- eauto.
        -- apply list_lookup_singleton_Some in Hj as [_ <-]. simpl.
           apply (Hpast (clock w) x); [lia|].
           eapply list_elem_of_lookup_2; eauto.
        -- apply lookup_lt_Some in Hj. lia.
        -- apply list_lookup_singleton_Some in Hi as [_ <-].
           apply list_lookup_singleton_Some in Hj as [_ <-]. lia.
      * intros n x Hn Hx. apply elem_of_app in Hx as [Hx|Hx].
        -- apply Hpast; [lia|assumption].
        -- apply list_elem_of_singleton in Hx as ->. simpl.
           apply clock_monotone. lia.
    + split; simpl; [assumption|].
      intros n x Hn Hx. apply Hpast; [lia|assumption].
Qed.

Lemma timed_run events w : timed w -> timed (run Date_now events w).
Proof.
  revert w. induction events as [|e events IH]; intros w Hw; [assumption|].
  apply IH. destruct e as [r|]; simpl.
  - unfold acquire, _processQueue; simpl.
    destruct (processing (this w)); [exact Hw|].
    apply timed_worker. exact Hw.
  - unfold timer_fired. destruct (timer w); [|exact Hw].
    apply timed_worker. exact Hw.
Qed.

(** *** Both buckets along a run *)


Lemma winv_new cfg clock0 :
  0 <= Config.perSecond cfg -> 0 <= Config.perMinute cfg ->
  winv cfg (new_limiter Date_now cfg clock0).
Proof.
  intros HS HM. split; simpl.
  - auto.
  - now apply bucket_inv_init.
  - now apply bucket_inv_init.
  - intros n Hn. split; apply clock_monotone; lia.
Qed.

(** After [_refill()] at reading [now], both anchors are at most [now] and
    less than a window behind it. *)
Lemma winv_refill cfg w :
  winv cfg w ->
  let now := Date_now (clock w) in
  winv cfg (_refill Date_now w) /\
  lastSecondRefill (this (_refill Date_now w)) <= now
    < lastSecondRefill (this (_refill Date_now w)) + 1000 /\
  lastMinuteRefill (this (_refill Date_now w)) <= now
    < lastMinuteRefill (this (_refill Date_now w)) + 60000.
Proof.
  intros [[HcS HcM] Hsec Hmin Hpast] now.
  destruct (Hpast (clock w)) as [HaS HaM]; [lia|]. fold now in HaS, HaM.
  assert (Hnext : forall n, (S (clock w) <= n)%nat -> now <= Date_now n)
    by (intros n Hn; apply clock_monotone; lia).
  unfold _refill, _refill_at. fold now.
  destruct (1000 <=? now - lastSecondRefill (this w)) eqn:ES; simpl;
    destruct (60000 <=? now - lastMinuteRefill (this w)) eqn:EM; simpl.
  all: split; [|lia].
  all: split; simpl; auto.
  all: try (rewrite ?HcS, ?HcM; apply bucket_inv_refill; auto; lia).
  all: intros n Hn; specialize (Hnext n Hn);
    destruct (Hpast n) as [? ?]; [lia|]; lia.
Qed.

Lemma winv_worker cfg q w : winv cfg w -> winv cfg (worker Date_now q w).
Proof.
  revert w. induction q as [|r rest IH]; intros w Hw; simpl.
  - destruct Hw as [Hc Hsec Hmin Hpast]. split; assumption.
  - destruct (winv_refill cfg w Hw) as ([Hc Hsec Hmin Hpast] & HnowS & HnowM).
    destruct (_ && _) eqn:Etok; simpl.
    + apply andb_true_iff in Etok as [HtS HtM].
      apply IH. split; simpl.
      * exact Hc.
      * apply bucket_inv_grant; auto; lia.
      * apply bucket_inv_grant; auto; lia.
      * exact Hpast.
    + split; assumption.
Qed.

Lemma winv_run cfg events w : winv cfg w -> winv cfg (run Date_now events w).
Proof.
  revert w. induction events as [|e events IH]; intros w Hw; [assumption|].
  apply IH. destruct e as [r|]; simpl.
  - unfold acquire, _processQueue; simpl.
    destruct (processing (this w)).
    + destruct Hw as [Hc Hsec Hmin Hpast]. split; assumption.
    + apply winv_worker. destruct Hw as [Hc Hsec Hmin Hpast]. split; assumption.
  - unfold timer_fired. destruct (timer w); [|exact Hw].
    apply winv_worker. destruct Hw as [Hc Hsec Hmin Hpast]. split; assumption.
Qed.

End LimiterFacts.

Section LimiterClaims.
Import Limiter.


(** On a clock that stands still the fourth of four [acquire()] calls finds
    the per-second bucket empty: it stays queued behind a one-second timer,
    and is granted when the timer expires a second later. *)
Example fourth_acquire_waits :
  let w := run (fun _ => 0) (acquires 4)
             (new_limiter (fun _ => 0) Config.OPENF1_RATE_LIMIT 0) in
  map fst (resolved w) = [0; 1; 2]%nat /\ queue (this w) = [3%nat] /\
  timer w = Some 1000 /\ processing (this w) = true /\
  let later := fun n : nat => if (n <? 6)%nat then 0 else 1000 in
  resolved (run later (acquires 4 ++ [TimerFired])
              (new_limiter later Config.OPENF1_RATE_LIMIT 0))
  = [(0%nat, 0); (1%nat, 0); (2%nat, 0); (3%nat, 1000)].
Proof. vm_compute. repeat split. Qed.

Lemma burst_clock_monotone : monotone burst_clock.
Proof.
  intros i j Hij. unfold burst_clock.
  destruct (Nat.ltb_spec i 2), (Nat.ltb_spec j 2),
           (Nat.ltb_spec i 5), (Nat.ltb_spec j 5); lia.
Qed.

Lemma minute_clock_monotone : monotone minute_clock.
Proof.
  intros i j Hij. unfold minute_clock.
  destruct (Z.ltb_spec (Z.of_nat i) 2), (Z.ltb_spec (Z.of_nat j) 2),
           (Z.ltb_spec (Z.of_nat i) 32), (Z.ltb_spec (Z.of_nat j) 32); lia.
Qed.

(** C3, as stated, fails on the limiter of the OpenF1 provider (3 per
    second, 30 per minute).  Six [acquire()] calls, three at 999 ms and
    three at 1000 ms after construction, are all granted at once: six grants
    within two milliseconds.  And 33 calls between 50 s and 60.8 s are all
    granted: 33 grants within eleven seconds. *)
Lemma limiter_burst_counterexample :
  let w1 := run burst_clock (acquires 6)
              (new_limiter burst_clock Config.OPENF1_RATE_LIMIT 0) in
  let w2 := run minute_clock (acquires 33)
              (new_limiter minute_clock Config.OPENF1_RATE_LIMIT 0) in
  monotone burst_clock /\ monotone minute_clock /\
  map snd (resolved w1) = [999; 999; 999; 1000; 1000; 1000] /\
  ~ Z.of_nat (granted_in 999 1000 (resolved w1))
      <= Config.perSecond Config.OPENF1_RATE_LIMIT /\
  granted_in 50000 60000 (resolved w2) = 33%nat /\
  ~ Z.of_nat (granted_in 50000 60000 (resolved w2))
      <= Config.perMinute Config.OPENF1_RATE_LIMIT.
Proof.
  split; [exact burst_clock_monotone|].
  split; [exact minute_clock_monotone|].
  vm_compute. repeat split; intros H; apply H; reflexivity.
Qed.

(** C3 (amended).  Along every history of [acquire()] calls and timer
    expiries on a limiter with non-negative capacities (S, M), read on a
    clock that never goes backwards: at most 2*S grants fall in any rolling
    1-second window and at most 2*M in any rolling 60-second window; S and
    M bound the grants made since the last advance of the respective
    anchor; and the token counts stay between 0 and the capacity. *)
Theorem limiter_window_bound Date_now cfg clock0 events t :
  monotone Date_now ->
  0 <= Config.perSecond cfg -> 0 <= Config.perMinute cfg ->
  let w := run Date_now events (new_limiter Date_now cfg clock0) in
  Z.of_nat (granted_in t 1000 (resolved w)) <= 2 * Config.perSecond cfg /\
  Z.of_nat (granted_in t 60000 (resolved w)) <= 2 * Config.perMinute cfg /\
  Z.of_nat (granted_since (lastSecondRefill (this w)) (resolved w))
    <= Config.perSecond cfg /\
  Z.of_nat (granted_since (lastMinuteRefill (this w)) (resolved w))
    <= Config.perMinute cfg /\
  0 <= secondTokens (this w) <= Config.perSecond cfg /\
  0 <= minuteTokens (this w) <= Config.perMinute cfg.
Proof.
  intros Hmono HS HM w.
  destruct (winv_run Date_now Hmono cfg events _
              (winv_new Date_now Hmono cfg clock0 HS HM))
    as [_ [HrS HsS _ _ HwS] [HrM HsM _ _ HwM] _].
  fold w in HrS, HsS, HwS, HrM, HsM, HwM.
  repeat split; try apply HwS; try apply HwM; lia.
Qed.

Lemma limiter_window_bound_witness :
  let w := run burst_clock (acquires 6)
             (new_limiter burst_clock Config.OPENF1_RATE_LIMIT 0) in
  granted_in 999 1000 (resolved w) = 6%nat /\
  Z.of_nat (granted_in 999 1000 (resolved w)) <= 2 * 3.
Proof.
  split; [reflexivity|].
  apply (limiter_window_bound burst_clock Config.OPENF1_RATE_LIMIT 0%nat
           (acquires 6) 999).
  - exact burst_clock_monotone.
  - simpl. lia.
  - simpl. lia.
Defined.

(** C7.  Requests are granted in arrival order.  If request A is the i-th
    [acquire()] call and B the j-th, i < j, and B has been granted, then A
    has been granted too: A is the i-th grant and B the j-th, and on a clock
    that never goes backwards A's grant is not later than B's. *)
Theorem limiter_fifo Date_now cfg clock0 events i j a b tb :
  let w := run Date_now events (new_limiter Date_now cfg clock0) in
  NoDup (arrivals events) ->
  (i < j)%nat ->
  arrivals events !! i = Some a ->
  arrivals events !! j = Some b ->
  (b, tb) ∈ resolved w ->
  exists ta,
    resolved w !! i = Some (a, ta) /\
    resolved w !! j = Some (b, tb) /\
    (monotone Date_now -> ta <= tb).
Proof.
  intros w Hnodup Hij Ha Hb Hin.
  pose proof (run_fifo Date_now events (new_limiter Date_now cfg clock0)) as Hfifo.
  fold w in Hfifo. simpl in Hfifo.
  apply list_elem_of_lookup in Hin as [k Hk].
  assert (Hkb : arrivals events !! k = Some b).
  { rewrite <- Hfifo. apply lookup_app_l_Some.
    rewrite list_lookup_fmap, Hk. reflexivity. }
  assert (k = j) as -> by (eapply NoDup_lookup; eauto).
  assert (Hlt : (i < length (resolved w))%nat)
    by (apply lookup_lt_Some in Hk; lia).
  destruct (lookup_lt_is_Some_2 _ _ Hlt) as [[a' ta] Hi].
  assert (a' = a) as ->.
  { assert (arrivals events !! i = Some a') as Hia.
    { rewrite <- Hfifo. apply lookup_app_l_Some.
      rewrite list_lookup_fmap, Hi. reflexivity. }
    congruence. }
  exists ta. repeat split; try assumption.
  intros Hmono.
  assert (Htimed : timed Date_now w).
  { apply timed_run; [assumption|]. split; simpl.
    - intros ? ? ? ? _ H. rewrite lookup_nil in H. discriminate.
    - intros ? ? _ H. apply elem_of_nil in H. contradiction. }
  destruct Htimed as [Hsorted _].
  apply (Hsorted i j (a, ta) (b, tb)); [lia|assumption|assumption].
Qed.

Lemma limiter_fifo_witness :
  let w := run burst_clock (acquires 6)
             (new_limiter burst_clock Config.OPENF1_RATE_LIMIT 0) in
  exists ta,
    resolved w !! 1%nat = Some (1%nat, ta) /\
    resolved w !! 4%nat = Some (4%nat, 1000) /\
    (monotone burst_clock -> ta <= 1000).
Proof.
  apply (limiter_fifo burst_clock Config.OPENF1_RATE_LIMIT 0%nat (acquires 6)
           1%nat 4%nat 1%nat 4%nat 1000).
  - apply (bool_decide_unpack _). vm_compute. exact I.
  - lia.
  - reflexivity.
  - reflexivity.
  - apply (bool_decide_unpack _). vm_compute. exact I.
Defined.

End LimiterClaims.

(* ------------------------------------------------------------------------- *)
(** ** The live window *)
(* ------------------------------------------------------------------------- *)

Section LiveWindow.
Import JS Scheduled.

(** C6.  For a session whose [date_start] and [date_end] are present and
    denote the times [start] and [end_], [isSessionInLiveWindow] is true
    exactly when [start - beforeStart <= now <= end_ + afterEnd], both bounds
    included, with [beforeStart] 30 minutes and [afterEnd] 60 minutes; it is
    false for any [now] before the first bound or after the second. *)
Theorem isSessionInLiveWindow_closed_interval Date_getTime now session start end_ :
  truthy session = true ->
  truthy (prop session "date_start") = true ->
  truthy (prop session "date_end") = true ->
  Date_getTime (prop session "date_start") = Some start ->
  Date_getTime (prop session "date_end") = Some end_ ->
  Config.SESSION_GRACE_PERIOD.beforeStart = 30 * 60 * 1000 /\
  Config.SESSION_GRACE_PERIOD.afterEnd = 60 * 60 * 1000 /\
  (isSessionInLiveWindow Date_getTime now session = true <->
   start - Config.SESSION_GRACE_PERIOD.beforeStart <= now
     <= end_ + Config.SESSION_GRACE_PERIOD.afterEnd) /\
  (now < start - Config.SESSION_GRACE_PERIOD.beforeStart \/
   end_ + Config.SESSION_GRACE_PERIOD.afterEnd < now ->
   isSessionInLiveWindow Date_getTime now session = false).
Proof.
  intros Hs Hds Hde Hstart Hend.
  unfold isSessionInLiveWindow. rewrite Hs, Hds, Hde, Hstart, Hend. simpl.
  repeat split; intros; lia.
Qed.

Lemma isSessionInLiveWindow_closed_interval_witness :
  isSessionInLiveWindow epoch_ms (43200000 - 1800000) a_session = true /\
  isSessionInLiveWindow epoch_ms (46800000 + 3600000) a_session = true /\
  isSessionInLiveWindow epoch_ms (43200000 - 1800000 - 1) a_session = false /\
  isSessionInLiveWindow epoch_ms (46800000 + 3600000 + 1) a_session = false.
Proof.
  pose proof (isSessionInLiveWindow_closed_interval epoch_ms) as W.
  split; [|split; [|split]].
  - apply (W (43200000 - 1800000) a_session 43200000 46800000); try reflexivity.
    vm_compute. split; discriminate.
  - apply (W (46800000 + 3600000) a_session 43200000 46800000); try reflexivity.
    vm_compute. split; discriminate.
  - apply (W (43200000 - 1800000 - 1) a_session 43200000 46800000); try reflexivity.
    left. reflexivity.
  - apply (W (46800000 + 3600000 + 1) a_session 43200000 46800000); try reflexivity.
    right. reflexivity.
Defined.

End LiveWindow.

(* ------------------------------------------------------------------------- *)
(** ** The refresh jobs: what a run leaves alone *)
(* ------------------------------------------------------------------------- *)

Section SchedulerFacts.
Import JS Firestore Scheduled.
Variable Date_getTime : value -> option Z.
Variable StringToNumber : string -> option Z.
Variable firestore : service.
Variable up : upstream.

(** A job's outermost [try]/[catch] swallows whatever its body throws. *)
Lemma try_catch_returns (body : job unit) db :
  snd (try_catch body (fun _ => ret tt) db) = Returned tt.
Proof.
  unfold try_catch. destruct (body db) as [db' [[]|m]]; reflexivity.
Qed.

Lemma cacheWrite_frame docId data db k :
  k <> docId -> fst (cacheWrite firestore docId data db) !! k = db !! k.
Proof.
  intros Hne. unfold cacheWrite.
  destruct (commits firestore docId data); simpl; [|reflexivity].
  now rewrite lookup_insert_ne.
Qed.

Lemma Promise_all_frame writes db k :
  (forall w, w ∈ writes -> fst w <> k) ->
  fst (Promise_all firestore writes db) !! k = db !! k.
Proof.
  revert db. induction writes as [|[docId data] rest IH]; intros db Hother;
    [reflexivity|].
  assert (Hrest : forall w, w ∈ rest -> fst w <> k)
    by (intros w Hw; apply Hother; now right).
  assert (Hne : k <> docId)
    by (intros ->; now apply (Hother (docId, data)); [left|]).
  simpl.
  pose proof (cacheWrite_frame docId data db k Hne) as Hw.
  destruct (cacheWrite firestore docId data db) as [db' [[]|m]]; simpl in *;
    rewrite IH by assumption; exact Hw.
Qed.

(** The loop of [refreshMeetings] leaves a document alone when the fetch of
    every meeting that maps to it throws. *)
Lemma each_meeting_frame meetings db k :
  (forall meeting, meeting ∈ meetings -> nullish meeting = false ->
     "sessions_" +:+ ToString (prop meeting "meeting_key") = k ->
     exists message,
       fetchSessions up (Obj [("meeting_key", prop meeting "meeting_key")])
       = Threw message) ->
  fst (each_meeting firestore up meetings db) !! k = db !! k.
Proof.
  revert db. induction meetings as [|meeting rest IH]; intros db Hfail;
    [reflexivity|].
  simpl. destruct (nullish meeting) eqn:Hnull; [reflexivity|].
  assert (Hrest : forall m, m ∈ rest -> nullish m = false ->
            "sessions_" +:+ ToString (prop m "meeting_key") = k ->
            exists message,
              fetchSessions up (Obj [("meeting_key", prop m "meeting_key")])
              = Threw message)
    by (intros m Hm; apply Hfail; now right).
  unfold bind, try_catch, await.
  destruct (fetchSessions up (Obj [("meeting_key", prop meeting "meeting_key")]))
    as [sessions|message] eqn:Hfetch; simpl.
  - destruct (decide ("sessions_" +:+ ToString (prop meeting "meeting_key") = k))
      as [Hk|Hk].
    + destruct (Hfail meeting) as [m Hm]; [now left|assumption|assumption|].
      congruence.
    + pose proof (cacheWrite_frame _ sessions db k (not_eq_sym Hk)) as Hw.
      destruct (cacheWrite firestore _ sessions db) as [db' [[]|m]];
        simpl in *; rewrite IH by assumption; exact Hw.
  - now apply IH.
Qed.

(** A document written by [refreshLiveData] for one resource is written for
    no other. *)
Lemma live_resources_disjoint sessionKey e1 e2 k :
  e1 ∈ live_resources up sessionKey -> e2 ∈ live_resources up sessionKey ->
  k ∈ snd e1 -> k ∈ snd e2 -> e1 = e2.
Proof.
  unfold live_resources. intros H1 H2 K1 K2.
  repeat match goal with
  | H : _ ∈ _ :: _ |- _ => apply elem_of_cons in H as [H|H]
  | H : _ ∈ [] |- _ => apply elem_of_nil in H; contradiction
  end; subst e1 e2; simpl in *;
  repeat match goal with
  | H : _ ∈ _ :: _ |- _ => apply elem_of_cons in H as [H|H]
  | H : _ ∈ [] |- _ => apply elem_of_nil in H; contradiction
  end; try reflexivity; subst k; simpl in *; discriminate.
Qed.

Lemma push_if_elem v docIds w :
  w ∈ push_if v docIds -> truthy v = true /\ fst w ∈ docIds.
Proof.
  unfold push_if. destruct (truthy v); intros Hw.
  - split; [reflexivity|].
    apply list_elem_of_fmap in Hw as (docId & -> & Hin). exact Hin.
  - apply elem_of_nil in Hw. contradiction.
Qed.

Lemma live_writes_elem sessionKey w :
  w ∈ live_writes up sessionKey ->
  exists e, e ∈ live_resources up sessionKey /\
            truthy (or_null (fst e)) = true /\ fst w ∈ snd e.
Proof.
  unfold live_writes, live_resources. intros Hw.
  repeat (apply elem_of_app in Hw as [Hw|Hw]);
    apply push_if_elem in Hw as [Ht Hin];
    eexists (_, _); (split; [|split; [exact Ht|exact Hin]]);
    repeat first [apply list_elem_of_here | apply list_elem_of_further].
Qed.

Lemma live_writes_failed sessionKey e k :
  e ∈ live_resources up sessionKey -> failed (fst e) -> k ∈ snd e ->
  forall w, w ∈ live_writes up sessionKey -> fst w <> k.
Proof.
  intros He Hfailed Hk w Hw Heq.
  apply live_writes_elem in Hw as (e' & He' & Ht & Hin).
  rewrite Heq in Hin.
  assert (e = e') as <- by (eapply live_resources_disjoint; eauto).
  unfold failed in Hfailed. congruence.
Qed.

Lemma live_resources_not_latest sessionKey e k :
  e ∈ live_resources up sessionKey -> k ∈ snd e -> k <> "latest_session".
Proof.
  unfold live_resources. intros He Hk ->.
  repeat match goal with
  | H : _ ∈ _ :: _ |- _ => apply elem_of_cons in H as [H|H]
  | H : _ ∈ [] |- _ => apply elem_of_nil in H; contradiction
  end; subst e; simpl in *;
  repeat match goal with
  | H : _ ∈ _ :: _ |- _ => apply elem_of_cons in H as [H|H]
  | H : _ ∈ [] |- _ => apply elem_of_nil in H; contradiction
  end; simpl in *; discriminate.
Qed.

(** *** Job by job *)

Lemma refreshMeetings_frame year db :
  (forall message, fetchMeetings up year = Threw message ->
     fst (refreshMeetings firestore up year db) = db) /\
  (forall k, k <> "meetings_" +:+ pretty year ->
     (forall data meetings meeting,
        fetchMeetings up year = Returned data ->
        iterate data = Some meetings -> meeting ∈ meetings ->
        nullish meeting = false ->
        "sessions_" +:+ ToString (prop meeting "meeting_key") = k ->
        exists message,
          fetchSessions up (Obj [("meeting_key", prop meeting "meeting_key")])
          = Threw message) ->
     fst (refreshMeetings firestore up year db) !! k = db !! k).
Proof.
  unfold refreshMeetings, try_catch, bind, await, throw, ret. split.
  - intros message ->. reflexivity.
  - intros k Hk Hfail.
    destruct (fetchMeetings up year) as [data|message]; [|reflexivity].
    pose proof (cacheWrite_frame _ data db k Hk) as Hw.
    destruct (cacheWrite firestore _ data db) as [db' [[]|m]]; simpl in *;
      [|exact Hw].
    destruct (nullish data); [exact Hw|].
    destruct (iterate data) as [meetings|] eqn:Hit; [|exact Hw].
    pose proof (each_meeting_frame meetings db' k) as Hloop.
    destruct (each_meeting firestore up meetings db') as [db'' [[]|m]];
      simpl in *; rewrite Hloop; eauto.
Qed.

Lemma refreshStandings_frame year db :
  (exists message, fetchDriverStandings up year = Threw message) \/
  (exists message, fetchConstructorStandings up year = Threw message) ->
  fst (refreshStandings firestore up year db) = db.
Proof.
  unfold refreshStandings, try_catch, throw, ret.
  intros [[message ->]|[message ->]]; [reflexivity|].
  destruct (fetchDriverStandings up year); reflexivity.
Qed.

Lemma refreshLiveData_frame now db :
  (forall message, fetchSessions up latest_query = Threw message ->
     fst (refreshLiveData Date_getTime StringToNumber firestore up now db) = db) /\
  (forall sessions e k,
     fetchSessions up latest_query = Returned sessions ->
     e ∈ live_resources up (prop (latest_of StringToNumber sessions) "session_key") ->
     failed (fst e) -> k ∈ snd e ->
     fst (refreshLiveData Date_getTime StringToNumber firestore up now db) !! k
     = db !! k).
Proof.
  unfold refreshLiveData, try_catch, bind, await, ret, latest_query. split.
  - intros message ->. reflexivity.
  - intros sessions e k -> He Hfailed Hk.
    set (latestSession := latest_of StringToNumber sessions) in *.
    assert (Hother : forall w,
              w ∈ live_writes up (prop latestSession "session_key") -> fst w <> k)
      by (eapply live_writes_failed; eauto).
    assert (Hne : k <> "latest_session")
      by (eapply live_resources_not_latest; eauto).
    pose proof (cacheWrite_frame "latest_session" latestSession db k Hne) as Hw.
    destruct (cacheWrite firestore "latest_session" latestSession db)
      as [db' [[]|m]]; simpl in *; [|exact Hw].
    destruct (truthy latestSession); simpl; [|exact Hw].
    destruct (isSessionInLiveWindow Date_getTime now latestSession); simpl;
      [|exact Hw].
    pose proof (Promise_all_frame
                  (live_writes up (prop latestSession "session_key")) db' k Hother)
      as Hall.
    destruct (Promise_all firestore _ db') as [db'' [[]|m]]; simpl in *;
      now rewrite Hall.
Qed.

Lemma refreshBaseData_frame db :
  (forall message, fetchSessions up latest_query = Threw message ->
     fst (refreshBaseData StringToNumber firestore up db) = db) /\
  (forall sessions k,
     fetchSessions up latest_query = Returned sessions ->
     let sessionKey := prop (latest_of StringToNumber sessions) "session_key" in
     failed (fetchDrivers up sessionKey) ->
     k ∈ ["drivers_" +:+ ToString sessionKey; "drivers_latest"] ->
     fst (refreshBaseData StringToNumber firestore up db) !! k = db !! k).
Proof.
  unfold refreshBaseData, try_catch, bind, await, ret, latest_query. split.
  - intros message ->. reflexivity.
  - intros sessions k ->. cbv zeta. intros Hfailed Hk.
    set (latestSession := latest_of StringToNumber sessions) in *.
    set (sessionKey := prop latestSession "session_key") in *.
    assert (Hne : k <> "latest_session").
    { intros ->.
      repeat match goal with
      | H : _ ∈ _ :: _ |- _ => apply elem_of_cons in H as [H|H]
      | H : _ ∈ [] |- _ => apply elem_of_nil in H; contradiction
      end; simpl in *; discriminate. }
    pose proof (cacheWrite_frame "latest_session" latestSession db k Hne) as Hw.
    destruct (cacheWrite firestore "latest_session" latestSession db)
      as [db' [[]|m]]; simpl in *; [|exact Hw].
    destruct (truthy latestSession); simpl; [|exact Hw].
    unfold failed, or_null in Hfailed.
    destruct (fetchDrivers up sessionKey) as [drivers|m]; simpl; [|exact Hw].
    rewrite Hfailed. exact Hw.
Qed.

(** One turn of the loop of [refreshMeetings] on a meeting that is an
    object: its sessions are written if they could be fetched, and the loop
    goes on either way. *)
Lemma each_meeting_turn m rest db :
  nullish m = false ->
  fst (each_meeting firestore up (m :: rest) db)
  = fst (each_meeting firestore up rest
           match fetchSessions up (Obj [("meeting_key", prop m "meeting_key")]) with
           | Returned s =>
               fst (cacheWrite firestore
                      ("sessions_" +:+ ToString (prop m "meeting_key")) s db)
           | Threw _ => db
           end).
Proof.
  intros Hm. simpl. rewrite Hm. unfold bind, try_catch, await.
  destruct (fetchSessions up (Obj [("meeting_key", prop m "meeting_key")]))
    as [s|e]; simpl.
  - destruct (cacheWrite firestore _ s db) as [db1 [[]|e]]; simpl;
      destruct (each_meeting firestore up rest db1) as [db2 [[]|e']]; reflexivity.
  - destruct (each_meeting firestore up rest db) as [db2 [[]|e']]; reflexivity.
Qed.

(** Once a document holds what a meeting's refresh would write, the loop
    keeps it so. *)
Lemma each_meeting_holds meetings : forall db k mk s ts,
  Forall (fun m => nullish m = false) meetings ->
  (forall m, m ∈ meetings ->
     "sessions_" +:+ ToString (prop m "meeting_key") = k -> prop m "meeting_key" = mk) ->
  fetchSessions up (Obj [("meeting_key", mk)]) = Returned s ->
  commits firestore k s = Returned ts ->
  db !! k = Some {| data := s; updatedAt := ts |} ->
  fst (each_meeting firestore up meetings db) !! k = Some {| data := s; updatedAt := ts |}.
Proof.
  induction meetings as [|m rest IH]; intros db k mk s ts Hnn Hinj Hfetch Hcommit Hdb;
    [exact Hdb|].
  inversion Hnn as [|? ? Hm Hrest]; subst.
  rewrite each_meeting_turn by exact Hm.
  apply (IH _ k mk s ts); auto.
  - intros m' Hm'. apply Hinj. now right.
  - destruct (decide ("sessions_" +:+ ToString (prop m "meeting_key") = k)) as [Hk|Hk].
    + rewrite (Hinj m) by (left || exact Hk). rewrite Hfetch.
      rewrite <- (Hinj m) by (left || exact Hk). rewrite Hk.
      unfold cacheWrite. rewrite Hcommit. apply lookup_insert_eq.
    + destruct (fetchSessions up (Obj [("meeting_key", prop m "meeting_key")]))
        as [s'|e]; [|exact Hdb].
      now rewrite cacheWrite_frame by congruence.
Qed.

Lemma each_meeting_lands meetings : forall db k m s ts,
  Forall (fun m => nullish m = false) meetings ->
  m ∈ meetings -> k = "sessions_" +:+ ToString (prop m "meeting_key") ->
  (forall m', m' ∈ meetings ->
     "sessions_" +:+ ToString (prop m' "meeting_key") = k ->
     prop m' "meeting_key" = prop m "meeting_key") ->
  fetchSessions up (Obj [("meeting_key", prop m "meeting_key")]) = Returned s ->
  commits firestore k s = Returned ts ->
  fst (each_meeting firestore up meetings db) !! k = Some {| data := s; updatedAt := ts |}.
Proof.
  induction meetings as [|m0 rest IH]; intros db k m s ts Hnn Hin Hk Hinj Hfetch Hcommit.
  - now apply elem_of_nil in Hin.
  - inversion Hnn as [|? ? Hm0 Hrest]; subst x l.
    assert (Hinj' : forall m', m' ∈ rest ->
              "sessions_" +:+ ToString (prop m' "meeting_key") = k ->
              prop m' "meeting_key" = prop m "meeting_key")
      by (intros m' Hm'; apply Hinj; now right).
    rewrite each_meeting_turn by exact Hm0.
    destruct (decide ("sessions_" +:+ ToString (prop m0 "meeting_key") = k)) as [Hk0|Hk0].
    + apply (each_meeting_holds rest _ k (prop m "meeting_key") s ts); auto.
      rewrite (Hinj m0) by (left || exact Hk0). rewrite Hfetch.
      rewrite <- (Hinj m0) by (left || exact Hk0). rewrite Hk0.
      unfold cacheWrite. rewrite Hcommit. apply lookup_insert_eq.
    + apply elem_of_cons in Hin as [->|Hin]; [congruence|].
      apply (IH _ k m s ts); auto.
Qed.

(** Once the calendar has been fetched and its write committed,
    [refreshMeetings] leaves it under [meetings_<year>], whatever the loop
    over the meetings does. *)
Lemma refreshMeetings_stores year db data ts :
  fetchMeetings up year = Returned data ->
  commits firestore ("meetings_" +:+ pretty year) data = Returned ts ->
  fst (refreshMeetings firestore up year db) !! ("meetings_" +:+ pretty year)
  = Some {| data := data; updatedAt := ts |}.
Proof.
  intros Hfetch Hcommit.
  unfold refreshMeetings, try_catch, bind, await, cacheWrite, throw, ret.
  rewrite Hfetch, Hcommit. simpl.
  set (db1 := <["meetings_" +:+ pretty year := {| data := data; updatedAt := ts |}]> db).
  assert (Hdb1 : db1 !! ("meetings_" +:+ pretty year)
                 = Some {| data := data; updatedAt := ts |})
    by apply lookup_insert_eq.
  destruct (nullish data); [exact Hdb1|].
  destruct (iterate data) as [meetings|]; [|exact Hdb1].
  pose proof (each_meeting_frame meetings db1 ("meetings_" +:+ pretty year)) as Hloop.
  destruct (each_meeting firestore up meetings db1) as [db2 [[]|m]];
    simpl in *; rewrite Hloop; auto;
    intros meeting _ _ Hkey; simpl in Hkey; discriminate.
Qed.

(** Once the calendar is stored and is an array of objects, the sessions
    fetched for a meeting are stored as soon as their write is committed. *)
Lemma refreshMeetings_lands year db data meetings ts0 m s ts :
  fetchMeetings up year = Returned data ->
  commits firestore ("meetings_" +:+ pretty year) data = Returned ts0 ->
  iterate data = Some meetings ->
  Forall (fun m => nullish m = false) meetings ->
  m ∈ meetings ->
  (forall m', m' ∈ meetings ->
     ToString (prop m' "meeting_key") = ToString (prop m "meeting_key") ->
     prop m' "meeting_key" = prop m "meeting_key") ->
  fetchSessions up (Obj [("meeting_key", prop m "meeting_key")]) = Returned s ->
  commits firestore ("sessions_" +:+ ToString (prop m "meeting_key")) s = Returned ts ->
  fst (refreshMeetings firestore up year db)
    !! ("sessions_" +:+ ToString (prop m "meeting_key"))
  = Some {| data := s; updatedAt := ts |}.
Proof.
  intros Hfetch Hcommit0 Hit Hnn Hin Hinj Hsessions Hcommit.
  unfold refreshMeetings, try_catch, bind, await, cacheWrite.
  rewrite Hfetch, Hcommit0. simpl.
  assert (Hdata : nullish data = false) by (destruct data; try discriminate; reflexivity).
  rewrite Hdata, Hit.
  pose proof (each_meeting_lands meetings
                (<["meetings_" +:+ pretty year := {| data := data; updatedAt := ts0 |}]> db)
                _ m s ts Hnn Hin eq_refl) as Hlands.
  destruct (each_meeting firestore up meetings _) as [db' [[]|e]]; apply Hlands; auto.
  all: intros m' Hm' Hkey; apply Hinj; [exact Hm'|];
    simpl in Hkey; now inversion Hkey.
Qed.

(** Standings that were fetched are stored as soon as their own write is
    committed. *)
Lemma refreshStandings_lands year db ds cs :
  fetchDriverStandings up year = Returned ds ->
  fetchConstructorStandings up year = Returned cs ->
  (forall ts, commits firestore ("driver_standings_" +:+ pretty year) ds = Returned ts ->
     fst (refreshStandings firestore up year db) !! ("driver_standings_" +:+ pretty year)
     = Some {| data := ds; updatedAt := ts |}) /\
  (forall ts,
     commits firestore ("constructor_standings_" +:+ pretty year) cs = Returned ts ->
     fst (refreshStandings firestore up year db)
       !! ("constructor_standings_" +:+ pretty year)
     = Some {| data := cs; updatedAt := ts |}).
Proof.
  intros Hd Hc.
  assert (Heq : fst (refreshStandings firestore up year db)
                = fst (Promise_all firestore
                         [("driver_standings_" +:+ pretty year, ds);
                          ("constructor_standings_" +:+ pretty year, cs)] db)).
  { unfold refreshStandings, try_catch, bind, throw, ret. rewrite Hd, Hc.
    destruct (Promise_all firestore _ db) as [db' [[]|m]]; simpl; [|reflexivity].
    destruct (nullish ds || nullish cs); reflexivity. }
  rewrite Heq. simpl. unfold cacheWrite. split; intros ts Hts.
  - rewrite Hts.
    destruct (commits firestore ("constructor_standings_" +:+ pretty year) cs); simpl;
      rewrite ?lookup_insert_ne by discriminate; apply lookup_insert_eq.
  - rewrite Hts.
    destruct (commits firestore ("driver_standings_" +:+ pretty year) ds); simpl;
      apply lookup_insert_eq.
Qed.

(** [latest_session] takes the first session of whatever the sessions
    request returned, or [null], as soon as its write is committed. *)
Lemma refreshLiveData_latest now db sessions ts :
  fetchSessions up latest_query = Returned sessions ->
  commits firestore "latest_session" (latest_of StringToNumber sessions) = Returned ts ->
  fst (refreshLiveData Date_getTime StringToNumber firestore up now db) !! "latest_session"
  = Some {| data := latest_of StringToNumber sessions; updatedAt := ts |}.
Proof.
  intros Hfetch Hcommit.
  unfold refreshLiveData, try_catch, bind, await, ret, cacheWrite.
  fold latest_query. rewrite Hfetch.
  set (latest := latest_of StringToNumber sessions) in *.
  rewrite Hcommit. simpl.
  set (db1 := <["latest_session" := {| data := latest; updatedAt := ts |}]> db).
  assert (Hdb1 : db1 !! "latest_session" = Some {| data := latest; updatedAt := ts |})
    by apply lookup_insert_eq.
  destruct (truthy latest); simpl; [|exact Hdb1].
  destruct (isSessionInLiveWindow Date_getTime now latest); simpl; [|exact Hdb1].
  pose proof (Promise_all_frame (live_writes up (prop latest "session_key")) db1
                "latest_session") as Hall.
  destruct (Promise_all firestore _ db1) as [db2 [[]|m]]; simpl in *;
    rewrite Hall; auto;
    intros w Hw Hk; apply live_writes_elem in Hw as (e & He & _ & Hin);
    rewrite Hk in Hin; now apply (live_resources_not_latest _ e "latest_session" He Hin).
Qed.

Lemma refreshBaseData_latest db sessions ts :
  fetchSessions up latest_query = Returned sessions ->
  commits firestore "latest_session" (latest_of StringToNumber sessions) = Returned ts ->
  fst (refreshBaseData StringToNumber firestore up db) !! "latest_session"
  = Some {| data := latest_of StringToNumber sessions; updatedAt := ts |}.
Proof.
  intros Hfetch Hcommit.
  unfold refreshBaseData, try_catch, bind, await, ret.
  fold latest_query. rewrite Hfetch.
  set (latest := latest_of StringToNumber sessions) in *.
  unfold cacheWrite at 1. rewrite Hcommit. simpl.
  set (db1 := <["latest_session" := {| data := latest; updatedAt := ts |}]> db).
  assert (Hdb1 : db1 !! "latest_session" = Some {| data := latest; updatedAt := ts |})
    by apply lookup_insert_eq.
  destruct (truthy latest); simpl; [|exact Hdb1].
  destruct (fetchDrivers up (prop latest "session_key")) as [drivers|e];
    simpl; [|exact Hdb1].
  destruct (truthy drivers); simpl; [|exact Hdb1].
  pose proof (cacheWrite_frame ("drivers_" +:+ ToString (prop latest "session_key"))
                drivers db1 "latest_session") as Hw1.
  destruct (cacheWrite firestore ("drivers_" +:+ _) drivers db1) as [db2 [[]|e]];
    simpl in *; [|rewrite Hw1 by discriminate; exact Hdb1].
  pose proof (cacheWrite_frame "drivers_latest" drivers db2 "latest_session") as Hw2.
  destruct (cacheWrite firestore "drivers_latest" drivers db2) as [db3 [[]|e]];
    simpl in *; rewrite Hw2, Hw1 by discriminate; exact Hdb1.
Qed.

(** No session in a response that is falsy. *)
Lemma latest_of_falsy sessions :
  truthy sessions = false -> latest_of StringToNumber sessions = Null.
Proof. intros Hfalsy. unfold latest_of. now rewrite Hfalsy. Qed.

(** *** A provider that answers 429 *)

(** A call for a URL that is answered 429 every time returns [undefined]. *)
Lemma call_429 (net : string -> nat -> Retry.fetched) url :
  (forall n, exists statusText json, net url n = Retry.Response 429 statusText json) ->
  Upstream.call net url = Returned Undefined.
Proof.
  intros H429. unfold Upstream.call, Retry.fetchWithRetry. simpl.
  destruct (H429 0%nat) as (t0 & j0 & ->).
  destruct (H429 1%nat) as (t1 & j1 & ->).
  destruct (H429 2%nat) as (t2 & j2 & ->).
  destruct (H429 3%nat) as (t3 & j3 & ->).
  reflexivity.
Qed.

(** What the jobs get from the upstream module while every request is
    answered 429. *)
Lemma exports_429 (net : string -> nat -> Retry.fetched) year :
  (forall url n, exists statusText json,
     net url n = Retry.Response 429 statusText json) ->
  fetchMeetings (Upstream.exports net) year = Returned Undefined /\
  fetchSessions (Upstream.exports net) latest_query = Returned Undefined /\
  fetchDriverStandings (Upstream.exports net) year = Returned (Arr []) /\
  fetchConstructorStandings (Upstream.exports net) year = Returned (Arr []).
Proof.
  intros H429. simpl.
  unfold Upstream.fetchMeetings, Upstream.fetchSessions, Upstream.fetchDriverStandings,
    Upstream.fetchConstructorStandings, Upstream.openf1, Upstream.jolpica.
  rewrite !call_429 by (intros n; apply H429). auto.
Qed.

(** *** Writes the store refuses *)

Lemma cacheWrite_rejected docId data db k :
  rejects firestore k -> fst (cacheWrite firestore docId data db) !! k = db !! k.
Proof.
  intros Hrej. unfold cacheWrite. destruct (decide (docId = k)) as [->|Hne].
  - destruct (Hrej data) as [message ->]. reflexivity.
  - destruct (commits firestore docId data); simpl; [|reflexivity].
    now rewrite lookup_insert_ne.
Qed.

Lemma Promise_all_rejected writes : forall db k,
  rejects firestore k -> fst (Promise_all firestore writes db) !! k = db !! k.
Proof.
  induction writes as [|[docId data] rest IH]; intros db k Hrej; [reflexivity|].
  simpl. pose proof (cacheWrite_rejected docId data db k Hrej) as Hw.
  destruct (cacheWrite firestore docId data db) as [db' [[]|m]]; simpl in *;
    rewrite IH by assumption; exact Hw.
Qed.

Lemma each_meeting_rejected meetings : forall db k,
  rejects firestore k -> fst (each_meeting firestore up meetings db) !! k = db !! k.
Proof.
  induction meetings as [|m rest IH]; intros db k Hrej; [reflexivity|].
  simpl. destruct (nullish m); [reflexivity|].
  unfold bind, try_catch, await, ret.
  destruct (fetchSessions up _) as [s|e]; simpl.
  - pose proof (cacheWrite_rejected ("sessions_" +:+ ToString (prop m "meeting_key"))
                  s db k Hrej) as Hw.
    destruct (cacheWrite firestore _ s db) as [db1 [[]|e]]; simpl in *;
      specialize (IH db1 k Hrej);
      destruct (each_meeting firestore up rest db1) as [db2 [[]|e']]; simpl in *;
      congruence.
  - specialize (IH db k Hrej).
    destruct (each_meeting firestore up rest db) as [db2 [[]|e']]; simpl in *;
      congruence.
Qed.

(** A document the store refuses to write is left as it was by every job. *)
Lemma jobs_rejected year now db k :
  rejects firestore k ->
  fst (refreshMeetings firestore up year db) !! k = db !! k /\
  fst (refreshStandings firestore up year db) !! k = db !! k /\
  fst (refreshLiveData Date_getTime StringToNumber firestore up now db) !! k = db !! k /\
  fst (refreshBaseData StringToNumber firestore up db) !! k = db !! k.
Proof.
  intros Hrej. split; [|split; [|split]].
  - unfold refreshMeetings, try_catch, bind, await, throw, ret.
    destruct (fetchMeetings up year) as [data|e]; [|reflexivity].
    pose proof (cacheWrite_rejected ("meetings_" +:+ pretty year) data db k Hrej) as Hw.
    destruct (cacheWrite firestore _ data db) as [db1 [[]|e]]; simpl in *; [|exact Hw].
    destruct (nullish data); [exact Hw|].
    destruct (iterate data) as [meetings|]; [|exact Hw].
    pose proof (each_meeting_rejected meetings db1 k Hrej) as Hloop.
    destruct (each_meeting firestore up meetings db1) as [db2 [[]|e]];
      simpl in *; congruence.
  - unfold refreshStandings, try_catch, bind, throw, ret.
    destruct (fetchDriverStandings up year) as [ds|e];
      destruct (fetchConstructorStandings up year) as [cs|e']; try reflexivity.
    pose proof (Promise_all_rejected
                  [("driver_standings_" +:+ pretty year, ds);
                   ("constructor_standings_" +:+ pretty year, cs)] db k Hrej) as Hall.
    destruct (Promise_all firestore _ db) as [db1 [[]|e]]; simpl in *; [|exact Hall].
    destruct (nullish ds || nullish cs); exact Hall.
  - unfold refreshLiveData, try_catch, bind, await, ret.
    destruct (fetchSessions up _) as [sessions|e]; [|reflexivity].
    set (latest := latest_of StringToNumber sessions).
    pose proof (cacheWrite_rejected "latest_session" latest db k Hrej) as Hw.
    destruct (cacheWrite firestore "latest_session" latest db) as [db1 [[]|e]];
      simpl in *; [|exact Hw].
    destruct (truthy latest); simpl; [|exact Hw].
    destruct (isSessionInLiveWindow Date_getTime now latest); simpl; [|exact Hw].
    pose proof (Promise_all_rejected (live_writes up (prop latest "session_key"))
                  db1 k Hrej) as Hall.
    destruct (Promise_all firestore _ db1) as [db2 [[]|e]]; simpl in *; congruence.
  - unfold refreshBaseData, try_catch, bind, await, ret.
    destruct (fetchSessions up _) as [sessions|e]; [|reflexivity].
    set (latest := latest_of StringToNumber sessions).
    pose proof (cacheWrite_rejected "latest_session" latest db k Hrej) as Hw.
    destruct (cacheWrite firestore "latest_session" latest db) as [db1 [[]|e]];
      simpl in *; [|exact Hw].
    destruct (truthy latest); simpl; [|exact Hw].
    destruct (fetchDrivers up (prop latest "session_key")) as [drivers|e];
      simpl; [|exact Hw].
    destruct (truthy drivers); simpl; [|exact Hw].
    pose proof (cacheWrite_rejected
                  ("drivers_" +:+ ToString (prop latest "session_key")) drivers db1 k Hrej)
      as Hw1.
    destruct (cacheWrite firestore ("drivers_" +:+ _) drivers db1) as [db2 [[]|e]];
      simpl in *; [|congruence].
    pose proof (cacheWrite_rejected "drivers_latest" drivers db2 k Hrej) as Hw2.
    destruct (cacheWrite firestore "drivers_latest" drivers db2) as [db3 [[]|e]];
      simpl in *; congruence.
Qed.

End SchedulerFacts.

Section SchedulerClaims.
Import JS Firestore Scheduled.

(** C4, as stated, fails for every kind of entry but the live resources
    and the drivers.  While both providers answer 429, every call of
    [fetchWithRetry] returns [undefined] after its fourth attempt and
    [fetchDriverStandings] makes [[]] of it: [refreshStandings] replaces the
    standings of the season by [[]], and [refreshLiveData] and
    [refreshBaseData] replace the session remembered under [latest_session]
    by [null].  When OpenF1 answers a request with the JSON value [null],
    [refreshMeetings] replaces the calendar, and the sessions of a meeting,
    by [null]. *)
Lemma unusable_refresh_overwrites :
  (Upstream.jolpica (fun _ => Retry.always_429) "/2026/driverstandings.json"
   = Returned Undefined /\
   failed (fetchSessions Upstream.throttled latest_query) /\
   failed (fetchMeetings hollow 2026) /\
   failed (fetchSessions blank_sessions (Obj [("meeting_key", Number 1229)]))) /\
  (season !! "driver_standings_2026"
   = Some {| data := Arr [Obj [("position", Str "1")]]; updatedAt := 1 |} /\
   fst (refreshStandings strict Upstream.throttled 2026 season) !! "driver_standings_2026"
   = Some {| data := Arr []; updatedAt := 2 |} /\
   fst (refreshStandings strict Upstream.throttled 2026 season)
     !! "constructor_standings_2026"
   = Some {| data := Arr []; updatedAt := 2 |}) /\
  (season !! "latest_session" = Some {| data := a_session; updatedAt := 1 |} /\
   fst (refreshLiveData epoch_ms no_numeric_strings strict Upstream.throttled 0 season)
     !! "latest_session" = Some {| data := Null; updatedAt := 2 |} /\
   fst (refreshBaseData no_numeric_strings strict Upstream.throttled season)
     !! "latest_session" = Some {| data := Null; updatedAt := 2 |}) /\
  (season !! "meetings_2026"
   = Some {| data := Arr [Obj [("meeting_key", Number 1229)]]; updatedAt := 1 |} /\
   fst (refreshMeetings steady hollow 2026 season) !! "meetings_2026"
   = Some {| data := Null; updatedAt := 2 |}) /\
  (season !! "sessions_1229"
   = Some {| data := Arr [Obj [("session_key", Number 9158)]]; updatedAt := 1 |} /\
   fst (refreshMeetings steady blank_sessions 2026 season) !! "sessions_1229"
   = Some {| data := Null; updatedAt := 2 |}).
Proof. vm_compute. repeat split. Qed.

(** C4 (amended).  Every job catches its own top-level error and returns
    normally.  An entry is left as it was
    - when the fetch it would be refreshed from throws: [refreshMeetings]
      writes nothing when the meetings fetch throws, and leaves a
      [sessions_<meetingKey>] entry alone when the sessions fetch of every
      meeting with that key throws; [refreshStandings] writes nothing when
      either standings fetch throws; [refreshLiveData] and [refreshBaseData]
      write nothing when the sessions fetch throws;
    - for the live resources of [refreshLiveData] and the drivers of
      [refreshBaseData], also when the fetch yields a falsy value;
    - in every job, when the store refuses the writes to it.
    A fetch that returns without a usable result does not protect the other
    entries.  Whatever the fetch returns, once the write is committed
    [meetings_<year>] holds what the meetings fetch returned,
    [sessions_<meetingKey>] what the sessions fetch of that meeting returned
    (the calendar being a stored array of objects in which no other key
    maps to the same document), the two standings documents what the two
    standings fetches returned, and [latest_session] the first session of
    what the sessions fetch returned -- [null] when that is falsy.  While
    every request is answered 429 the meetings and sessions fetches return
    [undefined] and the standings fetches the empty array. *)
Theorem failed_refresh_keeps_entry
    Date_getTime StringToNumber firestore up (year now : Z) (db : gmap string doc) :
  let meetings_job := refreshMeetings firestore up year db in
  let standings_job := refreshStandings firestore up year db in
  let live_job := refreshLiveData Date_getTime StringToNumber firestore up now db in
  let base_job := refreshBaseData StringToNumber firestore up db in
  (snd meetings_job = Returned tt /\ snd standings_job = Returned tt /\
   snd live_job = Returned tt /\ snd base_job = Returned tt) /\
  ((forall message, fetchMeetings up year = Threw message -> fst meetings_job = db) /\
   (forall k, k <> "meetings_" +:+ pretty year ->
      (forall data meetings meeting,
         fetchMeetings up year = Returned data ->
         iterate data = Some meetings -> meeting ∈ meetings ->
         nullish meeting = false ->
         "sessions_" +:+ ToString (prop meeting "meeting_key") = k ->
         exists message,
           fetchSessions up (Obj [("meeting_key", prop meeting "meeting_key")])
           = Threw message) ->
      fst meetings_job !! k = db !! k)) /\
  ((exists message, fetchDriverStandings up year = Threw message) \/
   (exists message, fetchConstructorStandings up year = Threw message) ->
   fst standings_job = db) /\
  ((forall message, fetchSessions up latest_query = Threw message ->
      fst live_job = db) /\
   (forall sessions e k,
      fetchSessions up latest_query = Returned sessions ->
      e ∈ live_resources up (prop (latest_of StringToNumber sessions) "session_key") ->
      failed (fst e) -> k ∈ snd e ->
      fst live_job !! k = db !! k)) /\
  ((forall message, fetchSessions up latest_query = Threw message ->
      fst base_job = db) /\
   (forall sessions k,
      fetchSessions up latest_query = Returned sessions ->
      let sessionKey := prop (latest_of StringToNumber sessions) "session_key" in
      failed (fetchDrivers up sessionKey) ->
      k ∈ ["drivers_" +:+ ToString sessionKey; "drivers_latest"] ->
      fst base_job !! k = db !! k)) /\
  (forall k, rejects firestore k ->
     fst meetings_job !! k = db !! k /\ fst standings_job !! k = db !! k /\
     fst live_job !! k = db !! k /\ fst base_job !! k = db !! k) /\
  (forall data ts,
     fetchMeetings up year = Returned data ->
     commits firestore ("meetings_" +:+ pretty year) data = Returned ts ->
     fst meetings_job !! ("meetings_" +:+ pretty year)
     = Some {| data := data; updatedAt := ts |}) /\
  (forall data meetings ts0 m s ts,
     fetchMeetings up year = Returned data ->
     commits firestore ("meetings_" +:+ pretty year) data = Returned ts0 ->
     iterate data = Some meetings ->
     Forall (fun m => nullish m = false) meetings ->
     m ∈ meetings ->
     (forall m', m' ∈ meetings ->
        ToString (prop m' "meeting_key") = ToString (prop m "meeting_key") ->
        prop m' "meeting_key" = prop m "meeting_key") ->
     fetchSessions up (Obj [("meeting_key", prop m "meeting_key")]) = Returned s ->
     commits firestore ("sessions_" +:+ ToString (prop m "meeting_key")) s = Returned ts ->
     fst meetings_job !! ("sessions_" +:+ ToString (prop m "meeting_key"))
     = Some {| data := s; updatedAt := ts |}) /\
  (forall ds cs,
     fetchDriverStandings up year = Returned ds ->
     fetchConstructorStandings up year = Returned cs ->
     (forall ts,
        commits firestore ("driver_standings_" +:+ pretty year) ds = Returned ts ->
        fst standings_job !! ("driver_standings_" +:+ pretty year)
        = Some {| data := ds; updatedAt := ts |}) /\
     (forall ts,
        commits firestore ("constructor_standings_" +:+ pretty year) cs = Returned ts ->
        fst standings_job !! ("constructor_standings_" +:+ pretty year)
        = Some {| data := cs; updatedAt := ts |})) /\
  (forall sessions,
     fetchSessions up latest_query = Returned sessions ->
     (truthy sessions = false -> latest_of StringToNumber sessions = Null) /\
     (forall ts,
        commits firestore "latest_session" (latest_of StringToNumber sessions)
        = Returned ts ->
        fst live_job !! "latest_session"
        = Some {| data := latest_of StringToNumber sessions; updatedAt := ts |} /\
        fst base_job !! "latest_session"
        = Some {| data := latest_of StringToNumber sessions; updatedAt := ts |})) /\
  (forall net : string -> nat -> Retry.fetched,
     (forall url n, exists statusText json,
        net url n = Retry.Response 429 statusText json) ->
     fetchMeetings (Upstream.exports net) year = Returned Undefined /\
     fetchSessions (Upstream.exports net) latest_query = Returned Undefined /\
     fetchDriverStandings (Upstream.exports net) year = Returned (Arr []) /\
     fetchConstructorStandings (Upstream.exports net) year = Returned (Arr [])).
Proof.
  intros meetings_job standings_job live_job base_job.
  split; [|split; [|split; [|split; [|split; [|split; [|split; [|split; [|split;
    [|split]]]]]]]]].
  - repeat split; apply try_catch_returns.
  - apply refreshMeetings_frame.
  - apply refreshStandings_frame.
  - apply refreshLiveData_frame.
  - apply refreshBaseData_frame.
  - intros k Hrej. now apply jobs_rejected.
  - intros data ts. apply refreshMeetings_stores.
  - intros data meetings ts0 m s ts. apply refreshMeetings_lands.
  - intros ds cs. apply refreshStandings_lands.
  - intros sessions Hfetch. split; [apply latest_of_falsy|].
    intros ts Hcommit. split.
    + now apply refreshLiveData_latest.
    + now apply refreshBaseData_latest.
  - intros net. apply exports_429.
Qed.

(** The two end-to-end scenarios of the live window: one millisecond before
    the grace period opens and one after it closes, [refreshLiveData] writes
    [latest_session] and nothing else; inside the window it writes every
    resource whose fetch gave something. *)
Example refreshLiveData_gated :
  let written now :=
    fst (refreshLiveData epoch_ms no_numeric_strings steady patchy now ∅) in
  dom (written (43200000 - 1800000 - 1)) = {[ "latest_session" ]} /\
  dom (written (46800000 + 3600000 + 1)) = {[ "latest_session" ]} /\
  written 43200000 !! "intervals_9158"
    = Some {| data := Arr [Obj [("interval", Number 0)]]; updatedAt := 2 |} /\
  written 43200000 !! "drivers_latest" = written 43200000 !! "drivers_9158" /\
  written 43200000 !! "positions_9158" = None.
Proof. vm_compute. repeat split. Qed.

Lemma failed_refresh_keeps_entry_witness :
  fst (refreshLiveData epoch_ms no_numeric_strings steady patchy 43200000 tracked)
    !! "positions_9158" = tracked !! "positions_9158" /\
  fst (refreshLiveData epoch_ms no_numeric_strings steady down 43200000 tracked) = tracked /\
  fst (refreshMeetings unavailable hollow 2026 season) !! "meetings_2026"
  = season !! "meetings_2026" /\
  fst (refreshStandings strict Upstream.throttled 2026 season) !! "driver_standings_2026"
  = Some {| data := Arr []; updatedAt := 2 |}.
Proof.
  split; [|split; [|split]].
  - destruct (failed_refresh_keeps_entry epoch_ms no_numeric_strings steady patchy
                2026 43200000 tracked) as (_ & _ & _ & [_ Hlive] & _).
    apply (Hlive (Arr [a_session])
                 (fetchPositions patchy (Number 9158), ["positions_9158"])).
    + reflexivity.
    + apply list_elem_of_here.
    + reflexivity.
    + apply list_elem_of_here.
  - destruct (failed_refresh_keeps_entry epoch_ms no_numeric_strings steady down
                2026 43200000 tracked) as (_ & _ & _ & [Hthrew _] & _).
    apply (Hthrew "fetch failed"). reflexivity.
  - destruct (failed_refresh_keeps_entry epoch_ms no_numeric_strings unavailable
                hollow 2026 0 season)
      as (_ & _ & _ & _ & _ & Hrejected & _).
    destruct (Hrejected "meetings_2026") as [Hkept _].
    + intros data. exists "UNAVAILABLE". reflexivity.
    + exact Hkept.
  - destruct (failed_refresh_keeps_entry epoch_ms no_numeric_strings strict
                Upstream.throttled 2026 0 season)
      as (_ & _ & _ & _ & _ & _ & _ & _ & Hstandings & _).
    destruct (Hstandings (Arr []) (Arr [])) as [Hdrivers _]; [reflexivity..|].
    apply (Hdrivers 2). reflexivity.
Defined.

End SchedulerClaims.

(* ------------------------------------------------------------------------- *)
(** ** The read layer *)
(* ------------------------------------------------------------------------- *)

Section ReadLayerFacts.
Import JS Firestore Middleware Index.

(** The middleware sets headers only: a request it lets through is not a
    preflight, and the response it was given keeps its status and is still
    unsent. *)
Lemma applyMiddleware_admits now req hits res0 :
  admitted now req hits ->
  String.eqb (method req) "OPTIONS" = false /\
  exists res1 hits',
    applyMiddleware now req res0 hits = (true, res1, hits') /\
    status res1 = status res0 /\ body res1 = body res0.
Proof.
  unfold admitted, applyMiddleware, setCors, checkRateLimit.
  destruct (String.eqb (method req) "OPTIONS"); simpl; [discriminate|].
  destruct (_ <? _); simpl; [discriminate|].
  intros _. split; [reflexivity|]. eexists _, _. repeat split.
Qed.

(** A request the middleware lets through reaches the handler, on a
    response with the default status. *)
Lemma createEndpoint_admitted cors docIdFn firestore now req hits db :
  admitted now req hits ->
  createEndpoint cors docIdFn firestore now req hits db
  = handler docIdFn firestore now req
      {| status := 200; headers := cors; body := None |} hits db.
Proof.
  intros Hadm.
  destruct (applyMiddleware_admits now req hits fresh_response Hadm) as [Hmethod _].
  unfold createEndpoint, onRequest. now rewrite Hmethod.
Qed.

(** A request that does not pass the middleware is answered without any
    look at the parameters or the store. *)
Lemma createEndpoint_rejected cors docIdFn firestore now req hits db :
  ~ admitted now req hits ->
  store_reads (createEndpoint cors docIdFn firestore now req hits db) = [] /\
  (status (res (createEndpoint cors docIdFn firestore now req hits db)) = 204 \/
   status (res (createEndpoint cors docIdFn firestore now req hits db)) = 429).
Proof.
  unfold admitted, createEndpoint, onRequest, handler, applyMiddleware, setCors,
    checkRateLimit.
  destruct (String.eqb (method req) "OPTIONS"); simpl; [auto|].
  destruct (_ <? _); simpl; [auto|].
  intros Hno. now contradict Hno.
Qed.

Lemma keyed_endpoints_null endpoint param req :
  (endpoint, param) ∈ keyed_endpoints ->
  truthy (query req param) = false ->
  endpoint req = None.
Proof.
  unfold keyed_endpoints. intros Hin Hfalsy.
  repeat match goal with
  | H : _ ∈ _ :: _ |- _ => apply elem_of_cons in H as [H|H]
  | H : _ ∈ [] |- _ => apply elem_of_nil in H; contradiction
  end; inversion Hin; subst;
  unfold getSessions, getDrivers, getPositions, getIntervals, getSessionResult,
         getLaps, getWeather, getRaceControl, getStints, keyed;
  now rewrite Hfalsy.
Qed.

(** No endpoint ever builds the empty document id. *)
Lemma endpoints_docId_nonempty currentYear endpoint req docId :
  endpoint ∈ endpoints currentYear -> endpoint req = Some docId ->
  or_else (Some docId) None = Some docId.
Proof.
  unfold endpoints. intros Hin Hid.
  repeat match goal with
  | H : _ ∈ _ :: _ |- _ => apply elem_of_cons in H as [H|H]
  | H : _ ∈ [] |- _ => apply elem_of_nil in H; contradiction
  end; subst endpoint;
  unfold getMeetings, getSessions, getSessionsByYear, getDrivers, getLatestDrivers,
         getPositions, getIntervals, getSessionResult, getLaps, getWeather,
         getRaceControl, getStints, getLatestSession, getDriverStandings,
         getConstructorStandings, keyed in Hid;
  repeat match type of Hid with
  | context [if ?b then _ else _] => destruct b
  end; inversion Hid; reflexivity.
Qed.

Lemma readCache_null firestore db_absent db_null docId ts :
  db_absent !! docId = None ->
  db_null !! docId = Some {| data := Null; updatedAt := ts |} ->
  readCache firestore db_absent docId = readCache firestore db_null docId /\
  (reads firestore docId = Returned tt ->
   readCache firestore db_absent docId = Returned Null /\
   readCache firestore db_null docId = Returned Null).
Proof.
  intros Habsent Hnull. unfold readCache. rewrite Habsent, Hnull. simpl.
  split; [reflexivity|]. now intros ->.
Qed.

(** What a handler answers once its [readCache] has returned [null]. *)
Lemma createEndpoint_null cors currentYear endpoint firestore now req hits db docId :
  endpoint ∈ endpoints currentYear -> endpoint req = Some docId ->
  admitted now req hits ->
  readCache firestore db docId = Returned Null ->
  status (res (createEndpoint cors endpoint firestore now req hits db)) = 200 /\
  body (res (createEndpoint cors endpoint firestore now req hits db))
  = Some (Json (Arr [])) /\
  store_reads (createEndpoint cors endpoint firestore now req hits db) = [docId].
Proof.
  intros Hin Hid Hadm Hread.
  rewrite (createEndpoint_admitted cors endpoint firestore now req hits db Hadm).
  destruct (applyMiddleware_admits now req hits
              {| status := 200; headers := cors; body := None |} Hadm)
    as (_ & res1 & hits' & Hmw & Hst & _).
  unfold handler. rewrite Hmw, Hid.
  rewrite (endpoints_docId_nonempty currentYear endpoint req docId Hin Hid).
  rewrite Hread. simpl. auto.
Qed.

(** What a handler answers once the store holds data under its document. *)
Lemma createEndpoint_stored
    cors currentYear endpoint firestore now req hits db docId d :
  endpoint ∈ endpoints currentYear -> endpoint req = Some docId ->
  admitted now req hits ->
  reads firestore docId = Returned tt ->
  db !! docId = Some d -> data d <> Null ->
  status (res (createEndpoint cors endpoint firestore now req hits db)) = 200 /\
  body (res (createEndpoint cors endpoint firestore now req hits db))
  = Some (Json (data d)) /\
  store_reads (createEndpoint cors endpoint firestore now req hits db) = [docId].
Proof.
  intros Hin Hid Hadm Hreads Hdoc Hdata.
  rewrite (createEndpoint_admitted cors endpoint firestore now req hits db Hadm).
  destruct (applyMiddleware_admits now req hits
              {| status := 200; headers := cors; body := None |} Hadm)
    as (_ & res1 & hits' & Hmw & Hst & _).
  unfold handler. rewrite Hmw, Hid.
  rewrite (endpoints_docId_nonempty currentYear endpoint req docId Hin Hid).
  unfold readCache. rewrite Hreads, Hdoc. simpl.
  destruct (data d); try contradiction; simpl; auto.
Qed.

End ReadLayerFacts.

Section ReadLayerClaims.
Import JS Firestore Middleware Index.

(** C8, as stated, fails for a request that is answered before its
    parameters are looked at: the preflight of [getSessions] without
    [meeting_key] receives 204, and a [GET] without [meeting_key] from an
    address over its limit receives 429; neither receives 400. *)
Lemma missing_parameter_not_400 :
  query preflight "meeting_key" = Undefined /\
  query bare_get "meeting_key" = Undefined /\
  status (res (createEndpoint vary_origin getSessions Scheduled.steady 5 preflight ∅ ∅))
    = 204 /\
  status (res (createEndpoint vary_origin getSessions Scheduled.steady 5 bare_get
                 exhausted ∅)) = 429 /\
  status (res (createEndpoint vary_origin getSessions Scheduled.steady 5 preflight ∅ ∅))
    <> 400 /\
  status (res (createEndpoint vary_origin getSessions Scheduled.steady 5 bare_get
                 exhausted ∅)) <> 400.
Proof. vm_compute. repeat split; discriminate. Qed.

(** C8 (amended).  For every endpoint with a required identifying parameter
    and every request in which that parameter is missing (or empty), no store
    read is attempted and the answer does not depend on the store; when the
    request passes the middleware (it is not a preflight and its address is
    within the IP limit) the answer is HTTP 400. *)
Theorem missing_parameter_400 cors endpoint param firestore now req hits db :
  (endpoint, param) ∈ keyed_endpoints ->
  truthy (query req param) = false ->
  let h := createEndpoint cors endpoint firestore now req hits db in
  store_reads h = [] /\
  (forall firestore' db', createEndpoint cors endpoint firestore' now req hits db' = h) /\
  (admitted now req hits ->
   status (res h) = 400 /\
   body (res h) = Some (Json (Obj [("error", Str "Missing required query parameters")]))).
Proof.
  intros Hin Hfalsy h.
  pose proof (keyed_endpoints_null endpoint param req Hin Hfalsy) as Hnull.
  subst h.
  assert (Hshape : forall firestore' db',
    createEndpoint cors endpoint firestore' now req hits db'
    = if String.eqb (method req) "OPTIONS"
      then {| res := {| status := 204; headers := cors; body := Some (Text "") |};
              ipHits := hits; store_reads := [] |}
      else match applyMiddleware now req
                   {| status := 200; headers := cors; body := None |} hits with
           | (false, res1, hits') =>
               {| res := res1; ipHits := hits'; store_reads := [] |}
           | (true, res1, hits') =>
               {| res := send 400
                           (Json (Obj [("error", Str "Missing required query parameters")]))
                           res1;
                  ipHits := hits'; store_reads := [] |}
           end).
  { intros firestore' db'. unfold createEndpoint, onRequest, handler.
    destruct (String.eqb (method req) "OPTIONS"); [reflexivity|].
    destruct (applyMiddleware now req _ hits) as [[[] res1] hits'];
      rewrite ?Hnull; reflexivity. }
  split; [|split].
  - rewrite Hshape. destruct (String.eqb (method req) "OPTIONS"); [reflexivity|].
    destruct (applyMiddleware now req _ hits) as [[[] res1] hits']; reflexivity.
  - intros firestore' db'. now rewrite !Hshape.
  - intros Hadm.
    rewrite (createEndpoint_admitted cors endpoint firestore now req hits db Hadm).
    destruct (applyMiddleware_admits now req hits
                {| status := 200; headers := cors; body := None |} Hadm)
      as (_ & res1 & hits' & Hmw & _).
    unfold handler. rewrite Hmw, Hnull. simpl. auto.
Qed.

Lemma missing_parameter_400_witness :
  let h := createEndpoint vary_origin getSessions Scheduled.steady 5 bare_get ∅ ∅ in
  store_reads h = [] /\
  (forall firestore' db',
     createEndpoint vary_origin getSessions firestore' 5 bare_get ∅ db' = h) /\
  (admitted 5 bare_get ∅ ->
   status (res h) = 400 /\
   body (res h) = Some (Json (Obj [("error", Str "Missing required query parameters")]))).
Proof.
  apply (missing_parameter_400 vary_origin getSessions "meeting_key" Scheduled.steady 5
           bare_get ∅ ∅).
  - unfold keyed_endpoints. apply list_elem_of_here.
  - reflexivity.
Defined.

(** C9, as stated, fails for a request that is answered before the store is
    read, and when the store read does not go through.
    [getMeetings?year=2026] on an empty store from an address over its limit
    receives 429; on a store whose read is rejected it receives 500. *)
Lemma absent_document_not_200 :
  getMeetings 2026 get_2026 = Some "meetings_2026" /\
  (∅ : gmap string doc) !! "meetings_2026" = None /\
  status (res (createEndpoint vary_origin (getMeetings 2026) Scheduled.steady 5 get_2026
                 exhausted ∅))
    = 429 /\
  status (res (createEndpoint vary_origin (getMeetings 2026)
                 {| commits := fun _ _ => Returned 2;
                    reads := fun _ => Threw "UNAVAILABLE" |}
                 5 get_2026 ∅ ∅))
    = 500.
Proof. vm_compute. repeat split. Qed.

(** C9 (amended).  For every endpoint and every request for which the
    endpoint builds a document id, if the request passes the middleware, the
    store read goes through and the store holds no document under that id,
    the response is HTTP 200 with the empty array. *)
Theorem absent_document_empty_array
    cors currentYear endpoint firestore now req hits (db : gmap string doc) docId :
  endpoint ∈ endpoints currentYear ->
  endpoint req = Some docId ->
  admitted now req hits ->
  reads firestore docId = Returned tt ->
  db !! docId = None ->
  let h := createEndpoint cors endpoint firestore now req hits db in
  status (res h) = 200 /\ body (res h) = Some (Json (Arr [])) /\
  store_reads h = [docId].
Proof.
  intros Hin Hid Hadm Hreads Habsent h.
  apply (createEndpoint_null cors currentYear); try assumption.
  unfold readCache. now rewrite Hreads, Habsent.
Qed.

Lemma absent_document_empty_array_witness :
  let h := createEndpoint vary_origin (getMeetings 2026) Scheduled.steady 5 get_2026 ∅ ∅ in
  status (res h) = 200 /\ body (res h) = Some (Json (Arr [])) /\
  store_reads h = ["meetings_2026"].
Proof.
  apply (absent_document_empty_array vary_origin 2026 (getMeetings 2026) Scheduled.steady
           5 get_2026 ∅ ∅ "meetings_2026").
  - unfold endpoints. apply list_elem_of_here.
  - reflexivity.
  - reflexivity.
  - reflexivity.
  - apply lookup_empty.
Defined.

(** C10.  A document whose [data] is [null] reads exactly like no document:
    [readCache] returns [null] for both, every endpoint gives the same
    response in both cases, and once [readCache] has returned that response is
    200 with the empty array.  In particular, when the sessions request of
    [refreshLiveData] yields no latest session the job stores [null] under
    [latest_session], and [getLatestSession] then serves the empty array,
    not the stored [null]. *)
Theorem null_document_reads_as_absent
    cors currentYear Date_getTime StringToNumber firestore up now req hits
    (db db_absent db_null : gmap string doc) docId ts sessions ts' :
  db_absent !! docId = None ->
  db_null !! docId = Some {| data := Null; updatedAt := ts |} ->
  admitted now req hits ->
  reads firestore docId = Returned tt ->
  reads firestore "latest_session" = Returned tt ->
  Scheduled.fetchSessions up Scheduled.latest_query = Returned sessions ->
  Scheduled.latest_of StringToNumber sessions = Null ->
  commits firestore "latest_session" Null = Returned ts' ->
  (readCache firestore db_absent docId = Returned Null /\
   readCache firestore db_null docId = Returned Null) /\
  (forall endpoint, endpoint ∈ endpoints currentYear -> endpoint req = Some docId ->
     createEndpoint cors endpoint firestore now req hits db_null
     = createEndpoint cors endpoint firestore now req hits db_absent /\
     status (res (createEndpoint cors endpoint firestore now req hits db_null)) = 200 /\
     body (res (createEndpoint cors endpoint firestore now req hits db_null))
     = Some (Json (Arr []))) /\
  (let db' := fst (Scheduled.refreshLiveData Date_getTime StringToNumber firestore up now db) in
   db' !! "latest_session" = Some {| data := Null; updatedAt := ts' |} /\
   status (res (createEndpoint cors getLatestSession firestore now req hits db')) = 200 /\
   body (res (createEndpoint cors getLatestSession firestore now req hits db'))
   = Some (Json (Arr [])) /\
   body (res (createEndpoint cors getLatestSession firestore now req hits db'))
   <> Some (Json Null)).
Proof.
  intros Habsent Hnull Hadm Hreads Hreads' Hfetch Hnone Hcommit.
  destruct (readCache_null firestore db_absent db_null docId ts Habsent Hnull)
    as [Hsame Hboth].
  split; [now apply Hboth|]. split.
  - intros endpoint Hin Hid. split.
    + rewrite !(createEndpoint_admitted cors endpoint firestore now req hits _ Hadm).
      unfold handler.
      destruct (applyMiddleware now req _ hits) as [[[] res1] hits'];
        [|reflexivity].
      destruct (or_else (endpoint req) None) as [d|] eqn:Hd; [|reflexivity].
      rewrite Hid in Hd.
      rewrite (endpoints_docId_nonempty currentYear endpoint req docId Hin Hid) in Hd.
      inversion Hd; subst d. now rewrite Hsame.
    + destruct (createEndpoint_null cors currentYear endpoint firestore now req hits
                  db_null docId Hin Hid Hadm) as (Hst & Hbody & _);
        [now apply Hboth|]. auto.
  - cbv zeta.
    assert (Hdb :
      fst (Scheduled.refreshLiveData Date_getTime StringToNumber firestore up now db)
      = <["latest_session" := {| data := Null; updatedAt := ts' |}]> db).
    { unfold Scheduled.refreshLiveData, Scheduled.try_catch, Scheduled.bind,
        Scheduled.await, Scheduled.cacheWrite, Scheduled.ret.
      fold Scheduled.latest_query. rewrite Hfetch, Hnone, Hcommit. reflexivity. }
    rewrite Hdb.
    assert (Hstored :
      (<["latest_session" := {| data := Null; updatedAt := ts' |}]> db)
        !! "latest_session" = Some {| data := Null; updatedAt := ts' |})
      by apply lookup_insert_eq.
    split; [exact Hstored|].
    destruct (createEndpoint_null cors currentYear getLatestSession firestore now req hits
                (<["latest_session" := {| data := Null; updatedAt := ts' |}]> db)
                "latest_session") as (Hst & Hbody & _).
    + unfold endpoints. do 12 apply list_elem_of_further. apply list_elem_of_here.
    + reflexivity.
    + exact Hadm.
    + unfold readCache. now rewrite Hreads', Hstored.
    + rewrite Hbody. repeat split; try assumption. discriminate.
Qed.

Lemma null_document_reads_as_absent_witness :
  let db' := fst (Scheduled.refreshLiveData Scheduled.epoch_ms
                    Scheduled.no_numeric_strings Scheduled.steady Scheduled.quiet
                    5 Scheduled.remembered) in
  db' !! "latest_session" = Some {| data := Null; updatedAt := 2 |} /\
  status (res (createEndpoint vary_origin getLatestSession Scheduled.steady 5 bare_get ∅
                 db')) = 200 /\
  body (res (createEndpoint vary_origin getLatestSession Scheduled.steady 5 bare_get ∅ db'))
  = Some (Json (Arr [])) /\
  body (res (createEndpoint vary_origin getLatestSession Scheduled.steady 5 bare_get ∅ db'))
  <> Some (Json Null).
Proof.
  apply (null_document_reads_as_absent vary_origin 2026 Scheduled.epoch_ms
           Scheduled.no_numeric_strings Scheduled.steady Scheduled.quiet 5 bare_get ∅
           Scheduled.remembered ∅
           {[ "latest_session" := {| data := Null; updatedAt := 2 |} ]}
           "latest_session" 2 (Arr []) 2).
  - apply lookup_empty.
  - apply lookup_singleton_eq.
  - reflexivity.
  - reflexivity.
  - reflexivity.
  - reflexivity.
  - reflexivity.
  - reflexivity.
Defined.

End ReadLayerClaims.

(* ------------------------------------------------------------------------- *)
(** ** The client cache *)
(* ------------------------------------------------------------------------- *)

Section ClientFacts.
Import JS Api.

Lemma cacheGet_found key st e st1 :
  cacheGet key st = (Some e, st1) ->
  cache st1 !! key = Some e /\
  network st1 = network st /\
  pendingRefreshes st1 = pendingRefreshes st /\
  activeRefreshCount st1 = activeRefreshCount st.
Proof.
  unfold cacheGet. destruct (cache st !! key) as [e'|] eqn:Hmem.
  - intros [= <- <-]. auto.
  - destruct (localStorage st !! _) as [[| |e']|]; intros [= <- <-].
    simpl. rewrite lookup_insert_eq. auto.
Qed.

Lemma cacheGet_hit key st e :
  cache st !! key = Some e -> cacheGet key st = (Some e, st).
Proof. intros Hmem. unfold cacheGet. now rewrite Hmem. Qed.

(** With the entry in memory and a refresh in flight for its key, a call
    returns the entry's data and changes nothing. *)
Lemma fetchBackend_coalesced c st e :
  cache st !! fullCacheKey (url c) (cacheKey c) = Some e ->
  is_Some (pendingRefreshes st !! fullCacheKey (url c) (cacheKey c)) ->
  fetchBackend (url c) (cacheKey c) (cacheDuration c) (at_time c) st
  = (Resolved (data e), st).
Proof.
  intros Hmem [p Hp]. unfold fetchBackend.
  rewrite (cacheGet_hit _ _ _ Hmem).
  destruct (_ <? _); [reflexivity|].
  unfold backgroundRefresh. now rewrite Hp.
Qed.

Lemma gets_coalesced key calls st e :
  cache st !! key = Some e ->
  is_Some (pendingRefreshes st !! key) ->
  Forall (fun c => fullCacheKey (url c) (cacheKey c) = key) calls ->
  gets calls st = (replicate (length calls) (Resolved (data e)), st).
Proof.
  intros Hmem Hpending Hkey.
  induction Hkey as [|c rest Hc _ IH]; [reflexivity|].
  simpl. rewrite fetchBackend_coalesced with (e := e) by now rewrite Hc.
  now rewrite IH.
Qed.

(** With the entry in memory and fresh at the time of every call, no call
    changes anything. *)
Lemma gets_fresh key calls st e :
  cache st !! key = Some e ->
  Forall (fun c => fullCacheKey (url c) (cacheKey c) = key /\
                   at_time c - timestamp e < cacheDuration c) calls ->
  gets calls st = (replicate (length calls) (Resolved (data e)), st).
Proof.
  intros Hmem Hfresh.
  induction Hfresh as [|c rest [Hc Hage] _ IH]; [reflexivity|].
  simpl. unfold fetchBackend. rewrite Hc, (cacheGet_hit _ _ _ Hmem).
  apply Z.ltb_lt in Hage. rewrite Hage. now rewrite IH.
Qed.

(** Once the refresh has settled with a 200 the key is no longer pending, the
    entry carries the new data and time, and a [get] within the TTL is served
    from it without a request. *)
Example refresh_settles :
  let stale := get_meetings (1000 + 24 * 60 * 60 * 1000) in
  let st1 := snd (gets (replicate 10 stale) cold) in
  let st2 := refresh_settled (fun _ _ => true) "meetings_2026"
               (Retry.Response 200 "OK" (Returned (Arr []))) 86402000 86402000 st1 in
  pendingRefreshes st1 !! "meetings_2026" = Some 0%nat /\
  pendingRefreshes st2 !! "meetings_2026" = None /\
  cache st2 !! "meetings_2026" = Some {| data := Arr []; timestamp := 86402000 |} /\
  localStorage st2 !! "f1x_cache_meetings_2026"
    = Some (Stored {| data := Arr []; timestamp := 86402000 |}) /\
  activeRefreshCount st2 = 0 /\
  dispatched st2 = ["f1x:bg-refresh-start"; "f1x:cache-updated"; "f1x:bg-refresh-end"] /\
  fst (gets [get_meetings 86403000] st2) = [Resolved (Arr [])] /\
  network (snd (gets [get_meetings 86403000] st2)) = network st1.
Proof. vm_compute. repeat split. Qed.

End ClientFacts.

Section ClientClaims.
Import JS Api.

(** C5.  Take a cache key with an entry, in memory or in [localStorage].
    A [get] at which the entry's age is strictly below the TTL returns the
    cached data and issues no network call, first or repeated.  A [get] at
    which the age is at or above the TTL, with no refresh in flight, returns
    the stale data at once and issues one request; any further [get]s for
    the key made before that request settles (nine more, say) return the
    stale data too and issue none: one background refresh in total, and one
    in-flight promise recorded for the key. *)
Theorem stale_while_revalidate c rest st e st1 :
  let key := fullCacheKey (url c) (cacheKey c) in
  cacheGet key st = (Some e, st1) ->
  Forall (fun c' => fullCacheKey (url c') (cacheKey c') = key) rest ->
  (at_time c - timestamp e < cacheDuration c ->
   fetchBackend (url c) (cacheKey c) (cacheDuration c) (at_time c) st
     = (Resolved (data e), st1) /\
   network st1 = network st /\
   (Forall (fun c' => at_time c' - timestamp e < cacheDuration c') rest ->
    fst (gets (c :: rest) st) = replicate (S (length rest)) (Resolved (data e)) /\
    network (snd (gets (c :: rest) st)) = network st)) /\
  (cacheDuration c <= at_time c - timestamp e ->
   pendingRefreshes st !! key = None ->
   fst (fetchBackend (url c) (cacheKey c) (cacheDuration c) (at_time c) st)
     = Resolved (data e) /\
   fst (gets (c :: rest) st) = replicate (S (length rest)) (Resolved (data e)) /\
   network (snd (gets (c :: rest) st)) = network st ++ [url c] /\
   pendingRefreshes (snd (gets (c :: rest) st)) !! key = Some (length (network st)) /\
   activeRefreshCount (snd (gets (c :: rest) st)) = activeRefreshCount st + 1).
Proof.
  intros key Hget Hrest.
  destruct (cacheGet_found key st e st1 Hget) as (Hmem & Hnet & Hpend & Hcount).
  split.
  - intros Hage.
    assert (Hone :
      fetchBackend (url c) (cacheKey c) (cacheDuration c) (at_time c) st
      = (Resolved (data e), st1)).
    { unfold fetchBackend. fold key. rewrite Hget.
      apply Z.ltb_lt in Hage. now rewrite Hage. }
    split; [exact Hone|]. split; [exact Hnet|].
    intros Hfresh. simpl. rewrite Hone.
    rewrite (gets_fresh key rest st1 e Hmem).
    + simpl. auto.
    + apply Forall_and. split; assumption.
  - intros Hage Hnone.
    assert (Hone :
      fetchBackend (url c) (cacheKey c) (cacheDuration c) (at_time c) st
      = (Resolved (data e), backgroundRefresh (url c) key st1)).
    { unfold fetchBackend. fold key. rewrite Hget.
      assert ((at_time c - timestamp e <? cacheDuration c) = false) as ->
        by now apply Z.ltb_ge.
      reflexivity. }
    assert (Hbg : backgroundRefresh (url c) key st1 =
      {| cache := cache st1; localStorage := localStorage st1;
         pendingRefreshes := <[key := length (network st1)]> (pendingRefreshes st1);
         activeRefreshCount := activeRefreshCount st1 + 1;
         network := network st1 ++ [url c];
         dispatched := dispatched (bgRefreshStart st1) |}).
    { unfold backgroundRefresh. rewrite <- Hpend in Hnone. rewrite Hnone. reflexivity. }
    split; [now rewrite Hone|].
    simpl. rewrite Hone, Hbg.
    rewrite (gets_coalesced key rest _ e); simpl.
    + rewrite lookup_insert_eq, Hnet, Hcount. auto.
    + exact Hmem.
    + rewrite lookup_insert_eq. eauto.
    + exact Hrest.
Qed.

Lemma stale_while_revalidate_witness :
  let stale := get_meetings (1000 + 24 * 60 * 60 * 1000) in
  fst (fetchBackend (url stale) (cacheKey stale) (cacheDuration stale) (at_time stale) cold)
    = Resolved (data meetings_2026) /\
  fst (gets (stale :: replicate 9 stale) cold)
    = replicate 10 (Resolved (data meetings_2026)) /\
  network (snd (gets (stale :: replicate 9 stale) cold)) = [] ++ [url stale] /\
  pendingRefreshes (snd (gets (stale :: replicate 9 stale) cold)) !! "meetings_2026"
    = Some 0%nat /\
  activeRefreshCount (snd (gets (stale :: replicate 9 stale) cold)) = 0 + 1.
Proof.
  intros stale.
  apply (stale_while_revalidate stale (replicate 9 stale) cold meetings_2026
           (with_cache {[ "meetings_2026" := meetings_2026 ]} cold)).
  - reflexivity.
  - repeat constructor.
  - vm_compute. discriminate.
  - reflexivity.
Defined.

End ClientClaims.

(* ========================================================================= *)
(** * Further properties *)
(* ========================================================================= *)

(* ------------------------------------------------------------------------- *)
(** ** fetchWithRetry on an arbitrary upstream *)
(* ------------------------------------------------------------------------- *)

Section RetryShape.
Import JS Retry.

(** What any run of the loop entered at [attempt] looks like. *)
Lemma attempts_shape url net fuel attempt es c :
  attempts fuel url net attempt = Some (es, c) ->
  fetches es = replicate (length (fetches es)) url /\
  acquired es = length (fetches es) /\
  (length (fetches es) + attempt <= S MAX_RETRIES \/ fetches es = [])%nat /\
  sleeps es `prefix_of` drop attempt [1000; 3000; 8000; 8000] /\
  (forall message, c = Threw message ->
     (length (fetches es) + attempt = S MAX_RETRIES)%nat /\
     (length (sleeps es) + attempt = MAX_RETRIES)%nat).
Proof.
  revert attempt es c. induction fuel as [|fuel IH]; intros attempt es c Hrun;
    [discriminate|].
  simpl in Hrun.
  destruct (Nat.leb_spec attempt MAX_RETRIES) as [Hle|Hgt].
  2:{ inversion Hrun; subst. simpl.
      repeat split; auto; try apply prefix_nil; discriminate. }
  assert (Hstop : forall message,
    Some ([Acquire; Fetch url], @Threw value message) = Some (es, c) ->
    attempt = MAX_RETRIES ->
    fetches es = replicate (length (fetches es)) url /\
    acquired es = length (fetches es) /\
    (length (fetches es) + attempt <= S MAX_RETRIES \/ fetches es = [])%nat /\
    sleeps es `prefix_of` drop attempt [1000; 3000; 8000; 8000] /\
    (forall message, c = Threw message ->
       (length (fetches es) + attempt = S MAX_RETRIES)%nat /\
       (length (sleeps es) + attempt = MAX_RETRIES)%nat)).
  { intros m [= <- <-] ->. simpl. repeat split; auto. apply prefix_nil. }
  assert (Hgo : forall ms,
    ms = backoff_or attempt 2000 \/ ms = backoff_or attempt 8000 ->
    (ms = backoff_or attempt 2000 -> attempt <> MAX_RETRIES) ->
    after [Acquire; Fetch url; Sleep ms] (attempts fuel url net (S attempt))
      = Some (es, c) ->
    fetches es = replicate (length (fetches es)) url /\
    acquired es = length (fetches es) /\
    (length (fetches es) + attempt <= S MAX_RETRIES \/ fetches es = [])%nat /\
    sleeps es `prefix_of` drop attempt [1000; 3000; 8000; 8000] /\
    (forall message, c = Threw message ->
       (length (fetches es) + attempt = S MAX_RETRIES)%nat /\
       (length (sleeps es) + attempt = MAX_RETRIES)%nat)).
  { intros ms Hms Hne Hafter.
    destruct (attempts fuel url net (S attempt)) as [[es' c']|] eqn:Hrec;
      [|discriminate].
    simpl in Hafter. inversion Hafter; subst es c. clear Hafter.
    destruct (IH _ _ _ Hrec) as (Hurl & Hacq & Hlen & Hsl & Hthrew).
    assert (Hms' : ms = nth attempt [1000; 3000; 8000; 8000] 0).
    { unfold MAX_RETRIES in *.
      destruct attempt as [|[|[|[|]]]]; try lia;
        unfold backoff_or in *; simpl in *;
        destruct Hms as [Hms|Hms]; try exact Hms.
      exfalso. now apply Hne. }
    assert (Hf : fetches (Acquire :: Fetch url :: Sleep ms :: es') = url :: fetches es')
      by reflexivity.
    assert (Hs : sleeps (Acquire :: Fetch url :: Sleep ms :: es') = ms :: sleeps es')
      by reflexivity.
    assert (Ha : acquired (Acquire :: Fetch url :: Sleep ms :: es') = S (acquired es'))
      by reflexivity.
    rewrite Hf, Hs, Ha. simpl.
    split; [f_equal; exact Hurl|]. split; [f_equal; exact Hacq|].
    split; [left; destruct Hlen as [Hlen|Hnil]; [lia|]; rewrite Hnil; simpl; lia|].
    split.
    - rewrite Hms'. unfold MAX_RETRIES in *.
      destruct attempt as [|[|[|[|]]]]; try lia; simpl in *;
        now apply prefix_cons.
    - intros m Hm. specialize (Hthrew m Hm). lia. }
  assert (Hcatch : forall message,
    (if (attempt =? MAX_RETRIES)%nat
     then Some ([Acquire; Fetch url], @Threw value message)
     else after [Acquire; Fetch url; Sleep (backoff_or attempt 2000)]
                (attempts fuel url net (S attempt))) = Some (es, c) ->
    fetches es = replicate (length (fetches es)) url /\
    acquired es = length (fetches es) /\
    (length (fetches es) + attempt <= S MAX_RETRIES \/ fetches es = [])%nat /\
    sleeps es `prefix_of` drop attempt [1000; 3000; 8000; 8000] /\
    (forall message, c = Threw message ->
       (length (fetches es) + attempt = S MAX_RETRIES)%nat /\
       (length (sleeps es) + attempt = MAX_RETRIES)%nat)).
  { intros m Hc. destruct (Nat.eqb_spec attempt MAX_RETRIES) as [Heq|Hne].
    - now apply (Hstop m).
    - apply (Hgo (backoff_or attempt 2000)); auto. }
  assert (H429 :
    after [Acquire; Fetch url; Sleep (backoff_or attempt 8000)]
          (attempts fuel url net (S attempt)) = Some (es, c) ->
    fetches es = replicate (length (fetches es)) url /\
    acquired es = length (fetches es) /\
    (length (fetches es) + attempt <= S MAX_RETRIES \/ fetches es = [])%nat /\
    sleeps es `prefix_of` drop attempt [1000; 3000; 8000; 8000] /\
    (forall message, c = Threw message ->
       (length (fetches es) + attempt = S MAX_RETRIES)%nat /\
       (length (sleeps es) + attempt = MAX_RETRIES)%nat)).
  { intros Hc. apply (Hgo (backoff_or attempt 8000)); auto.
    intros Heq ->. vm_compute in Heq. discriminate. }
  destruct (net attempt) as [m|st txt [v|m]].
  - now apply (Hcatch m).
  - destruct (ok st).
    + inversion Hrun; subst. simpl. repeat split; auto.
      all: try (left; unfold MAX_RETRIES in *; simpl; lia).
      all: try apply prefix_nil.
      all: discriminate.
    + destruct (st =? 429); [now apply H429|]. now apply (Hcatch _ Hrun).
  - destruct (ok st).
    + now apply (Hcatch m).
    + destruct (st =? 429); [now apply H429|]. now apply (Hcatch _ Hrun).
Qed.

(** With a first success at attempt [a + d], the loop entered at [a] retries
    [d] times and returns that body. *)
Lemma attempts_recovers url net v d :
  forall fuel a,
  (a + d <= MAX_RETRIES)%nat -> (d < fuel)%nat ->
  (forall n, (a <= n < a + d)%nat -> succeeded (net n) = None) ->
  succeeded (net (a + d)%nat) = Some v ->
  exists es,
    attempts fuel url net a = Some (es, Returned v) /\
    fetches es = replicate (S d) url /\
    sleeps es = take d (drop a RETRY_BACKOFF_MS).
Proof.
  induction d as [|d IH]; intros fuel a Hle Hfuel Hfail Hok.
  - destruct fuel as [|fuel]; [lia|]. rewrite Nat.add_0_r in *.
    simpl. apply Nat.leb_le in Hle. rewrite Hle.
    unfold succeeded in Hok.
    destruct (net a) as [m|st txt [w|m]]; try discriminate.
    destruct (ok st); [|discriminate]. inversion Hok; subst w.
    eexists. repeat split.
  - destruct fuel as [|fuel]; [lia|].
    destruct (IH fuel (S a)) as (es & Hrec & Hf & Hs).
    + lia.
    + lia.
    + intros n Hn. apply Hfail. lia.
    + replace (S a + d)%nat with (a + S d)%nat by lia. exact Hok.
    + assert (Ha : (a < MAX_RETRIES)%nat) by lia.
      assert (Hb2 : backoff_or a 2000 :: take d (drop (S a) RETRY_BACKOFF_MS)
                    = take (S d) (drop a RETRY_BACKOFF_MS)).
      { unfold MAX_RETRIES in *. destruct a as [|[|[|]]]; try lia; reflexivity. }
      assert (Hb8 : backoff_or a 8000 = backoff_or a 2000).
      { unfold MAX_RETRIES in *. destruct a as [|[|[|]]]; try lia; reflexivity. }
      simpl attempts.
      assert (Hlea : (a <=? MAX_RETRIES)%nat = true) by (apply Nat.leb_le; lia).
      assert (Hnea : (a =? MAX_RETRIES)%nat = false) by (apply Nat.eqb_neq; lia).
      rewrite Hlea, Hnea, Hrec, Hb8. simpl.
      specialize (Hfail a). unfold succeeded in Hfail.
      exists (Acquire :: Fetch url :: Sleep (backoff_or a 2000) :: es).
      assert (Hshape :
        fetches (Acquire :: Fetch url :: Sleep (backoff_or a 2000) :: es)
          = replicate (S (S d)) url /\
        sleeps (Acquire :: Fetch url :: Sleep (backoff_or a 2000) :: es)
          = take (S d) (drop a RETRY_BACKOFF_MS)).
      { split.
        - change (url :: fetches es = replicate (S (S d)) url). now rewrite Hf.
        - change (backoff_or a 2000 :: sleeps es = take (S d) (drop a RETRY_BACKOFF_MS)).
          now rewrite Hs. }
      destruct (net a) as [m|st txt [w|m]]; [auto| |].
      * destruct (ok st); [specialize (Hfail ltac:(lia)); discriminate|].
        destruct (st =? 429); auto.
      * destruct (ok st); [auto|]. destruct (st =? 429); auto.
Qed.

(** Every run of the loop is a sequence of attempts. *)
Lemma attempts_paced url net fuel : forall attempt es c,
  attempts fuel url net attempt = Some (es, c) -> paced url es.
Proof.
  induction fuel as [|fuel IH]; intros attempt es c Hrun; [discriminate|].
  simpl in Hrun.
  destruct (attempt <=? MAX_RETRIES)%nat;
    [|inversion Hrun; subst; apply paced_nil].
  assert (Hgo : forall ms,
    after [Acquire; Fetch url; Sleep ms] (attempts fuel url net (S attempt))
    = Some (es, c) -> paced url es).
  { intros ms Hafter.
    destruct (attempts fuel url net (S attempt)) as [[es' c']|] eqn:Hrec;
      [|discriminate].
    simpl in Hafter. inversion Hafter; subst es c.
    apply paced_next. now apply (IH _ _ _ Hrec). }
  assert (Hcatch : forall message,
    (if (attempt =? MAX_RETRIES)%nat
     then Some ([Acquire; Fetch url], @Threw value message)
     else after [Acquire; Fetch url; Sleep (backoff_or attempt 2000)]
                (attempts fuel url net (S attempt))) = Some (es, c) ->
    paced url es).
  { intros m Hc. destruct (attempt =? MAX_RETRIES)%nat.
    - inversion Hc; subst. apply paced_last.
    - now apply (Hgo _ Hc). }
  destruct (net attempt) as [m|st txt [v|m]].
  - now apply (Hcatch m).
  - destruct (ok st).
    + inversion Hrun; subst. apply paced_last.
    + destruct (st =? 429); [now apply (Hgo _ Hrun)|now apply (Hcatch _ Hrun)].
  - destruct (ok st).
    + now apply (Hcatch m).
    + destruct (st =? 429); [now apply (Hgo _ Hrun)|now apply (Hcatch _ Hrun)].
Qed.

(** In a sequence of attempts every fetch comes right after an [acquire()],
    and every [acquire()] is followed at once by a fetch. *)
Lemma paced_order url es :
  paced url es ->
  (forall i u, es !! i = Some (Fetch u) ->
     u = url /\ exists j, i = S j /\ es !! j = Some Acquire) /\
  (forall j, es !! j = Some Acquire -> es !! (S j) = Some (Fetch url)).
Proof.
  induction 1 as [| |ms rest Hrest [IHf IHa]].
  - split; intros; discriminate.
  - split.
    + intros [|[|i]] u Hi; try discriminate.
      inversion Hi; subst. split; [reflexivity|]. exists 0%nat. auto.
    + intros [|[|j]] Hj; try discriminate. reflexivity.
  - split.
    + intros [|[|[|i]]] u Hi; try discriminate.
      * inversion Hi; subst. split; [reflexivity|]. exists 0%nat. auto.
      * destruct (IHf i u Hi) as (-> & j & -> & Hj).
        split; [reflexivity|]. exists (S (S (S j))). auto.
    + intros [|[|[|j]]] Hj; try discriminate; [reflexivity|].
      exact (IHa j Hj).
Qed.

(** X1.  Whatever the upstream does, a call ends; it makes between one and
    four fetches of its URL, each after acquiring a rate-limit token -- every
    fetch comes right after an [acquire()] of its own, and every
    [acquire()] is followed at once by a fetch -- and the waits it sleeps
    are an initial part of 1000, 3000, 8000, 8000 ms: the 2000 ms fallback
    of the [catch] block is never slept. *)
Theorem fetchWithRetry_trace url net :
  exists es c,
    fetchWithRetry url net = Some (es, c) /\
    fetches es = replicate (length (fetches es)) url /\
    (1 <= length (fetches es) <= S MAX_RETRIES)%nat /\
    acquired es = length (fetches es) /\
    sleeps es `prefix_of` [1000; 3000; 8000; 8000] /\
    (2000 ∉ sleeps es) /\
    paced url es /\
    (forall i u, es !! i = Some (Fetch u) ->
       u = url /\ exists j, i = S j /\ es !! j = Some Acquire) /\
    (forall j, es !! j = Some Acquire -> es !! (S j) = Some (Fetch url)).
Proof.
  destruct (attempts_total url net (MAX_RETRIES + 2) 0) as (es & c & Hrun);
    [unfold MAX_RETRIES; lia..|].
  destruct (attempts_shape url net _ 0 es c Hrun) as (Hurl & Hacq & Hlen & Hsl & _).
  destruct (attempts_head url net 4 0 es c) as (rest & Hhead);
    [unfold MAX_RETRIES; lia|exact Hrun|].
  pose proof (attempts_paced url net _ 0 es c Hrun) as Hpaced.
  exists es, c. split; [exact Hrun|]. split; [exact Hurl|]. split.
  - split.
    + rewrite Hhead. change (fetches (Acquire :: Fetch url :: rest))
        with (url :: fetches rest). simpl. lia.
    + destruct Hlen as [Hlen|Hnil]; [lia|]. rewrite Hnil. simpl. lia.
  - split; [exact Hacq|]. split; [exact Hsl|]. split.
    + intros Hin. destruct Hsl as [k Hk]. simpl in Hk.
      assert (H2000 : 2000 ∈ [1000; 3000; 8000; 8000])
        by (rewrite Hk; apply elem_of_app; now left).
      repeat (apply elem_of_cons in H2000 as [H2000|H2000]; [discriminate|]).
      now apply elem_of_nil in H2000.
    + split; [exact Hpaced|]. now apply paced_order.
Qed.

(** X2.  Retrying works: when attempt [k] (at most the third retry) is the
    first to get a 2xx response with a JSON body, every earlier attempt
    having failed in whatever way, the call returns that body after exactly
    [k + 1] fetches and the first [k] waits of the backoff schedule. *)
Theorem fetchWithRetry_recovers url net k v :
  (k <= MAX_RETRIES)%nat ->
  (forall n, (n < k)%nat -> succeeded (net n) = None) ->
  succeeded (net k) = Some v ->
  exists es,
    fetchWithRetry url net = Some (es, Returned v) /\
    fetches es = replicate (S k) url /\
    sleeps es = take k RETRY_BACKOFF_MS.
Proof.
  intros Hk Hfail Hok.
  apply (attempts_recovers url net v k (MAX_RETRIES + 2) 0).
  - lia.
  - lia.
  - intros n Hn. apply Hfail. lia.
  - exact Hok.
Qed.

Lemma fetchWithRetry_recovers_witness :
  exists es,
    fetchWithRetry "u" third_time_lucky = Some (es, Returned (Arr [Number 1])) /\
    fetches es = replicate 3 "u" /\
    sleeps es = take 2 RETRY_BACKOFF_MS.
Proof.
  apply (fetchWithRetry_recovers "u" third_time_lucky 2 (Arr [Number 1])).
  - unfold MAX_RETRIES. lia.
  - intros [|[|n]] Hn; [reflexivity|reflexivity|lia].
  - reflexivity.
Defined.

(** X3.  An error reaches the caller only from the last attempt: a call that
    throws has made all four fetches and slept 1000, 3000 and 8000 ms. *)
Theorem fetchWithRetry_throws_last url net es message :
  fetchWithRetry url net = Some (es, Threw message) ->
  fetches es = [url; url; url; url] /\ sleeps es = [1000; 3000; 8000].
Proof.
  intros Hrun.
  destruct (attempts_shape url net _ 0 es _ Hrun) as (Hurl & _ & _ & Hsl & Hthrew).
  destruct (Hthrew message eq_refl) as [Hn Hs].
  rewrite Nat.add_0_r in Hn, Hs. split.
  - rewrite Hurl, Hn. reflexivity.
  - destruct Hsl as [rest Hrest]. simpl in Hrest.
    unfold MAX_RETRIES in Hs.
    destruct (sleeps es) as [|a [|b [|c [|d l]]]]; simpl in Hs; try lia.
    simpl in Hrest. now inversion Hrest.
Qed.

Lemma fetchWithRetry_throws_last_witness :
  fetches [Acquire; Fetch "u"; Sleep 1000; Acquire; Fetch "u"; Sleep 3000;
           Acquire; Fetch "u"; Sleep 8000; Acquire; Fetch "u"]
    = ["u"; "u"; "u"; "u"] /\
  sleeps [Acquire; Fetch "u"; Sleep 1000; Acquire; Fetch "u"; Sleep 3000;
          Acquire; Fetch "u"; Sleep 8000; Acquire; Fetch "u"]
    = [1000; 3000; 8000].
Proof.
  apply (fetchWithRetry_throws_last "u" unreachable _ "ENOTFOUND"). reflexivity.
Defined.

End RetryShape.

(* ------------------------------------------------------------------------- *)
(** ** The rate limiter: the worker loop and its queue *)
(* ------------------------------------------------------------------------- *)

Section LimiterExtras.
Import Limiter.
Variable Date_now : nat -> Z.

Lemma worker_settled q w :
  queue (this w) = q -> processing (this w) = true -> timer w = None ->
  settled (worker Date_now q w).
Proof.
  revert w. induction q as [|r rest IH]; intros w Hq Hproc Htimer; simpl.
  - left. simpl. auto.
  - destruct (_refill_at_frame (Date_now (clock w)) (this w))
      as (Hqueue & Hprocessing & _).
    destruct (0 <? secondTokens (_refill_at (Date_now (clock w)) (this w))) eqn:HS;
      simpl.
    + destruct (0 <? minuteTokens (_refill_at (Date_now (clock w)) (this w))) eqn:HM;
        simpl.
      * apply IH; simpl; congruence.
      * right. simpl. rewrite Hqueue, Hq, Hprocessing, Hproc.
        split; [discriminate|]. split; [reflexivity|]. right.
        assert ((secondTokens (_refill_at (Date_now (clock w)) (this w)) <=? 0) = false)
          as -> by lia.
        split; [reflexivity|]. lia.
    + right. simpl. rewrite Hqueue, Hq, Hprocessing, Hproc.
      split; [discriminate|]. split; [reflexivity|]. left.
      assert ((secondTokens (_refill_at (Date_now (clock w)) (this w)) <=? 0) = true)
        as -> by lia.
      split; [reflexivity|]. lia.
Qed.

Lemma step_settled w e : settled w -> settled (step Date_now w e).
Proof.
  intros [(Hq & Hproc & Htimer)|(Hq & Hproc & Hwait)]; destruct e as [r|]; simpl.
  - unfold acquire, _processQueue. simpl. rewrite Hproc.
    apply worker_settled; simpl; auto.
  - unfold timer_fired. rewrite Htimer. left. auto.
  - unfold acquire, _processQueue. simpl. rewrite Hproc.
    right. simpl. split; [|split; [exact Hproc|exact Hwait]].
    intros Hnil. apply app_eq_nil in Hnil as [_ Hnil]. discriminate.
  - unfold timer_fired.
    assert (exists ms, timer w = Some ms) as [ms ->]
      by (destruct Hwait as [[-> _]|[-> _]]; eauto).
    apply worker_settled; simpl; auto.
Qed.

Lemma run_settled events : forall w, settled w -> settled (run Date_now events w).
Proof.
  induction events as [|e events IH]; intros w Hw; [exact Hw|].
  apply IH. now apply step_settled.
Qed.

(** X4.  No waiter is left without a wake-up.  After any history of
    [acquire()] calls and timer expiries, on any clock, either the queue is
    empty and the worker loop is off, or the loop is on and suspended on a
    timer: 1000 ms when the per-second bucket is empty, 2000 ms when only the
    per-minute bucket is. *)
Theorem limiter_never_stranded cfg clock0 events :
  settled (run Date_now events (new_limiter Date_now cfg clock0)).
Proof. apply run_settled. left. simpl. auto. Qed.

(** A refill never takes tokens away and never goes over the capacity. *)
Lemma _refill_at_tokens now l :
  0 <= perSecond l -> 0 <= perMinute l ->
  secondTokens l <= perSecond l -> minuteTokens l <= perMinute l ->
  secondTokens l <= secondTokens (_refill_at now l) <= perSecond l /\
  minuteTokens l <= minuteTokens (_refill_at now l) <= perMinute l.
Proof.
  intros HS HM HtS HtM. unfold _refill_at.
  destruct (Z.leb_spec 1000 (now - lastSecondRefill l)) as [ES|ES]; simpl;
    destruct (Z.leb_spec 60000 (now - lastMinuteRefill l)) as [EM|EM]; simpl.
  all: try assert (1 <= (now - lastSecondRefill l) / 1000)
         by (apply Z.div_le_lower_bound; lia).
  all: try assert (1 <= (now - lastMinuteRefill l) / 60000)
         by (apply Z.div_le_lower_bound; lia).
  all: split; split; try lia; try (apply Z.min_glb; nia).
Qed.

Lemma burst_run rs : forall w,
  queue (this w) = [] -> processing (this w) = false -> timer w = None ->
  0 <= perSecond (this w) -> 0 <= perMinute (this w) ->
  secondTokens (this w) <= perSecond (this w) ->
  minuteTokens (this w) <= perMinute (this w) ->
  Z.of_nat (length rs) <= secondTokens (this w) ->
  Z.of_nat (length rs) <= minuteTokens (this w) ->
  let w' := run Date_now (map Acquire rs) w in
  map fst (resolved w') = map fst (resolved w) ++ rs /\
  queue (this w') = [] /\ timer w' = None /\ processing (this w') = false.
Proof.
  induction rs as [|r rs IH]; intros w Hq Hproc Htimer HS HM HtS HtM HnS HnM.
  - simpl. rewrite app_nil_r. auto.
  - cbn [map run fold_left step length] in *.
    unfold acquire, _processQueue. simpl. rewrite Hproc, Hq. simpl.
    set (l := set_processing true (push r (this w))).
    assert (Hl : perSecond l = perSecond (this w) /\ perMinute l = perMinute (this w) /\
                 secondTokens l = secondTokens (this w) /\
                 minuteTokens l = minuteTokens (this w)) by (subst l; simpl; auto).
    destruct Hl as (HlS & HlM & HltS & HltM).
    destruct (_refill_at_tokens (Date_now (clock w)) l) as [HrS HrM]; try lia.
    destruct (_refill_at_frame (Date_now (clock w)) l) as (_ & _ & HcS & HcM).
    assert ((0 <? secondTokens (_refill_at (Date_now (clock w)) l)) = true) as -> by lia.
    assert ((0 <? minuteTokens (_refill_at (Date_now (clock w)) l)) = true) as -> by lia.
    simpl.
    match goal with
    | |- context [fold_left (step Date_now) (map Acquire rs) ?w1] =>
        specialize (IH w1)
    end.
    simpl in IH. unfold run in IH.
    destruct IH as (Hres & Hq' & Ht' & Hp'); try (rewrite ?HcS, ?HcM; lia); auto.
    rewrite Hres, map_app. simpl. rewrite <- app_assoc. auto.
Qed.

(** X5.  A fresh limiter serves a burst up to its capacity without waiting:
    the first n [acquire()] calls, n at most both capacities, are all granted
    in the task that makes them, in order, whatever the clock reads. *)
Theorem limiter_burst_capacity cfg clock0 rs :
  Z.of_nat (length rs) <= Config.perSecond cfg ->
  Z.of_nat (length rs) <= Config.perMinute cfg ->
  let w := run Date_now (map Acquire rs) (new_limiter Date_now cfg clock0) in
  map fst (resolved w) = rs /\ queue (this w) = [] /\ timer w = None.
Proof.
  intros HS HM w.
  destruct (burst_run rs (new_limiter Date_now cfg clock0))
    as (Hres & Hq & Ht & _); simpl; try lia; auto.
Qed.

(** X6.  Nothing is lost, duplicated or invented: at any point the grants
    made so far, in the order they were made, followed by the waiters still
    queued, are exactly the [acquire()] calls in the order they arrived. *)
Theorem limiter_conservation cfg clock0 events :
  let w := run Date_now events (new_limiter Date_now cfg clock0) in
  map fst (resolved w) ++ queue (this w) = arrivals events /\
  (length (resolved w) <= length (arrivals events))%nat.
Proof.
  intros w.
  pose proof (run_fifo Date_now events (new_limiter Date_now cfg clock0)) as Hfifo.
  simpl in Hfifo. fold w in Hfifo. split; [exact Hfifo|].
  rewrite <- Hfifo, length_app, length_map. lia.
Qed.

(** X7.  A wait of one second ends with a grant.  On a clock that does not
    go backwards and a limiter with positive rates, when the loop is
    suspended on its 1000 ms timer and the timer fires a second or more after
    the per-second bucket was last refilled, with a token left in the
    per-minute bucket or a minute gone since its last refill, the waiter at
    the head of the queue is granted at that very reading of the clock. *)
Theorem limiter_wait_ends cfg clock0 events :
  monotone Date_now ->
  0 < Config.perSecond cfg -> 0 < Config.perMinute cfg ->
  let w := run Date_now events (new_limiter Date_now cfg clock0) in
  timer w = Some 1000 ->
  lastSecondRefill (this w) + 1000 <= Date_now (clock w) ->
  0 < minuteTokens (this w) \/ lastMinuteRefill (this w) + 60000 <= Date_now (clock w) ->
  exists r rest,
    queue (this w) = r :: rest /\
    resolved (timer_fired Date_now w) !! length (resolved w)
    = Some (r, Date_now (clock w)).
Proof.
  intros Hmono HS HM w Htimer Hsec Hmin.
  assert (Hinv : winv Date_now cfg w).
  { apply winv_run; [exact Hmono|]. apply winv_new; [exact Hmono|lia|lia]. }
  assert (Hset : settled w) by (apply run_settled; left; simpl; auto).
  destruct Hinv as [[HcS HcM] [HrS _ _ _ _] [HrM _ _ _ _] _].
  destruct Hset as [(_ & _ & Hnone)|(Hq & _ & _)]; [congruence|].
  destruct (queue (this w)) as [|r rest] eqn:Eq; [contradiction|].
  exists r, rest. split; [reflexivity|].
  unfold timer_fired. rewrite Htimer, Eq. simpl.
  set (now := Date_now (clock w)) in *.
  assert (HtS : 0 < secondTokens (_refill_at now (this w))).
  { unfold _refill_at.
    assert ((1000 <=? now - lastSecondRefill (this w)) = true) as ->
      by (apply Z.leb_le; lia).
    assert (1 <= (now - lastSecondRefill (this w)) / 1000)
      by (apply Z.div_le_lower_bound; lia).
    destruct (60000 <=? _); simpl; apply Z.min_glb_lt; nia. }
  assert (HtM : 0 < minuteTokens (_refill_at now (this w))).
  { destruct (_refill_at_tokens now (this w)) as [_ [Hup _]]; try lia.
    destruct Hmin as [Hmin|Hmin]; [lia|].
    unfold _refill_at.
    assert (Hlast : forall l',
              lastMinuteRefill l' = lastMinuteRefill (this w) ->
              minuteTokens l' = minuteTokens (this w) ->
              perMinute l' = perMinute (this w) ->
              0 < minuteTokens
                    (if 60000 <=? now - lastMinuteRefill l'
                     then {| perSecond := perSecond l'; perMinute := perMinute l';
                             secondTokens := secondTokens l';
                             minuteTokens :=
                               Z.min (perMinute l')
                                     (minuteTokens l'
                                      + (now - lastMinuteRefill l') / 60000 * perMinute l');
                             lastSecondRefill := lastSecondRefill l';
                             lastMinuteRefill := now;
                             queue := queue l'; processing := processing l' |}
                     else l')).
    { intros l' -> -> ->.
      assert ((60000 <=? now - lastMinuteRefill (this w)) = true) as ->
        by (apply Z.leb_le; lia).
      assert (1 <= (now - lastMinuteRefill (this w)) / 60000)
        by (apply Z.div_le_lower_bound; lia).
      simpl. apply Z.min_glb_lt; nia. }
    destruct (1000 <=? now - lastSecondRefill (this w)); apply Hlast; reflexivity. }
  apply Z.ltb_lt in HtS, HtM. rewrite HtS, HtM. simpl.
  set (w1 := {| this := take rest (_refill_at now (this w));
                clock := S (clock w);
                resolved := resolved w ++ [(r, now)];
                timer := None |}).
  assert (Hkeep : forall q v more,
            resolved v = (resolved w ++ [(r, now)]) ++ more ->
            exists more', resolved (worker Date_now q v)
                          = (resolved w ++ [(r, now)]) ++ more').
  { induction q as [|r' q IH]; intros v more Hv; simpl; [eauto|].
    destruct (_ && _); simpl; [|eauto].
    apply (IH _ (more ++ [(r', Date_now (clock v))])). simpl.
    now rewrite Hv, app_assoc. }
  destruct (Hkeep rest w1 []) as [more Hmore]; [simpl; now rewrite app_nil_r|].
  rewrite Hmore, <- app_assoc. simpl.
  rewrite lookup_app_r by lia. now rewrite Nat.sub_diag.
Qed.

End LimiterExtras.

Lemma limiter_wait_ends_witness :
  let w := Limiter.run Limiter.tick_clock (Limiter.acquires 4)
             (Limiter.new_limiter Limiter.tick_clock Config.OPENF1_RATE_LIMIT 0) in
  exists r rest,
    Limiter.queue (Limiter.this w) = r :: rest /\
    Limiter.resolved (Limiter.timer_fired Limiter.tick_clock w)
      !! length (Limiter.resolved w)
    = Some (r, Limiter.tick_clock (Limiter.clock w)).
Proof.
  apply (limiter_wait_ends Limiter.tick_clock Config.OPENF1_RATE_LIMIT 0%nat
           (Limiter.acquires 4)).
  - intros i j Hij. unfold Limiter.tick_clock.
    destruct (Nat.ltb_spec i 6), (Nat.ltb_spec j 6); lia.
  - simpl. lia.
  - simpl. lia.
  - reflexivity.
  - apply Z.leb_le. reflexivity.
  - left. apply Z.ltb_lt. reflexivity.
Defined.

Lemma limiter_burst_capacity_witness :
  let w := Limiter.run Limiter.burst_clock (map Limiter.Acquire [7; 8; 9]%nat)
             (Limiter.new_limiter Limiter.burst_clock Config.OPENF1_RATE_LIMIT 0) in
  map fst (Limiter.resolved w) = [7; 8; 9]%nat /\
  Limiter.queue (Limiter.this w) = [] /\ Limiter.timer w = None.
Proof.
  apply (limiter_burst_capacity Limiter.burst_clock Config.OPENF1_RATE_LIMIT 0%nat
           [7; 8; 9]%nat); simpl; lia.
Defined.

(* ------------------------------------------------------------------------- *)
(** ** The scheduler and the store *)
(* ------------------------------------------------------------------------- *)

Section SchedulerExtras.
Import JS Firestore Scheduled.
Variable Date_getTime : value -> option Z.
Variable StringToNumber : string -> option Z.
Variable firestore : service.
Variable up : upstream.

(** X8.  [isSessionInLiveWindow] answers false whenever it cannot place the
    session in time: no session, no [date_start] or [date_end], or a date
    that does not parse. *)
Theorem isSessionInLiveWindow_undated now session :
  truthy session = false \/
  truthy (prop session "date_start") = false \/
  truthy (prop session "date_end") = false \/
  Date_getTime (prop session "date_start") = None \/
  Date_getTime (prop session "date_end") = None ->
  isSessionInLiveWindow Date_getTime now session = false.
Proof.
  unfold isSessionInLiveWindow. intros H.
  destruct (truthy session) eqn:E1, (truthy (prop session "date_start")) eqn:E2,
           (truthy (prop session "date_end")) eqn:E3; simpl; try reflexivity.
  destruct H as [H|[H|[H|[H|H]]]]; try discriminate; rewrite H; simpl;
    [reflexivity|].
  destruct (Date_getTime (prop session "date_start")); reflexivity.
Qed.

(** A write of [Promise.all] lands when it is committed and no other write
    of the batch puts different data under the same document. *)
Lemma Promise_all_holds writes : forall db k v ts,
  (forall w, w ∈ writes -> fst w = k -> snd w = v) ->
  commits firestore k v = Returned ts ->
  db !! k = Some {| data := v; updatedAt := ts |} ->
  fst (Promise_all firestore writes db) !! k = Some {| data := v; updatedAt := ts |}.
Proof.
  induction writes as [|[docId d] rest IH]; intros db k v ts Hsame Hcommit Hdb;
    [exact Hdb|].
  assert (Hrest : forall w, w ∈ rest -> fst w = k -> snd w = v)
    by (intros w Hw; apply Hsame; now right).
  simpl. unfold cacheWrite.
  destruct (decide (docId = k)) as [->|Hne].
  - assert (d = v) as -> by (apply (Hsame (k, d)); [left|reflexivity]).
    rewrite Hcommit. apply IH; auto. apply lookup_insert_eq.
  - destruct (commits firestore docId d); simpl; apply IH; auto.
    now rewrite lookup_insert_ne.
Qed.

Lemma Promise_all_lands writes : forall db k v ts,
  (k, v) ∈ writes ->
  (forall w, w ∈ writes -> fst w = k -> snd w = v) ->
  commits firestore k v = Returned ts ->
  fst (Promise_all firestore writes db) !! k = Some {| data := v; updatedAt := ts |}.
Proof.
  induction writes as [|[docId d] rest IH]; intros db k v ts Hin Hsame Hcommit.
  - now apply elem_of_nil in Hin.
  - assert (Hrest : forall w, w ∈ rest -> fst w = k -> snd w = v)
      by (intros w Hw; apply Hsame; now right).
    simpl. unfold cacheWrite.
    destruct (decide (docId = k)) as [->|Hne].
    + assert (d = v) as -> by (apply (Hsame (k, d)); [left|reflexivity]).
      rewrite Hcommit.
      apply Promise_all_holds; auto. apply lookup_insert_eq.
    + apply elem_of_cons in Hin as [Hin|Hin]; [congruence|].
      destruct (commits firestore docId d); simpl; apply IH; auto.
Qed.

Lemma push_if_data v docIds w : w ∈ push_if v docIds -> snd w = v.
Proof.
  unfold push_if. destruct (truthy v); intros Hw.
  - apply list_elem_of_fmap in Hw as (docId & -> & _). reflexivity.
  - now apply elem_of_nil in Hw.
Qed.

Lemma live_writes_source sessionKey w :
  w ∈ live_writes up sessionKey ->
  exists e, e ∈ live_resources up sessionKey /\
            truthy (or_null (fst e)) = true /\ fst w ∈ snd e /\
            snd w = or_null (fst e).
Proof.
  unfold live_writes, live_resources. intros Hw.
  repeat (apply elem_of_app in Hw as [Hw|Hw]);
    pose proof (push_if_data _ _ _ Hw) as Hdata;
    apply push_if_elem in Hw as [Ht Hin];
    eexists (_, _); (split; [|split; [exact Ht|split; [exact Hin|exact Hdata]]]);
    repeat first [apply list_elem_of_here | apply list_elem_of_further].
Qed.

Lemma live_writes_made sessionKey e k :
  e ∈ live_resources up sessionKey -> truthy (or_null (fst e)) = true ->
  k ∈ snd e -> (k, or_null (fst e)) ∈ live_writes up sessionKey.
Proof.
  unfold live_writes, live_resources, push_if. intros He Ht Hk.
  repeat match goal with
  | H : _ ∈ _ :: _ |- _ => apply elem_of_cons in H as [H|H]
  | H : _ ∈ [] |- _ => apply elem_of_nil in H; contradiction
  end; subst e; simpl in *; rewrite Ht;
  repeat match goal with
  | H : _ ∈ _ :: _ |- _ => apply elem_of_cons in H as [H|H]
  | H : _ ∈ [] |- _ => apply elem_of_nil in H; contradiction
  end; subst k;
  repeat (apply elem_of_app; first [left; simpl; solve
    [repeat first [apply list_elem_of_here | apply list_elem_of_further]] | right]);
  simpl; repeat first [apply list_elem_of_here | apply list_elem_of_further].
Qed.

(** X9.  The live gate.  When the sessions request comes back with no
    session, or with one that is outside its live window, [refreshLiveData]
    touches no document but [latest_session]: that one is overwritten if
    the write is committed, and nothing changes at all if it is rejected. *)
Theorem refreshLiveData_gate now db sessions :
  fetchSessions up latest_query = Returned sessions ->
  truthy (latest_of StringToNumber sessions) = false \/
  isSessionInLiveWindow Date_getTime now (latest_of StringToNumber sessions) = false ->
  let db' := fst (refreshLiveData Date_getTime StringToNumber firestore up now db) in
  (forall k, k <> "latest_session" -> db' !! k = db !! k) /\
  (forall ts,
     commits firestore "latest_session" (latest_of StringToNumber sessions) = Returned ts ->
     db' = <["latest_session" :=
               {| data := latest_of StringToNumber sessions; updatedAt := ts |}]> db) /\
  (forall message,
     commits firestore "latest_session" (latest_of StringToNumber sessions) = Threw message ->
     db' = db).
Proof.
  intros Hfetch Hgate.
  set (latest := latest_of StringToNumber sessions) in *.
  assert (Heq :
    fst (refreshLiveData Date_getTime StringToNumber firestore up now db)
    = fst (cacheWrite firestore "latest_session" latest db)).
  { unfold refreshLiveData, try_catch, bind, await, ret.
    fold latest_query. rewrite Hfetch. fold latest.
    destruct (cacheWrite firestore "latest_session" latest db) as [db1 [[]|m]];
      simpl; [|reflexivity].
    destruct Hgate as [Hnone|Hout].
    - rewrite Hnone. reflexivity.
    - destruct (truthy latest); simpl; [|reflexivity]. rewrite Hout. reflexivity. }
  cbv zeta. rewrite Heq. unfold cacheWrite.
  destruct (commits firestore "latest_session" latest) as [ts|m]; simpl.
  - repeat split.
    + intros k Hk. now rewrite lookup_insert_ne.
    + now intros ts' [= ->].
    + discriminate.
  - repeat split; auto. discriminate.
Qed.

(** X10.  Live resources are refreshed independently.  In the live window,
    with [latest_session] written, a resource whose fetch returned a truthy
    value has it stored under each of its documents as soon as that write is
    committed -- whatever the other six fetches and the other writes do. *)
Theorem live_resource_isolated now db sessions ts0 e v k ts :
  fetchSessions up latest_query = Returned sessions ->
  commits firestore "latest_session" (latest_of StringToNumber sessions) = Returned ts0 ->
  isSessionInLiveWindow Date_getTime now (latest_of StringToNumber sessions) = true ->
  e ∈ live_resources up (prop (latest_of StringToNumber sessions) "session_key") ->
  fst e = Returned v -> truthy v = true -> k ∈ snd e ->
  commits firestore k v = Returned ts ->
  fst (refreshLiveData Date_getTime StringToNumber firestore up now db) !! k
  = Some {| data := v; updatedAt := ts |}.
Proof.
  intros Hfetch Hcommit0 Hlive He Hv Htruthy Hk Hcommit.
  set (latest := latest_of StringToNumber sessions) in *.
  assert (Hlatest : truthy latest = true).
  { destruct (truthy latest) eqn:E; [reflexivity|].
    unfold isSessionInLiveWindow in Hlive. rewrite E in Hlive. discriminate. }
  assert (Hor : or_null (fst e) = v) by now rewrite Hv.
  unfold refreshLiveData, try_catch, bind, await, ret, cacheWrite.
  fold latest_query. rewrite Hfetch. fold latest.
  rewrite Hcommit0, Hlatest, Hlive. simpl.
  assert (Hlands :
    fst (Promise_all firestore (live_writes up (prop latest "session_key"))
           (<["latest_session" := {| data := latest; updatedAt := ts0 |}]> db)) !! k
    = Some {| data := v; updatedAt := ts |}).
  { apply Promise_all_lands; [| |exact Hcommit].
    - rewrite <- Hor. apply live_writes_made; auto. now rewrite Hor.
    - intros w Hw Hkey.
      apply live_writes_source in Hw as (e' & He' & Ht' & Hin' & Hdata).
      rewrite Hkey in Hin'.
      assert (e' = e) as -> by (eapply live_resources_disjoint; eauto).
      now rewrite Hdata. }
  destruct (Promise_all firestore _ _) as [db' [[]|m]]; exact Hlands.
Qed.

(** X11.  A failing meeting does not take the batch with it.  When the
    calendar is an array of objects and has been stored, every meeting whose
    sessions could be fetched has them under [sessions_<meetingKey>] as soon
    as that write is committed, whatever happens to the other meetings
    (provided no other meeting of the array maps to the same document). *)
Theorem refreshMeetings_isolated year db data meetings ts0 m s ts :
  fetchMeetings up year = Returned data ->
  commits firestore ("meetings_" +:+ pretty year) data = Returned ts0 ->
  iterate data = Some meetings ->
  Forall (fun m => nullish m = false) meetings ->
  m ∈ meetings ->
  (forall m', m' ∈ meetings ->
     ToString (prop m' "meeting_key") = ToString (prop m "meeting_key") ->
     prop m' "meeting_key" = prop m "meeting_key") ->
  fetchSessions up (Obj [("meeting_key", prop m "meeting_key")]) = Returned s ->
  commits firestore ("sessions_" +:+ ToString (prop m "meeting_key")) s = Returned ts ->
  fst (refreshMeetings firestore up year db)
    !! ("sessions_" +:+ ToString (prop m "meeting_key"))
  = Some {| data := s; updatedAt := ts |}.
Proof. apply refreshMeetings_lands. Qed.

End SchedulerExtras.

Section SchedulerExamples.
Import JS Firestore Scheduled.

Lemma isSessionInLiveWindow_undated_witness :
  isSessionInLiveWindow epoch_ms 43200000
    (Obj [("session_key", Number 9158);
          ("date_start", Str "TBC");
          ("date_end", Number 46800000)]) = false.
Proof.
  apply (isSessionInLiveWindow_undated epoch_ms).
  right. right. right. left. reflexivity.
Defined.

Lemma refreshLiveData_gate_witness :
  let db' := fst (refreshLiveData epoch_ms no_numeric_strings steady patchy 0 tracked) in
  (forall k, k <> "latest_session" -> db' !! k = tracked !! k) /\
  (forall ts,
     commits steady "latest_session" (latest_of no_numeric_strings (Arr [a_session]))
     = Returned ts ->
     db' = <["latest_session" :=
               {| data := latest_of no_numeric_strings (Arr [a_session]);
                  updatedAt := ts |}]> tracked) /\
  (forall message,
     commits steady "latest_session" (latest_of no_numeric_strings (Arr [a_session]))
     = Threw message ->
     db' = tracked).
Proof.
  apply (refreshLiveData_gate epoch_ms no_numeric_strings steady patchy 0 tracked
           (Arr [a_session])).
  - reflexivity.
  - right. reflexivity.
Defined.

Lemma live_resource_isolated_witness :
  fst (refreshLiveData epoch_ms no_numeric_strings steady race_week 43200000 ∅)
    !! "positions_9158"
  = Some {| data := Arr [Obj [("position", Number 1)]]; updatedAt := 2 |}.
Proof.
  apply (live_resource_isolated epoch_ms no_numeric_strings steady race_week
           43200000 ∅ (Arr [a_session]) 2
           (fetchPositions race_week (Number 9158), ["positions_9158"])
           (Arr [Obj [("position", Number 1)]]) "positions_9158" 2).
  - reflexivity.
  - reflexivity.
  - reflexivity.
  - apply list_elem_of_here.
  - reflexivity.
  - reflexivity.
  - apply list_elem_of_here.
  - reflexivity.
Defined.

Lemma refreshMeetings_isolated_witness :
  fst (refreshMeetings steady race_week 2026 ∅) !! "sessions_1229"
  = Some {| data := Arr [Obj [("session_key", Number 9158)]]; updatedAt := 2 |}.
Proof.
  apply (refreshMeetings_isolated steady race_week 2026 ∅
           (Arr [Obj [("meeting_key", Number 1229)]; Obj [("meeting_key", Number 1230)]])
           [Obj [("meeting_key", Number 1229)]; Obj [("meeting_key", Number 1230)]]
           2 (Obj [("meeting_key", Number 1229)])
           (Arr [Obj [("session_key", Number 9158)]]) 2).
  - reflexivity.
  - reflexivity.
  - reflexivity.
  - repeat constructor.
  - apply list_elem_of_here.
  - intros m' Hm' Hkey.
    apply elem_of_cons in Hm' as [->|Hm']; [reflexivity|].
    apply elem_of_cons in Hm' as [->|Hm']; [vm_compute in Hkey; discriminate|].
    now apply elem_of_nil in Hm'.
  - reflexivity.
  - reflexivity.
Defined.

End SchedulerExamples.


Section WrittenKeys.
Import JS Firestore Scheduled.
Variable Date_getTime : value -> option Z.
Variable StringToNumber : string -> option Z.

Lemma refreshStandings_other firestore up year db k :
  k <> "driver_standings_" +:+ pretty year ->
  k <> "constructor_standings_" +:+ pretty year ->
  fst (refreshStandings firestore up year db) !! k = db !! k.
Proof.
  intros Hd Hc. unfold refreshStandings, try_catch, bind, throw, ret.
  destruct (fetchDriverStandings up year) as [ds|e];
    destruct (fetchConstructorStandings up year) as [cs|e']; try reflexivity.
  pose proof (Promise_all_frame firestore
                [("driver_standings_" +:+ pretty year, ds);
                 ("constructor_standings_" +:+ pretty year, cs)] db k) as Hall.
  destruct (Promise_all firestore _ db) as [db' [[]|e]]; simpl in *.
  - destruct (nullish ds || nullish cs); simpl; apply Hall;
      intros w Hw; repeat (apply elem_of_cons in Hw as [->|Hw]); simpl;
        try congruence; now apply elem_of_nil in Hw.
  - apply Hall.
    intros w Hw; repeat (apply elem_of_cons in Hw as [->|Hw]); simpl;
      try congruence; now apply elem_of_nil in Hw.
Qed.

Lemma refreshLiveData_other firestore up now db k :
  k <> "latest_session" ->
  (forall sessionKey w, w ∈ live_writes up sessionKey -> fst w <> k) ->
  fst (refreshLiveData Date_getTime StringToNumber firestore up now db) !! k = db !! k.
Proof.
  intros Hne Hother. unfold refreshLiveData, try_catch, bind, await, ret.
  destruct (fetchSessions up _) as [sessions|e]; [|reflexivity].
  set (latest := latest_of StringToNumber sessions).
  pose proof (cacheWrite_frame firestore "latest_session" latest db k Hne) as Hw.
  destruct (cacheWrite firestore "latest_session" latest db) as [db1 [[]|e]];
    simpl in *; [|exact Hw].
  destruct (truthy latest); simpl; [|exact Hw].
  destruct (isSessionInLiveWindow Date_getTime now latest); simpl; [|exact Hw].
  pose proof (Promise_all_frame firestore
                (live_writes up (prop latest "session_key")) db1 k (Hother _)) as Hall.
  destruct (Promise_all firestore _ db1) as [db2 [[]|e]]; simpl in *; congruence.
Qed.

Lemma refreshBaseData_other firestore up db k :
  k <> "latest_session" -> k <> "drivers_latest" ->
  (forall sk, k <> "drivers_" +:+ sk) ->
  fst (refreshBaseData StringToNumber firestore up db) !! k = db !! k.
Proof.
  intros Hne Hlatest Hdrivers. unfold refreshBaseData, try_catch, bind, await, ret.
  destruct (fetchSessions up _) as [sessions|e]; [|reflexivity].
  set (latest := latest_of StringToNumber sessions).
  pose proof (cacheWrite_frame firestore "latest_session" latest db k Hne) as Hw.
  destruct (cacheWrite firestore "latest_session" latest db) as [db1 [[]|e]];
    simpl in *; [|exact Hw].
  destruct (truthy latest); simpl; [|exact Hw].
  destruct (fetchDrivers up (prop latest "session_key")) as [drivers|e];
    simpl; [|exact Hw].
  destruct (truthy drivers); simpl; [|exact Hw].
  pose proof (cacheWrite_frame firestore
                ("drivers_" +:+ ToString (prop latest "session_key")) drivers db1 k
                (Hdrivers _)) as Hw1.
  destruct (cacheWrite firestore ("drivers_" +:+ _) drivers db1) as [db2 [[]|e]];
    simpl in *; [|congruence].
  pose proof (cacheWrite_frame firestore "drivers_latest" drivers db2 k Hlatest) as Hw2.
  destruct (cacheWrite firestore "drivers_latest" drivers db2) as [db3 [[]|e]];
    simpl in *; congruence.
Qed.

(** X12.  No scheduled job ever writes a session result.  Whatever the
    upstream and the store do, and however many times the four jobs run, the
    documents [result_<sessionKey>] -- the ones [getSessionResult] serves --
    are left exactly as they were. *)
Theorem result_documents_never_written runs db suffix :
  invoke_all Date_getTime StringToNumber runs db !! ("result_" +:+ suffix)
  = db !! ("result_" +:+ suffix).
Proof.
  revert db. induction runs as [|[[firestore up] which] runs IH]; intros db;
    [reflexivity|].
  unfold invoke_all in *. simpl. rewrite IH. clear IH.
  destruct which as [year|year|now|]; simpl.
  - apply refreshMeetings_frame; [discriminate|].
    intros data meetings meeting _ _ _ _ Hkey. simpl in Hkey. discriminate.
  - apply refreshStandings_other; discriminate.
  - apply refreshLiveData_other; [discriminate|].
    intros sessionKey w Hw Hk.
    apply live_writes_elem in Hw as (e & He & _ & Hin). rewrite Hk in Hin.
    unfold live_resources in He.
    repeat match goal with
    | H : _ ∈ _ :: _ |- _ => apply elem_of_cons in H as [H|H]
    | H : _ ∈ [] |- _ => apply elem_of_nil in H; contradiction
    end; subst e; simpl in *;
    repeat match goal with
    | H : _ ∈ _ :: _ |- _ => apply elem_of_cons in H as [H|H]
    | H : _ ∈ [] |- _ => apply elem_of_nil in H; contradiction
    end; simpl in *; discriminate.
  - apply refreshBaseData_other; discriminate.
Qed.

(** X13.  Standings are stored as lists, whatever Jolpica answers.  When both
    requests settle and both writes are committed, [refreshStandings] leaves
    under each document what [data?.MRData?.StandingsTable?.StandingsLists?.[0]]
    holds for it, or the empty array -- never [null] or [undefined], even for
    an answer that is [null] or lacks the table. *)
Theorem refreshStandings_stores_lists firestore up year jd jc ts1 ts2 db :
  fetchDriverStandings up year = fetchStandings "DriverStandings" (Returned jd) ->
  fetchConstructorStandings up year
  = fetchStandings "ConstructorStandings" (Returned jc) ->
  commits firestore ("driver_standings_" +:+ pretty year)
    (standings_of "DriverStandings" jd) = Returned ts1 ->
  commits firestore ("constructor_standings_" +:+ pretty year)
    (standings_of "ConstructorStandings" jc) = Returned ts2 ->
  let db' := fst (refreshStandings firestore up year db) in
  db' !! ("driver_standings_" +:+ pretty year)
  = Some {| data := standings_of "DriverStandings" jd; updatedAt := ts1 |} /\
  db' !! ("constructor_standings_" +:+ pretty year)
  = Some {| data := standings_of "ConstructorStandings" jc; updatedAt := ts2 |} /\
  truthy (standings_of "DriverStandings" jd) = true /\
  truthy (standings_of "ConstructorStandings" jc) = true /\
  (nullish jd = true -> standings_of "DriverStandings" jd = Arr []).
Proof.
  intros Hd Hc Hw1 Hw2.
  assert (Htruthy : forall field data, truthy (standings_of field data) = true).
  { intros field data. unfold standings_of.
    destruct (truthy (opt_prop _ field)) eqn:E; [exact E|reflexivity]. }
  assert (Hnn : forall field data, nullish (standings_of field data) = false).
  { intros field data. specialize (Htruthy field data).
    destruct (standings_of field data); try discriminate; reflexivity. }
  cbv zeta. unfold refreshStandings, try_catch, bind, throw, ret.
  rewrite Hd, Hc. simpl. unfold cacheWrite. rewrite Hw1, Hw2. simpl.
  rewrite !Hnn. simpl.
  split; [|split; [|split; [|split]]]; auto.
  - rewrite lookup_insert_ne by discriminate. apply lookup_insert_eq.
  - apply lookup_insert_eq.
  - intros Hnull. unfold standings_of, opt_prop, opt_elem0. rewrite Hnull. reflexivity.
Qed.

End WrittenKeys.

Lemma refreshStandings_stores_lists_witness :
  let db' := fst (Scheduled.refreshStandings Scheduled.steady
                    (Scheduled.with_jolpica
                       (JS.Returned Scheduled.a_standings_response)
                       (JS.Returned JS.Null)) 2026 ∅) in
  db' !! "driver_standings_2026"
  = Some {| Firestore.data := JS.Arr [JS.Obj [("position", JS.Str "1")]];
            Firestore.updatedAt := 2 |} /\
  db' !! "constructor_standings_2026"
  = Some {| Firestore.data := JS.Arr []; Firestore.updatedAt := 2 |}.
Proof.
  destruct (refreshStandings_stores_lists Scheduled.steady
              (Scheduled.with_jolpica
                 (JS.Returned Scheduled.a_standings_response)
                 (JS.Returned JS.Null))
              2026 Scheduled.a_standings_response JS.Null 2 2 ∅)
    as (Hd & Hc & _); try reflexivity.
  split; [exact Hd|exact Hc].
Defined.

(* ------------------------------------------------------------------------- *)
(** ** The IP rate limiter *)
(* ------------------------------------------------------------------------- *)

Section MiddlewareExtras.
Import JS Middleware.

(** One request inside the window of its address: it is counted, and let
    through while the count stays within the limit. *)
Lemma checkRateLimit_within now req res hits c w :
  hits !! client_ip req = Some {| count := c; windowStart := w |} ->
  now - w <= Config.IP_RATE_LIMIT.windowMs ->
  fst (fst (checkRateLimit now req res hits)) = (c + 1 <=? Config.IP_RATE_LIMIT.maxRequests) /\
  snd (checkRateLimit now req res hits)
  = <[client_ip req := {| count := c + 1; windowStart := w |}]> hits.
Proof.
  intros Hhit Hin. unfold checkRateLimit. rewrite Hhit. simpl.
  assert ((Config.IP_RATE_LIMIT.windowMs <? now - w) = false) as ->
    by now apply Z.ltb_ge.
  simpl. rewrite Z.leb_antisym.
  destruct (Config.IP_RATE_LIMIT.maxRequests <? c + 1); auto.
Qed.

(** One request from an address with no entry, or with one whose window is
    over: a new window starts with it and it is let through. *)
Lemma checkRateLimit_opens now req res hits :
  match hits !! client_ip req with
  | Some e => Config.IP_RATE_LIMIT.windowMs < now - windowStart e
  | None => True
  end ->
  checkRateLimit now req res hits
  = (true, res, <[client_ip req := {| count := 1; windowStart := now |}]> hits).
Proof.
  intros Hopen. unfold checkRateLimit.
  destruct (hits !! client_ip req) as [e|].
  - apply Z.ltb_lt in Hopen. rewrite Hopen. reflexivity.
  - reflexivity.
Qed.

Lemma checkRateLimit_each_within ip w arrivals : forall hits c,
  hits !! ip = Some {| count := c; windowStart := w |} ->
  Forall (fun a => client_ip (snd a) = ip /\
                   fst a - w <= Config.IP_RATE_LIMIT.windowMs) arrivals ->
  map fst (fst (checkRateLimit_each arrivals hits))
  = map (fun j => c + Z.of_nat j + 1 <=? Config.IP_RATE_LIMIT.maxRequests)
        (seq 0 (length arrivals)) /\
  snd (checkRateLimit_each arrivals hits) !! ip
  = Some {| count := c + Z.of_nat (length arrivals); windowStart := w |}.
Proof.
  induction arrivals as [|[now req] rest IH]; intros hits c Hhit Hall.
  - simpl. rewrite Z.add_0_r. auto.
  - inversion Hall as [|? ? Hhead Hrest]; subst.
    destruct Hhead as [Hip Hin]. simpl in Hip, Hin. subst ip.
    destruct (checkRateLimit_within now req fresh_response hits c w Hhit Hin)
      as [Hok Hmap].
    simpl. destruct (checkRateLimit now req fresh_response hits) as [[ok res1] hits1].
    simpl in Hok, Hmap. subst ok hits1.
    specialize (IH (<[client_ip req := {| count := c + 1; windowStart := w |}]> hits)
                   (c + 1)).
    destruct (checkRateLimit_each rest _) as [told hits2]. simpl in *.
    destruct IH as [IHv IHm]; [now rewrite lookup_insert_eq|exact Hrest|].
    split.
    + f_equal; [f_equal; lia|].
      rewrite IHv, <- seq_shift, map_map.
      apply map_ext. intros j. f_equal. lia.
    + rewrite IHm. do 2 f_equal. lia.
Qed.

(** X14.  The quota of a window.  From the request that opens a window --
    the first from its address, or the first after the previous window ran
    out -- the requests of that address arriving within [windowMs] of it are
    let through up to the sixtieth and refused from the sixty-first on;
    refused requests are counted too. *)
Theorem checkRateLimit_quota t0 req0 rest hits :
  match hits !! client_ip req0 with
  | Some e => Config.IP_RATE_LIMIT.windowMs < t0 - windowStart e
  | None => True
  end ->
  Forall (fun a => client_ip (snd a) = client_ip req0 /\
                   fst a - t0 <= Config.IP_RATE_LIMIT.windowMs) rest ->
  map fst (fst (checkRateLimit_each ((t0, req0) :: rest) hits))
  = map (fun j => Z.of_nat j <? Config.IP_RATE_LIMIT.maxRequests)
        (seq 0 (S (length rest))) /\
  snd (checkRateLimit_each ((t0, req0) :: rest) hits) !! client_ip req0
  = Some {| count := Z.of_nat (S (length rest)); windowStart := t0 |}.
Proof.
  intros Hopen Hrest.
  change (checkRateLimit_each ((t0, req0) :: rest) hits)
    with (let '(allowed, res, ipHits1) := checkRateLimit t0 req0 fresh_response hits in
          let '(told, ipHits2) := checkRateLimit_each rest ipHits1 in
          ((allowed, res) :: told, ipHits2)).
  rewrite checkRateLimit_opens by exact Hopen.
  destruct (checkRateLimit_each_within (client_ip req0) t0 rest
              (<[client_ip req0 := {| count := 1; windowStart := t0 |}]> hits) 1)
    as [Hv Hm]; [apply lookup_insert_eq|exact Hrest|].
  destruct (checkRateLimit_each rest _) as [told hits2]. simpl in *.
  split.
  - f_equal. rewrite Hv, <- seq_shift, map_map.
    apply map_ext. intros j.
    unfold Config.IP_RATE_LIMIT.maxRequests.
    destruct (Z.leb_spec (1 + Z.of_nat j + 1) 60), (Z.ltb_spec (Z.of_nat (S j)) 60);
      (reflexivity || lia).
  - rewrite Hm. do 2 f_equal. lia.
Qed.

(** A request leaves the entries of the other addresses alone. *)
Lemma checkRateLimit_other now req res hits ip :
  client_ip req <> ip ->
  snd (checkRateLimit now req res hits) !! ip = hits !! ip.
Proof.
  intros Hne. unfold checkRateLimit.
  destruct (_ <? count _); simpl; now rewrite lookup_insert_ne.
Qed.

(** What a request is told, and the entry it leaves for its address, depend
    on the map through that entry only. *)
Lemma checkRateLimit_local now req res hits1 hits2 :
  hits1 !! client_ip req = hits2 !! client_ip req ->
  fst (checkRateLimit now req res hits1) = fst (checkRateLimit now req res hits2) /\
  snd (checkRateLimit now req res hits1) !! client_ip req
  = snd (checkRateLimit now req res hits2) !! client_ip req.
Proof.
  intros Hsame. unfold checkRateLimit. rewrite Hsame.
  destruct (_ <? count _); simpl; now rewrite !lookup_insert_eq.
Qed.

Lemma checkRateLimit_each_own ip arrivals : forall hits1 hits2,
  hits1 !! ip = hits2 !! ip ->
  snd (checkRateLimit_each arrivals hits1) !! ip
  = snd (checkRateLimit_each (filter (fun a => client_ip (snd a) = ip) arrivals) hits2)
      !! ip.
Proof.
  induction arrivals as [|[now req] rest IH]; intros hits1 hits2 Hsame;
    [exact Hsame|].
  destruct (decide (client_ip req = ip)) as [Hip|Hip].
  - rewrite filter_cons_True by exact Hip. simpl.
    destruct (checkRateLimit_local now req fresh_response hits1 hits2) as [_ Hentry];
      [now rewrite Hip|].
    rewrite Hip in Hentry.
    destruct (checkRateLimit now req fresh_response hits1) as [[ok1 res1] h1].
    destruct (checkRateLimit now req fresh_response hits2) as [[ok2 res2] h2].
    simpl in Hentry. specialize (IH h1 h2 Hentry).
    destruct (checkRateLimit_each rest h1) as [told1 h1'].
    destruct (checkRateLimit_each _ h2) as [told2 h2']. exact IH.
  - rewrite filter_cons_False by exact Hip. simpl.
    pose proof (checkRateLimit_other now req fresh_response hits1 ip Hip) as Hother.
    destruct (checkRateLimit now req fresh_response hits1) as [[ok1 res1] h1].
    simpl in Hother. specialize (IH h1 hits2). rewrite Hother in IH.
    specialize (IH Hsame).
    destruct (checkRateLimit_each rest h1) as [told1 h1']. exact IH.
Qed.

(** X15.  Addresses are limited independently.  After any history of
    requests, what a request is told -- let through, or refused and for how
    long -- is what it would be told had the requests of the other
    addresses never arrived. *)
Theorem checkRateLimit_isolated arrivals hits now req res :
  fst (checkRateLimit now req res (snd (checkRateLimit_each arrivals hits)))
  = fst (checkRateLimit now req res
           (snd (checkRateLimit_each
                   (filter (fun a => client_ip (snd a) = client_ip req) arrivals) hits))).
Proof.
  apply checkRateLimit_local, checkRateLimit_each_own. reflexivity.
Qed.

(** X16.  What [retryAfterMs] promises.  A refused request is answered 429
    with a [retryAfterMs] that is not negative, and a later request from
    the same address is let through exactly when it comes more than
    [retryAfterMs] after the refused one: at [retryAfterMs] sharp it is
    still refused. *)
Theorem checkRateLimit_retry_after now req res hits res' hits' :
  checkRateLimit now req res hits = (false, res', hits') ->
  exists r,
    res' = send 429 (Json (Obj [("error", Str "Too many requests");
                                ("retryAfterMs", Number r)])) res /\
    0 <= r /\
    forall later req2 res2, client_ip req2 = client_ip req ->
      fst (fst (checkRateLimit later req2 res2 hits')) = (now + r <? later).
Proof.
  unfold checkRateLimit at 1.
  set (entry := match hits !! client_ip req with
                | Some e => if Config.IP_RATE_LIMIT.windowMs <? now - windowStart e
                            then {| count := 0; windowStart := now |} else e
                | None => {| count := 0; windowStart := now |}
                end).
  simpl.
  destruct (Config.IP_RATE_LIMIT.maxRequests <? count entry + 1) eqn:Hover;
    [|discriminate].
  intros [= <- <-].
  apply Z.ltb_lt in Hover.
  assert (Hin : now - windowStart entry <= Config.IP_RATE_LIMIT.windowMs).
  { subst entry. destruct (hits !! client_ip req) as [e|].
    - destruct (Z.ltb_spec Config.IP_RATE_LIMIT.windowMs (now - windowStart e));
        [|assumption].
      simpl in Hover. unfold Config.IP_RATE_LIMIT.maxRequests in Hover. lia.
    - simpl in Hover. unfold Config.IP_RATE_LIMIT.maxRequests in Hover. lia. }
  exists (Config.IP_RATE_LIMIT.windowMs - (now - windowStart entry)).
  split; [reflexivity|]. split; [lia|].
  intros later req2 res2 Hip. unfold checkRateLimit. rewrite Hip, lookup_insert_eq.
  simpl.
  destruct (Z.ltb_spec Config.IP_RATE_LIMIT.windowMs (later - windowStart entry)),
           (Z.ltb_spec (now + (Config.IP_RATE_LIMIT.windowMs - (now - windowStart entry)))
                       later); try lia; simpl.
  - reflexivity.
  - assert ((Config.IP_RATE_LIMIT.maxRequests <? count entry + 1 + 1) = true) as ->
      by (apply Z.ltb_lt; lia).
    reflexivity.
Qed.

Lemma cleanup_swept now hits : swept now (cleanup now hits) hits.
Proof.
  intros ip. unfold cleanup.
  destruct (hits !! ip) as [e|] eqn:Hhit.
  - destruct (decide (Config.IP_RATE_LIMIT.windowMs * 2 < now - windowStart e))
      as [Hold|Hyoung].
    + right. split; [|eauto].
      apply map_lookup_filter_None. right. intros e' He'. simpl.
      rewrite Hhit in He'. inversion He'; subst e'. auto.
    + left. apply map_lookup_filter_Some. auto.
  - left. apply map_lookup_filter_None. auto.
Qed.

Lemma checkRateLimit_swept now later req res hits1 hits2 :
  now <= later -> swept now hits1 hits2 ->
  fst (checkRateLimit later req res hits1) = fst (checkRateLimit later req res hits2) /\
  swept now (snd (checkRateLimit later req res hits1))
            (snd (checkRateLimit later req res hits2)).
Proof.
  intros Hle Hswept.
  assert (Hentry :
    match hits1 !! client_ip req with
    | Some e => if Config.IP_RATE_LIMIT.windowMs <? later - windowStart e
                then {| count := 0; windowStart := later |} else e
    | None => {| count := 0; windowStart := later |}
    end
    = match hits2 !! client_ip req with
      | Some e => if Config.IP_RATE_LIMIT.windowMs <? later - windowStart e
                  then {| count := 0; windowStart := later |} else e
      | None => {| count := 0; windowStart := later |}
      end).
  { destruct (Hswept (client_ip req)) as [->|(-> & e & -> & Hold)]; [reflexivity|].
    assert ((Config.IP_RATE_LIMIT.windowMs <? later - windowStart e) = true) as ->
      by (apply Z.ltb_lt; unfold Config.IP_RATE_LIMIT.windowMs in *; lia).
    reflexivity. }
  unfold checkRateLimit. rewrite Hentry.
  destruct (_ <? count _); simpl; (split; [reflexivity|]);
    intros ip; (destruct (decide (ip = client_ip req)) as [->|Hne];
      [left; now rewrite !lookup_insert_eq
      |rewrite !lookup_insert_ne by congruence; apply Hswept]).
Qed.

(** X17.  The periodic clean-up is invisible.  Whatever the map holds when
    the clean-up runs, the requests that arrive afterwards (the clock not
    going backwards) are told exactly what they would have been told
    without it. *)
Theorem cleanup_transparent now arrivals hits :
  Forall (fun a => now <= fst a) arrivals ->
  fst (checkRateLimit_each arrivals (cleanup now hits))
  = fst (checkRateLimit_each arrivals hits).
Proof.
  intros Hlater. pose proof (cleanup_swept now hits) as Hswept.
  revert Hswept. generalize (cleanup now hits) as hits1. revert hits.
  induction Hlater as [|[later req] rest Hle _ IH]; intros hits2 hits1 Hswept;
    [reflexivity|].
  simpl in Hle. simpl.
  destruct (checkRateLimit_swept now later req fresh_response hits1 hits2 Hle Hswept)
    as [Hsame Hswept'].
  destruct (checkRateLimit later req fresh_response hits1) as [[ok1 res1] h1].
  destruct (checkRateLimit later req fresh_response hits2) as [[ok2 res2] h2].
  simpl in Hsame, Hswept'. inversion Hsame; subst ok2 res2.
  specialize (IH h2 h1 Hswept').
  destruct (checkRateLimit_each rest h1) as [told1 h1'].
  destruct (checkRateLimit_each rest h2) as [told2 h2'].
  simpl in IH. now rewrite IH.
Qed.

End MiddlewareExtras.

(* ------------------------------------------------------------------------- *)
(** ** The read layer, end to end *)
(* ------------------------------------------------------------------------- *)

Section ReadLayerExtras.
Import JS Firestore Middleware Index.

Lemma same_header_trans a b c :
  same_header a b = true -> same_header a c = same_header b c.
Proof. unfold same_header. intros H. apply String.eqb_eq in H. now rewrite H. Qed.

(** A header just set reads back, whatever was there before. *)
Lemma get_set_header name v res0 :
  get_header name (set_header name v res0) = Some v.
Proof.
  unfold get_header, set_header. simpl. rewrite List.filter_app.
  assert (Hnone : forall hs : list (string * string),
            List.filter (fun h => same_header h.1 name)
              (List.filter (fun h => negb (same_header h.1 name)) hs) = []).
  { induction hs as [|h hs IH]; [reflexivity|]. simpl.
    destruct (same_header h.1 name) eqn:E; simpl; [exact IH|]. now rewrite E. }
  rewrite Hnone. simpl.
  assert (same_header name name = true) as ->
    by (unfold same_header; apply String.eqb_refl).
  reflexivity.
Qed.

(** Setting another header leaves it alone. *)
Lemma get_set_header_other name name' v res0 :
  same_header name' name = false ->
  get_header name (set_header name' v res0) = get_header name res0.
Proof.
  intros Hne. unfold get_header, set_header. simpl. rewrite List.filter_app. simpl.
  rewrite Hne, app_nil_r.
  assert (Hsame : forall hs : list (string * string),
            List.filter (fun h => same_header h.1 name)
              (List.filter (fun h => negb (same_header h.1 name')) hs)
            = List.filter (fun h => same_header h.1 name) hs).
  { induction hs as [|h hs IH]; [reflexivity|]. simpl.
    destruct (same_header h.1 name') eqn:E; simpl.
    - rewrite (same_header_trans _ _ name E), Hne. exact IH.
    - destruct (same_header h.1 name); [f_equal|]; exact IH. }
  now rewrite Hsame.
Qed.

(** What [setCors] leaves of the four headers on any response. *)
Lemma setCors_headers req res0 name v :
  (name, v) ∈ cors_headers -> get_header name (snd (setCors req res0)) = Some v.
Proof.
  unfold cors_headers. intros Hin.
  assert (Hsent : forall code p r, get_header name (send code p r) = get_header name r)
    by reflexivity.
  unfold setCors. destruct (String.eqb (method req) "OPTIONS"); simpl snd;
    rewrite ?Hsent;
    repeat (apply elem_of_cons in Hin as [Hin|Hin]; [inversion Hin; subst name v|]);
    try (now apply elem_of_nil in Hin);
    repeat first [ apply get_set_header
                 | rewrite get_set_header_other by reflexivity ].
Qed.


(** X19.  Every request is answered, once, with one of five statuses, after
    at most one read of the store; a 200 comes only after the read of the
    document the endpoint names.  On the answer to a preflight the headers
    are those of the CORS layer; on every other answer, whatever its
    status, the four headers of [setCors] have the values [setCors] gives
    them, in place of any the CORS layer had set. *)
Theorem createEndpoint_always_answers cors docIdFn firestore now req hits db :
  let h := createEndpoint cors docIdFn firestore now req hits db in
  is_Some (body (res h)) /\
  status (res h) ∈ [200; 204; 400; 429; 500] /\
  (length (store_reads h) <= 1)%nat /\
  (status (res h) = 200 ->
   exists docId, docIdFn req = Some docId /\ store_reads h = [docId] /\
                 reads firestore docId = Returned tt) /\
  (method req = "OPTIONS" -> headers (res h) = cors) /\
  (method req <> "OPTIONS" ->
   forall name v, (name, v) ∈ cors_headers -> get_header name (res h) = Some v).
Proof.
  cbv zeta.
  assert (Hfirst :
    is_Some (body (res (createEndpoint cors docIdFn firestore now req hits db))) /\
    status (res (createEndpoint cors docIdFn firestore now req hits db))
      ∈ [200; 204; 400; 429; 500] /\
    (length (store_reads (createEndpoint cors docIdFn firestore now req hits db)) <= 1)%nat /\
    (status (res (createEndpoint cors docIdFn firestore now req hits db)) = 200 ->
     exists docId, docIdFn req = Some docId /\
       store_reads (createEndpoint cors docIdFn firestore now req hits db) = [docId] /\
       reads firestore docId = Returned tt)).
  { unfold createEndpoint, onRequest, handler, applyMiddleware, setCors, checkRateLimit.
    destruct (String.eqb (method req) "OPTIONS"); simpl.
    { repeat split; eauto; try discriminate.
      do 1 apply list_elem_of_further. apply list_elem_of_here. }
    destruct (_ <? _); simpl.
    { repeat split; eauto; try discriminate.
      do 3 apply list_elem_of_further. apply list_elem_of_here. }
    destruct (docIdFn req) as [docId|] eqn:Hid; simpl.
    2:{ repeat split; eauto; try discriminate.
        do 2 apply list_elem_of_further. apply list_elem_of_here. }
    destruct (String.eqb docId ""); simpl.
    { repeat split; eauto; try discriminate.
      do 2 apply list_elem_of_further. apply list_elem_of_here. }
    unfold readCache. destruct (reads firestore docId) as [[]|m] eqn:Hread; simpl.
    - destruct (db !! docId) as [d|]; simpl.
      + destruct (data d); simpl; repeat split; eauto; apply list_elem_of_here.
      + repeat split; eauto; apply list_elem_of_here.
    - repeat split; eauto; try discriminate.
      do 4 apply list_elem_of_further. apply list_elem_of_here. }
  destruct Hfirst as (Hbody & Hstatus & Hreads & Hok).
  split; [exact Hbody|]. split; [exact Hstatus|]. split; [exact Hreads|].
  split; [exact Hok|]. split.
  - intros Hmethod. unfold createEndpoint, onRequest. now rewrite Hmethod.
  - intros Hmethod name v Hin.
    assert (Heqb : String.eqb (method req) "OPTIONS" = false)
      by now apply String.eqb_neq.
    unfold createEndpoint, onRequest. rewrite Heqb.
    set (res0 := {| status := 200; headers := cors; body := None |}).
    assert (Hnot : setCors req res0 = (true, snd (setCors req res0)))
      by (unfold setCors; now rewrite Heqb).
    assert (Hkept :
      get_header name (res (handler docIdFn firestore now req res0 hits db))
      = get_header name (snd (setCors req res0))).
    { unfold handler, applyMiddleware. rewrite Hnot. unfold checkRateLimit.
      destruct (_ <? _); [reflexivity|]. simpl.
      destruct (or_else (docIdFn req) None) as [docId|]; [|reflexivity].
      destruct (readCache firestore db docId) as [cached|m]; [|reflexivity].
      simpl. destruct cached; reflexivity. }
    rewrite Hkept. now apply setCors_headers.
Qed.

(** X20.  A stored document is served as it is.  For every endpoint, when
    the request passes the middleware, the read goes through and the
    document holds data other than [null], the answer is 200 with exactly
    that data, after one read. *)
Theorem stored_document_served
    cors currentYear endpoint firestore now req hits db docId d :
  endpoint ∈ endpoints currentYear -> endpoint req = Some docId ->
  admitted now req hits ->
  reads firestore docId = Returned tt ->
  db !! docId = Some d -> data d <> Null ->
  let h := createEndpoint cors endpoint firestore now req hits db in
  status (res h) = 200 /\ body (res h) = Some (Json (data d)) /\
  store_reads h = [docId].
Proof. intros. now apply (createEndpoint_stored cors currentYear). Qed.

(** X21.  From the scheduler to the page.  After a run of [refreshMeetings]
    in which the calendar was fetched and its write committed, [getMeetings]
    for that year answers 200 with the calendar as OpenF1 gave it, whether
    or not the sessions of the meetings could be refreshed. *)
Theorem meetings_served_after_refresh
    cors currentYear firestore up year db data ts now req hits :
  Scheduled.fetchMeetings up year = Returned data ->
  commits firestore ("meetings_" +:+ pretty year) data = Returned ts ->
  data <> Null ->
  ToString (year_of currentYear req) = pretty year ->
  admitted now req hits ->
  reads firestore ("meetings_" +:+ pretty year) = Returned tt ->
  let h := createEndpoint cors (getMeetings currentYear) firestore now req hits
             (fst (Scheduled.refreshMeetings firestore up year db)) in
  status (res h) = 200 /\ body (res h) = Some (Json data) /\
  store_reads h = ["meetings_" +:+ pretty year].
Proof.
  intros Hfetch Hcommit Hdata Hyear Hadm Hreads. cbv zeta.
  apply (createEndpoint_stored cors currentYear (getMeetings currentYear) firestore now
           req hits _ ("meetings_" +:+ pretty year) {| data := data; updatedAt := ts |});
    auto.
  - unfold endpoints. apply list_elem_of_here.
  - unfold getMeetings. now rewrite Hyear.
  - now apply refreshMeetings_stores.
Qed.

(** X22.  No live write is out of reach.  Every document [refreshLiveData]
    writes for a session is the document of an endpoint: a request that
    carries the session's key and no [driver_number] is mapped to it by
    [getPositions], [getIntervals], [getStints], [getWeather],
    [getRaceControl], [getDrivers], [getLatestDrivers] or [getLaps]. *)
Theorem live_writes_reachable currentYear up sessionKey req w :
  truthy (query req "session_key") = true ->
  ToString (query req "session_key") = ToString sessionKey ->
  truthy (query req "driver_number") = false ->
  w ∈ Scheduled.live_writes up sessionKey ->
  exists endpoint, endpoint ∈ endpoints currentYear /\ endpoint req = Some (fst w).
Proof.
  intros Hkey Hsame Hnone Hw.
  apply live_writes_elem in Hw as (e & He & _ & Hin).
  unfold Scheduled.live_resources in He.
  repeat match goal with
  | H : _ ∈ _ :: _ |- _ => apply elem_of_cons in H as [H|H]
  | H : _ ∈ [] |- _ => apply elem_of_nil in H; contradiction
  end; subst e; simpl in Hin;
  repeat match goal with
  | H : _ ∈ _ :: _ |- _ => apply elem_of_cons in H as [H|H]
  | H : _ ∈ [] |- _ => apply elem_of_nil in H; contradiction
  end; rewrite Hin; rewrite <- ?Hsame.
  - exists getPositions. split.
    + unfold endpoints. do 5 apply list_elem_of_further. apply list_elem_of_here.
    + unfold getPositions, keyed. now rewrite Hkey.
  - exists getIntervals. split.
    + unfold endpoints. do 6 apply list_elem_of_further. apply list_elem_of_here.
    + unfold getIntervals, keyed. now rewrite Hkey.
  - exists getStints. split.
    + unfold endpoints. do 11 apply list_elem_of_further. apply list_elem_of_here.
    + unfold getStints, keyed. now rewrite Hkey.
  - exists getWeather. split.
    + unfold endpoints. do 9 apply list_elem_of_further. apply list_elem_of_here.
    + unfold getWeather, keyed. now rewrite Hkey.
  - exists getRaceControl. split.
    + unfold endpoints. do 10 apply list_elem_of_further. apply list_elem_of_here.
    + unfold getRaceControl, keyed. now rewrite Hkey.
  - exists getDrivers. split.
    + unfold endpoints. do 3 apply list_elem_of_further. apply list_elem_of_here.
    + unfold getDrivers, keyed. now rewrite Hkey.
  - exists getLatestDrivers. split.
    + unfold endpoints. do 4 apply list_elem_of_further. apply list_elem_of_here.
    + reflexivity.
  - exists getLaps. split.
    + unfold endpoints. do 8 apply list_elem_of_further. apply list_elem_of_here.
    + unfold getLaps. now rewrite Hkey, Hnone.
Qed.

End ReadLayerExtras.

Section ReadLayerExamples.
Import JS Firestore Middleware Index.

Lemma checkRateLimit_quota_witness :
  map fst (fst (checkRateLimit_each ((0, bare_get) :: replicate 60 (60000, bare_get)) ∅))
  = replicate 60 true ++ [false] /\
  snd (checkRateLimit_each ((0, bare_get) :: replicate 60 (60000, bare_get)) ∅)
    !! "203.0.113.7"
  = Some {| count := 61; windowStart := 0 |}.
Proof.
  apply (checkRateLimit_quota 0 bare_get (replicate 60 (60000, bare_get)) ∅).
  - exact I.
  - apply Forall_replicate. split; [reflexivity|].
    unfold Config.IP_RATE_LIMIT.windowMs. simpl. lia.
Defined.

Lemma checkRateLimit_retry_after_witness :
  exists r,
    snd (fst (checkRateLimit 5 bare_get fresh_response exhausted))
    = send 429 (Json (Obj [("error", Str "Too many requests");
                           ("retryAfterMs", Number r)])) fresh_response /\
    0 <= r /\
    forall later req2 res2, client_ip req2 = client_ip bare_get ->
      fst (fst (checkRateLimit later req2 res2
                  (snd (checkRateLimit 5 bare_get fresh_response exhausted))))
      = (5 + r <? later).
Proof.
  apply (checkRateLimit_retry_after 5 bare_get fresh_response exhausted).
  reflexivity.
Defined.

Lemma cleanup_transparent_witness :
  fst (checkRateLimit_each [(400000, bare_get); (400001, bare_get)]
         (cleanup 400000 exhausted))
  = fst (checkRateLimit_each [(400000, bare_get); (400001, bare_get)] exhausted).
Proof.
  apply (cleanup_transparent 400000 [(400000, bare_get); (400001, bare_get)] exhausted).
  repeat constructor; simpl; lia.
Defined.


Lemma stored_document_served_witness :
  let h := createEndpoint vary_origin (getMeetings 2026) Scheduled.steady 5 get_2026 ∅
             {[ "meetings_2026" :=
                  {| data := Arr [Obj [("meeting_key", Number 1229)]]; updatedAt := 1 |} ]} in
  status (res h) = 200 /\
  body (res h) = Some (Json (Arr [Obj [("meeting_key", Number 1229)]])) /\
  store_reads h = ["meetings_2026"].
Proof.
  apply (stored_document_served vary_origin 2026 (getMeetings 2026) Scheduled.steady 5
           get_2026 ∅
           {[ "meetings_2026" :=
                {| data := Arr [Obj [("meeting_key", Number 1229)]]; updatedAt := 1 |} ]}
           "meetings_2026"
           {| data := Arr [Obj [("meeting_key", Number 1229)]]; updatedAt := 1 |}).
  - unfold endpoints. apply list_elem_of_here.
  - reflexivity.
  - reflexivity.
  - reflexivity.
  - apply lookup_singleton_eq.
  - discriminate.
Defined.

Lemma meetings_served_after_refresh_witness :
  let h := createEndpoint vary_origin (getMeetings 2026) Scheduled.steady 5 get_2026 ∅
             (fst (Scheduled.refreshMeetings Scheduled.steady Scheduled.race_week 2026 ∅)) in
  status (res h) = 200 /\
  body (res h) = Some (Json (Arr [Obj [("meeting_key", Number 1229)];
                                  Obj [("meeting_key", Number 1230)]])) /\
  store_reads h = ["meetings_2026"].
Proof.
  apply (meetings_served_after_refresh vary_origin 2026 Scheduled.steady
           Scheduled.race_week 2026 ∅
           (Arr [Obj [("meeting_key", Number 1229)]; Obj [("meeting_key", Number 1230)]])
           2 5 get_2026 ∅).
  - reflexivity.
  - reflexivity.
  - discriminate.
  - reflexivity.
  - reflexivity.
  - reflexivity.
Defined.

Lemma live_writes_reachable_witness :
  exists endpoint,
    endpoint ∈ endpoints 2026 /\ endpoint get_session_9158 = Some "intervals_9158".
Proof.
  apply (live_writes_reachable 2026 Scheduled.patchy (Number 9158) get_session_9158
           ("intervals_9158", Arr [Obj [("interval", Number 0)]])).
  - reflexivity.
  - reflexivity.
  - reflexivity.
  - apply list_elem_of_here.
Defined.

End ReadLayerExamples.

(* ------------------------------------------------------------------------- *)
(** ** The client cache *)
(* ------------------------------------------------------------------------- *)

Section ClientExtras.
Import JS Api.
Variable fits : gmap string item -> string -> bool.

(** [cacheGet] finds nothing exactly when neither the memory cache nor
    [localStorage] has an entry; it then changes nothing but, possibly, the
    unreadable string it removes. *)
Lemma cacheGet_absent key st :
  fst (cacheGet key st) = None ->
  cache (snd (cacheGet key st)) = cache st /\
  cache st !! key = None /\
  (forall e, localStorage (snd (cacheGet key st)) !! (CACHE_PREFIX +:+ key)
             <> Some (Stored e)) /\
  pendingRefreshes (snd (cacheGet key st)) = pendingRefreshes st /\
  activeRefreshCount (snd (cacheGet key st)) = activeRefreshCount st /\
  network (snd (cacheGet key st)) = network st /\
  dispatched (snd (cacheGet key st)) = dispatched st.
Proof.
  unfold cacheGet. destruct (cache st !! key) eqn:Hmem; [discriminate|].
  destruct (localStorage st !! (CACHE_PREFIX +:+ key)) as [[| |e]|] eqn:Hls;
    simpl; try discriminate; intros _; repeat split; auto;
    intros e'; rewrite ?Hls, ?lookup_delete_eq; discriminate.
Qed.

Lemma cacheGet_still_absent key st :
  cache st !! key = None ->
  (forall e, localStorage st !! (CACHE_PREFIX +:+ key) <> Some (Stored e)) ->
  fst (cacheGet key st) = None.
Proof.
  intros Hmem Hls. unfold cacheGet. rewrite Hmem.
  destruct (localStorage st !! (CACHE_PREFIX +:+ key)) as [[| |e]|] eqn:E;
    try reflexivity.
  now destruct (Hls e).
Qed.

(** X23.  First loads are not coalesced.  While a key has no entry, in
    memory or in [localStorage], every call for it waits for a request of
    its own: [n] calls made before anything settles issue [n] requests. *)
Theorem first_loads_not_coalesced key calls : forall st,
  fst (cacheGet key st) = None ->
  Forall (fun c => fullCacheKey (url c) (cacheKey c) = key) calls ->
  fst (gets calls st) = replicate (length calls) Awaiting /\
  network (snd (gets calls st)) = network st ++ map url calls /\
  activeRefreshCount (snd (gets calls st))
  = activeRefreshCount st + Z.of_nat (length calls) /\
  pendingRefreshes (snd (gets calls st)) = pendingRefreshes st.
Proof.
  induction calls as [|c rest IH]; intros st Habsent Hkeys.
  - simpl. rewrite app_nil_r, Z.add_0_r. auto.
  - inversion Hkeys as [|c' rest' Hc Hrest]; subst c' rest'.
    simpl. unfold fetchBackend. rewrite Hc.
    pose proof (cacheGet_absent key st Habsent) as Habs.
    destruct (cacheGet key st) as [found st1]. simpl in Habsent, Habs. subst found.
    destruct Habs as (Hcache & Hmem & Hls & Hpend & Hcount & Hnet & _).
    set (st2 := issue (url c) (bgRefreshStart st1)).
    destruct (IH st2) as (Hans & Hnet2 & Hcount2 & Hpend2).
    + apply cacheGet_still_absent; simpl; [now rewrite Hcache|exact Hls].
    + exact Hrest.
    + destruct (gets rest st2) as [answers st3]. simpl in *.
      rewrite Hans, Hnet2, Hcount2, Hpend2, Hnet, Hcount, Hpend, <- app_assoc.
      repeat split; auto. lia.
Qed.

(** X24.  A refresh that brings nothing changes nothing.  When the request
    of a background refresh is rejected, answered with an error status, or
    answered with a body that does not parse, both caches and the requests
    made stay as they were and no [f1x:cache-updated] is dispatched; the key
    is no longer pending, so the next call that finds the entry stale
    returns it again and sends a new request. *)
Theorem refresh_failure_keeps_stale key outcome now later st :
  usable outcome = false ->
  let st' := refresh_settled fits key outcome now later st in
  cache st' = cache st /\ localStorage st' = localStorage st /\
  network st' = network st /\
  pendingRefreshes st' = delete key (pendingRefreshes st) /\
  filter (fun ev => ev = "f1x:cache-updated") (dispatched st')
  = filter (fun ev => ev = "f1x:cache-updated") (dispatched st) /\
  (forall c e,
     fullCacheKey (url c) (cacheKey c) = key ->
     cache st !! key = Some e ->
     cacheDuration c <= at_time c - timestamp e ->
     fst (fetchBackend (url c) (cacheKey c) (cacheDuration c) (at_time c) st')
     = Resolved (data e) /\
     network (snd (fetchBackend (url c) (cacheKey c) (cacheDuration c) (at_time c) st'))
     = network st ++ [url c]).
Proof.
  intros Hbad. cbv zeta.
  assert (Hst' : refresh_settled fits key outcome now later st
                 = bgRefreshEnd
                     {| cache := cache st; localStorage := localStorage st;
                        pendingRefreshes := delete key (pendingRefreshes st);
                        activeRefreshCount := activeRefreshCount st;
                        network := network st; dispatched := dispatched st |}).
  { unfold refresh_settled. destruct outcome as [m|status text [v|m]]; try reflexivity.
    simpl in Hbad. rewrite Hbad. reflexivity. }
  rewrite Hst'. unfold bgRefreshEnd. simpl.
  split; [reflexivity|]. split; [reflexivity|]. split; [reflexivity|].
  split; [reflexivity|]. split.
  - destruct (_ =? 0); [|reflexivity].
    rewrite filter_app. simpl. rewrite filter_cons_False by discriminate.
    rewrite filter_nil. now rewrite app_nil_r.
  - intros c e Hc Hmem Hage. unfold fetchBackend. rewrite Hc.
    rewrite cacheGet_hit with (e := e) by exact Hmem.
    assert ((at_time c - timestamp e <? cacheDuration c) = false) as ->
      by now apply Z.ltb_ge.
    unfold backgroundRefresh. simpl. rewrite lookup_delete_eq. simpl. auto.
Qed.

(** X25.  A refresh that brings data is served from then on.  Once the
    request of a background refresh has settled with an [ok] response, the
    key is no longer pending, [f1x:cache-updated] has been dispatched, and
    every call for the key within the TTL of the new entry returns the new
    data without a request -- also when [localStorage] is full. *)
Theorem refresh_success_serves key status text v now later st c :
  Retry.ok status = true ->
  fullCacheKey (url c) (cacheKey c) = key ->
  at_time c - now < cacheDuration c ->
  let st' := refresh_settled fits key (Retry.Response status text (Returned v))
               now later st in
  fetchBackend (url c) (cacheKey c) (cacheDuration c) (at_time c) st'
  = (Resolved v, st') /\
  pendingRefreshes st' !! key = None /\
  "f1x:cache-updated" ∈ dispatched st'.
Proof.
  intros Hok Hc Hfresh. cbv zeta.
  assert (Hmem : cache (refresh_settled fits key
                          (Retry.Response status text (Returned v)) now later st) !! key
                 = Some {| data := v; timestamp := now |}).
  { unfold refresh_settled. rewrite Hok. unfold bgRefreshEnd, cacheSet, setItem. simpl.
    destruct (fits _ _); simpl; [apply lookup_insert_eq|].
    destruct (fits _ _); simpl; apply lookup_insert_eq. }
  split; [|split].
  - unfold fetchBackend. rewrite Hc, (cacheGet_hit _ _ _ Hmem). simpl.
    apply Z.ltb_lt in Hfresh. now rewrite Hfresh.
  - unfold refresh_settled. rewrite Hok. unfold bgRefreshEnd. simpl.
    apply lookup_delete_eq.
  - unfold refresh_settled. rewrite Hok. unfold bgRefreshEnd. simpl.
    destruct (_ =? 0); [apply elem_of_app; left|]; apply elem_of_app; right;
      apply list_elem_of_here.
Qed.

Lemma prefixed_key key : String.prefix CACHE_PREFIX (CACHE_PREFIX +:+ key) = true.
Proof. unfold CACHE_PREFIX. simpl. destruct key; reflexivity. Qed.

(** X26.  [cacheSet] loses nothing that is still of use.  Whatever the
    quota, the memory cache takes the entry; in [localStorage] the keys
    without the cache prefix are untouched, and so is every other entry
    that is not older than the longest TTL; the key itself ends up with the
    new entry, or -- when it does not fit even after the clean-up -- with what
    the clean-up left of the old one. *)
Theorem cacheSet_keeps now key e st :
  let st' := cacheSet fits now key e st in
  cache st' = <[key := e]> (cache st) /\
  (forall k, String.prefix CACHE_PREFIX k = false ->
     localStorage st' !! k = localStorage st !! k) /\
  (forall k e', k <> CACHE_PREFIX +:+ key ->
     localStorage st !! k = Some (Stored e') ->
     now - timestamp e' <= CACHE_DURATION.longest ->
     localStorage st' !! k = Some (Stored e')) /\
  (localStorage st' !! (CACHE_PREFIX +:+ key) = Some (Stored e) \/
   localStorage st' !! (CACHE_PREFIX +:+ key)
   = localStorage (clearExpiredCache now st) !! (CACHE_PREFIX +:+ key)).
Proof.
  cbv zeta. unfold cacheSet, setItem. simpl.
  destruct (fits (localStorage st) (CACHE_PREFIX +:+ key)); simpl.
  - split; [reflexivity|]. split; [|split].
    + intros k Hk. apply lookup_insert_ne. intros <-.
      rewrite prefixed_key in Hk. discriminate.
    + intros k e' Hne Hk _. now rewrite lookup_insert_ne.
    + left. apply lookup_insert_eq.
  - assert (Hforeign : forall k, String.prefix CACHE_PREFIX k = false ->
              filter (fun kv => expired now (fst kv) (snd kv) = false) (localStorage st)
                !! k = localStorage st !! k).
    { intros k Hk. destruct (localStorage st !! k) as [it|] eqn:E.
      - apply map_lookup_filter_Some. split; [exact E|].
        unfold expired. simpl. now rewrite Hk.
      - apply map_lookup_filter_None. now left. }
    assert (Hlive : forall k e',
              localStorage st !! k = Some (Stored e') ->
              now - timestamp e' <= CACHE_DURATION.longest ->
              filter (fun kv => expired now (fst kv) (snd kv) = false) (localStorage st)
                !! k = Some (Stored e')).
    { intros k e' Hk Hage. apply map_lookup_filter_Some. split; [exact Hk|].
      unfold expired. simpl.
      assert ((CACHE_DURATION.longest <? now - timestamp e') = false) as ->
        by now apply Z.ltb_ge.
      apply andb_false_r. }
    destruct (fits _ (CACHE_PREFIX +:+ key)); simpl.
    + split; [reflexivity|]. split; [|split].
      * intros k Hk. rewrite lookup_insert_ne; [now apply Hforeign|].
        intros <-. rewrite prefixed_key in Hk. discriminate.
      * intros k e' Hne Hk Hage. rewrite lookup_insert_ne by congruence.
        now apply Hlive.
      * left. apply lookup_insert_eq.
    + split; [reflexivity|]. split; [|split].
      * exact Hforeign.
      * intros k e' _. apply Hlive.
      * right. reflexivity.
Qed.

Lemma bgRefreshStart_in_step st : in_step st -> in_step (bgRefreshStart st).
Proof.
  unfold in_step, bgRefreshStart. simpl. intros [Hpos Hon].
  split; [lia|].
  destruct (Z.eqb_spec (activeRefreshCount st + 1) 1) as [E|E].
  - unfold refreshing. rewrite fold_left_app. simpl.
    symmetry. apply Z.ltb_lt. lia.
  - rewrite Hon.
    destruct (Z.ltb_spec 0 (activeRefreshCount st)),
             (Z.ltb_spec 0 (activeRefreshCount st + 1)); (reflexivity || lia).
Qed.

Lemma bgRefreshEnd_in_step st :
  refreshing (dispatched st) = (0 <? activeRefreshCount st) ->
  in_step (bgRefreshEnd st).
Proof.
  unfold in_step, bgRefreshEnd. simpl. intros Hon.
  split; [lia|].
  destruct (Z.eqb_spec (Z.max 0 (activeRefreshCount st - 1)) 0) as [E|E].
  - unfold refreshing. rewrite fold_left_app. simpl. rewrite E. reflexivity.
  - rewrite Hon.
    destruct (Z.ltb_spec 0 (activeRefreshCount st)),
             (Z.ltb_spec 0 (Z.max 0 (activeRefreshCount st - 1))); (reflexivity || lia).
Qed.

Lemma cacheSet_events now key e st :
  activeRefreshCount (cacheSet fits now key e st) = activeRefreshCount st /\
  dispatched (cacheSet fits now key e st) = dispatched st.
Proof.
  unfold cacheSet, setItem. simpl.
  destruct (fits _ _); simpl; [auto|]. destruct (fits _ _); simpl; auto.
Qed.

(** X27.  The refresh events follow the counter.  If the last
    [f1x:bg-refresh-...] event dispatched is the start exactly when
    [activeRefreshCount] is positive, this is still so after a call of
    [fetchBackend], after a background refresh has settled, and after a
    first load has settled, whatever their outcome. *)
Theorem refresh_events_in_step st :
  in_step st ->
  (forall url cacheKey cacheDuration now,
     in_step (snd (fetchBackend url cacheKey cacheDuration now st))) /\
  (forall key outcome now later,
     in_step (refresh_settled fits key outcome now later st)) /\
  (forall key outcome now later,
     in_step (snd (first_load_settled fits key outcome now later st))).
Proof.
  intros Hst. split; [|split].
  - intros url cacheKey cacheDuration now. unfold fetchBackend.
    destruct (cacheGet (fullCacheKey url cacheKey) st) as [[e|] st1] eqn:Hget.
    + destruct (cacheGet_found _ _ _ _ Hget) as (_ & _ & _ & Hcount).
      assert (Hst1 : in_step st1).
      { unfold in_step in *. rewrite Hcount.
        replace (dispatched st1) with (dispatched st); [exact Hst|].
        unfold cacheGet in Hget. destruct (cache st !! _).
        - now inversion Hget.
        - destruct (localStorage st !! _) as [[| |e']|]; inversion Hget; reflexivity. }
      destruct (_ <? _); simpl; [exact Hst1|].
      unfold backgroundRefresh. destruct (pendingRefreshes st1 !! _); [exact Hst1|].
      apply (bgRefreshStart_in_step st1 Hst1).
    + pose proof (cacheGet_absent (fullCacheKey url cacheKey) st) as Habs.
      rewrite Hget in Habs. simpl in Habs.
      destruct (Habs eq_refl) as (_ & _ & _ & _ & Hcount & _ & Hev).
      simpl. apply (bgRefreshStart_in_step st1).
      unfold in_step in *. now rewrite Hcount, Hev.
  - intros key outcome now later. unfold refresh_settled.
    apply bgRefreshEnd_in_step. simpl.
    destruct Hst as [_ Hon].
    destruct outcome as [m|status text [v|m]]; try exact Hon.
    destruct (Retry.ok status); [|exact Hon]. simpl.
    destruct (cacheSet_events later key {| data := v; timestamp := now |} st)
      as [-> ->].
    unfold refreshing. rewrite fold_left_app. simpl. exact Hon.
  - intros key outcome now later. unfold first_load_settled.
    destruct Hst as [_ Hon].
    destruct outcome as [m|status text [v|m]]; simpl.
    + now apply bgRefreshEnd_in_step.
    + destruct (Retry.ok status); simpl; [|now apply bgRefreshEnd_in_step].
      apply bgRefreshEnd_in_step.
      destruct (cacheSet_events later key {| data := v; timestamp := now |} st)
        as [-> ->]. exact Hon.
    + destruct (Retry.ok status); simpl; now apply bgRefreshEnd_in_step.
Qed.

(** X28.  A first load that fails has nothing to fall back on.  When the
    request of a call that found no entry is rejected, answered with an
    error status (429 included) or with a body that does not parse, the call
    throws and both caches stay as they were; for an error status the
    message is [Backend error: <status>]. *)
Theorem first_load_failure_throws key outcome now later st :
  usable outcome = false ->
  (exists message,
     fst (first_load_settled fits key outcome now later st) = Threw message) /\
  cache (snd (first_load_settled fits key outcome now later st)) = cache st /\
  localStorage (snd (first_load_settled fits key outcome now later st))
  = localStorage st /\
  (forall status text json,
     outcome = Retry.Response status text json -> Retry.ok status = false ->
     fst (first_load_settled fits key outcome now later st)
     = Threw ("Backend error: " +:+ pretty status)).
Proof.
  intros Hbad. unfold first_load_settled.
  destruct outcome as [m|status text [v|m]]; simpl in *.
  - repeat split; eauto. discriminate.
  - rewrite Hbad. simpl. repeat split; eauto. now intros ? ? ? [= <- _ _] _.
  - destruct (Retry.ok status) eqn:Hok; simpl; repeat split; eauto.
    + intros ? ? ? [= <- _ _]. congruence.
    + now intros ? ? ? [= <- _ _] _.
Qed.

End ClientExtras.

Section ClientExamples.
Import JS Api.

Lemma first_loads_not_coalesced_witness :
  fst (gets (replicate 3 (get_meetings 5)) blank) = replicate 3 Awaiting /\
  network (snd (gets (replicate 3 (get_meetings 5)) blank))
  = [] ++ map url (replicate 3 (get_meetings 5)) /\
  activeRefreshCount (snd (gets (replicate 3 (get_meetings 5)) blank)) = 0 + 3 /\
  pendingRefreshes (snd (gets (replicate 3 (get_meetings 5)) blank)) = ∅.
Proof.
  apply (first_loads_not_coalesced "meetings_2026" (replicate 3 (get_meetings 5)) blank).
  - reflexivity.
  - apply Forall_replicate. reflexivity.
Defined.

Lemma refresh_failure_keeps_stale_witness :
  let st := snd (gets [get_meetings 86401000] cold) in
  let st' := refresh_settled (fun _ _ => true) "meetings_2026"
               (Retry.Response 503 "Service Unavailable" (Returned Null))
               86402000 86402000 st in
  cache st' = cache st /\ localStorage st' = localStorage st /\
  network st' = network st /\
  pendingRefreshes st' = delete "meetings_2026" (pendingRefreshes st).
Proof.
  destruct (refresh_failure_keeps_stale (fun _ _ => true) "meetings_2026"
              (Retry.Response 503 "Service Unavailable" (Returned Null))
              86402000 86402000 (snd (gets [get_meetings 86401000] cold)))
    as (Hc & Hl & Hn & Hp & _); [reflexivity|].
  cbv zeta. split; [exact Hc|]. split; [exact Hl|]. split; [exact Hn|exact Hp].
Defined.

Lemma refresh_success_serves_witness :
  let st' := refresh_settled (fun _ _ => false) "meetings_2026"
               (Retry.Response 200 "OK" (Returned (Arr []))) 86402000 86402000
               (snd (gets [get_meetings 86401000] cold)) in
  fetchBackend (url (get_meetings 86403000)) (cacheKey (get_meetings 86403000))
    (cacheDuration (get_meetings 86403000)) (at_time (get_meetings 86403000)) st'
  = (Resolved (Arr []), st') /\
  pendingRefreshes st' !! "meetings_2026" = None /\
  "f1x:cache-updated" ∈ dispatched st'.
Proof.
  apply (refresh_success_serves (fun _ _ => false) "meetings_2026" 200 "OK" (Arr [])
           86402000 86402000 (snd (gets [get_meetings 86401000] cold))
           (get_meetings 86403000)).
  - reflexivity.
  - reflexivity.
  - unfold get_meetings, CACHE_DURATION.meetings. simpl. lia.
Defined.

Lemma refresh_events_in_step_witness :
  in_step (snd (fetchBackend (url (get_meetings 86401000)) (cacheKey (get_meetings 86401000))
                  (cacheDuration (get_meetings 86401000)) 86401000 cold)).
Proof.
  destruct (refresh_events_in_step (fun _ _ => true) cold) as [Hget _].
  - split; [simpl; lia|reflexivity].
  - apply Hget.
Defined.

Lemma first_load_failure_throws_witness :
  fst (first_load_settled (fun _ _ => true) "meetings_2026"
         (Retry.Response 429 "Too Many Requests" (Returned Null)) 5 5
         (snd (gets [get_meetings 5] blank)))
  = Threw "Backend error: 429".
Proof.
  destruct (first_load_failure_throws (fun _ _ => true) "meetings_2026"
              (Retry.Response 429 "Too Many Requests" (Returned Null)) 5 5
              (snd (gets [get_meetings 5] blank)))
    as (_ & _ & _ & Hmsg); [reflexivity|].
  apply (Hmsg 429 "Too Many Requests" (Returned Null)); reflexivity.
Defined.

End ClientExamples.

Section LiveOnBothSides.
Import JS.
Variable Date_getTime : value -> option Z.

(** X29.  The page and the scheduler agree on what is live.  Whenever the
    page's [isSessionLive] holds for a session with both dates, the
    scheduler's [isSessionInLiveWindow] holds at the same time, so live data
    is being refreshed; the window of the scheduler is the wider one. *)
Theorem isSessionLive_in_window now session :
  truthy (prop session "date_start") = true ->
  truthy (prop session "date_end") = true ->
  Api.isSessionLive Date_getTime now session = true ->
  Scheduled.isSessionInLiveWindow Date_getTime now session = true.
Proof.
  unfold Api.isSessionLive, Scheduled.isSessionInLiveWindow.
  intros -> ->. destruct (truthy session); simpl; [|discriminate].
  destruct (Date_getTime (prop session "date_start")) as [start|]; [|discriminate].
  destruct (Date_getTime (prop session "date_end")) as [end_|]; [|discriminate].
  simpl. intros Hlive. apply andb_true_iff in Hlive as [Hs He].
  apply Z.leb_le in Hs, He.
  unfold Config.SESSION_GRACE_PERIOD.beforeStart, Config.SESSION_GRACE_PERIOD.afterEnd.
  apply andb_true_iff. split; apply Z.leb_le; lia.
Qed.

End LiveOnBothSides.

Lemma isSessionLive_in_window_witness :
  Scheduled.isSessionInLiveWindow Scheduled.epoch_ms 43200000 Scheduled.a_session = true.
Proof.
  apply (isSessionLive_in_window Scheduled.epoch_ms 43200000 Scheduled.a_session);
    reflexivity.
Defined.
